(** * html-to-slack: the HTML to Slack-block converter of [src/parsers/index.ts]

    A shallow embedding of [compressHTML], [parseText], [parseHeader],
    [parseNode] and [parseHtml], followed by the properties of the
    specification that were checked against it.

    Conventions of the embedding.
    - A JavaScript string is a [string]: one [ascii] per UTF-16 code unit,
      for code units below 256.
    - A JavaScript value built by the converter is a [value]; an object keeps
      its own keys in insertion order, as [Object.keys] and JSON output do.
    - A call that can raise a [TypeError] returns a [result].
    - A regular-expression replacement is a scanner that tries the pattern at
      the head of the remaining input, left to right, as [String.replace]
      with the [g] flag does. *)

From Stdlib Require Import Strings.String Strings.Ascii Lists.List Arith.Arith
  ZArith.ZArith Bool.Bool micromega.Lia Numbers.DecimalString
  Numbers.DecimalNat Init.Decimal.
Import ListNotations.

Local Open Scope list_scope.
Local Open Scope string_scope.

Set Warnings "-register-all".

(** ** Results of calls that may throw *)

Inductive error : Type :=
| TypeError.

Inductive result (A : Type) : Type :=
| Ok (a : A)
| Throw (e : error).

Arguments Ok {A} a.
Arguments Throw {A} e.

Definition bind {A B : Type} (r : result A) (k : A -> result B) : result B :=
  match r with
  | Ok a => k a
  | Throw e => Throw e
  end.

Notation "x <- r ;; k" := (bind r (fun x => k))
  (at level 61, r at next level, right associativity).

Definition is_ok {A : Type} (r : result A) : bool :=
  match r with
  | Ok _ => true
  | Throw _ => false
  end.

(** ** Character classes of the regular expressions *)

Module Char.

Local Open Scope nat_scope.

Definition code (c : ascii) : nat := nat_of_ascii c.

Definition lf : ascii := ascii_of_nat 10.

(** [\s] on code units below 256: tab, LF, VT, FF, CR, space, NBSP. *)
Definition is_space (c : ascii) : bool :=
  let n := code c in
  ((9 <=? n) && (n <=? 13)) || (n =? 32) || (n =? 160).

(** [[ \t]] *)
Definition is_blank (c : ascii) : bool :=
  let n := code c in (n =? 32) || (n =? 9).

(** [\d] *)
Definition is_digit (c : ascii) : bool :=
  let n := code c in (48 <=? n) && (n <=? 57).

(** [\w] *)
Definition is_word (c : ascii) : bool :=
  let n := code c in
  ((48 <=? n) && (n <=? 57)) || ((65 <=? n) && (n <=? 90))
  || ((97 <=? n) && (n <=? 122)) || (n =? 95).

(** The line terminators after which [^] matches under the [m] flag. *)
Definition is_line_terminator (c : ascii) : bool :=
  let n := code c in (n =? 10) || (n =? 13).

(** [[\n ]] *)
Definition is_lf_or_space (c : ascii) : bool :=
  let n := code c in (n =? 10) || (n =? 32).

(** [[^>]] *)
Definition not_gt (c : ascii) : bool := negb (code c =? 62).

End Char.

(** ** String helpers *)

Module Str.

Definition nl : string := String Char.lf "".

(** The double-quote character, as a one-character string. *)
Definition dquote : string := String (ascii_of_nat 34) "".

(** The rest of [s] after the literal [p], when [s] starts with [p]. *)
Fixpoint strip_prefix (p s : string) : option string :=
  match p with
  | "" => Some s
  | String a p' =>
      match s with
      | "" => None
      | String b s' => if Ascii.eqb a b then strip_prefix p' s' else None
      end
  end.

(** The longest prefix of [s] whose characters satisfy [f], and the rest:
    a greedy [[...]*]. *)
Fixpoint span (f : ascii -> bool) (s : string) : string * string :=
  match s with
  | "" => ("", "")
  | String c s' =>
      if f c then let (a, b) := span f s' in (String c a, b)
      else ("", s)
  end.

(** [s] cut at the first occurrence of the literal [pat]: a lazy
    [[\s\S]*?] followed by [pat]. *)
Fixpoint split_first (pat s : string) : option (string * string) :=
  match strip_prefix pat s with
  | Some rest => Some ("", rest)
  | None =>
      match s with
      | "" => None
      | String c s' =>
          match split_first pat s' with
          | Some (a, b) => Some (String c a, b)
          | None => None
          end
      end
  end.

Fixpoint forallb (f : ascii -> bool) (s : string) : bool :=
  match s with
  | "" => true
  | String c s' => f c && forallb f s'
  end.

(** [s] has no occurrence of the character [c]. *)
Definition lacks (c : ascii) (s : string) : bool :=
  forallb (fun x => negb (Ascii.eqb x c)) s.

(** [s] has no occurrence of the literal [pat]. *)
Fixpoint lacks_sub (pat s : string) : bool :=
  match strip_prefix pat s with
  | Some _ => false
  | None =>
      match s with
      | "" => true
      | String _ s' => lacks_sub pat s'
      end
  end.

(** Decimal numeral of a natural number, as a template literal prints an
    array index. *)
Definition of_nat (n : nat) : string :=
  NilEmpty.string_of_uint (Nat.to_uint n).

(** A string of decimal digits read as a natural number; [None] when it is
    not a numeral. *)
Definition to_nat (s : string) : option nat :=
  match NilEmpty.uint_of_string s with
  | Some d => Some (Nat.of_uint d)
  | None => None
  end.

End Str.

(** ** Global replacement

    [gsub m skip st s] is [s.replace(re, callback)] for a global pattern.
    [m st s] tries the pattern at the head of [s] and answers the text that
    replaces the match, the number of code units the match covers, and the
    state left by the callback (the arrays it pushes to).  [skip] counts the
    code units of the current match that are still to be passed over.  None
    of the patterns scanned this way matches the empty string. *)

Section Gsub.

Context {St : Type}.
Variable m : St -> string -> option (string * nat * St).

Fixpoint gsub (skip : nat) (st : St) (s : string) : string * St :=
  match s with
  | "" => ("", st)
  | String c s' =>
      match skip with
      | S k => gsub k st s'
      | O =>
          match m st s with
          | Some (out, S n, st') =>
              let (r, st'') := gsub n st' s' in (out ++ r, st'')
          | _ =>
              let (r, st') := gsub 0 st s' in (String c r, st')
          end
      end
  end.

End Gsub.

(** A replacement whose callback keeps no state. *)
Definition pure_matcher (m : string -> option (string * nat))
  : unit -> string -> option (string * nat * unit) :=
  fun _ s =>
    match m s with
    | Some (out, n) => Some (out, n, tt)
    | None => None
    end.

Definition replace_all (m : string -> option (string * nat)) (s : string)
  : string :=
  fst (gsub (pure_matcher m) 0 tt s).

(** ** The normalizer: [compressHTML] *)

Module Normalizer.

(** [content.replace(/^\n/, '')]: one leading newline is dropped. *)
Definition strip_leading_newline (content : string) : string :=
  match content with
  | String c rest => if Ascii.eqb c Char.lf then rest else content
  | "" => ""
  end.

(** The arrays [preTags] and [preLeadingSpaces]. *)
Record pre_store : Type := mkPreStore {
  preTags : list string;
  preLeadingSpaces : list string
}.

Definition no_pre : pre_store := mkPreStore [] [].

(** The first pass: a greedy run of spaces and tabs, the literal [<pre>],
    a lazy run of any characters, the literal [</pre>]; global.  In its
    callback the content and the indentation before the tag are pushed,
    and the block is replaced by [<pre>i</pre>], [i] the index of the
    pushed entry. *)
Definition match_pre (st : pre_store) (s : string)
  : option (string * nat * pre_store) :=
  let (leadingSpaces, r) := Str.span Char.is_blank s in
  match Str.strip_prefix "<pre>" r with
  | None => None
  | Some r1 =>
      match Str.split_first "</pre>" r1 with
      | None => None
      | Some (content, _) =>
          Some ("<pre>" ++ Str.of_nat (List.length (preTags st)) ++ "</pre>",
                String.length leadingSpaces + 5 + String.length content + 6,
                mkPreStore
                  (preTags st ++ [strip_leading_newline content])%list
                  (preLeadingSpaces st ++ [leadingSpaces])%list)
      end
  end.

(** The second pass: [<], a greedy run of one or more word characters, a
    greedy run of characters other than [>], then [>]; global.  In its
    callback the attribute text is pushed to [tagAttributes] and replaced
    by a [data-tag-attr] placeholder. *)
Definition match_tag (tagAttributes : list string) (s : string)
  : option (string * nat * list string) :=
  match s with
  | String "<" r =>
      match Str.span Char.is_word r with
      | ("", _) => None
      | (tagName, r1) =>
          match Str.span Char.not_gt r1 with
          | (attributes, String _ _) =>
              Some ("<" ++ tagName ++ " data-tag-attr=" ++ Str.dquote ++
                      Str.of_nat (List.length tagAttributes) ++
                      Str.dquote ++ ">",
                    1 + String.length tagName + String.length attributes + 1,
                    (tagAttributes ++ [attributes])%list)
          | (_, "") => None
          end
      end
  | _ => None
  end.

(** The third pass: a newline and the greedy run of newlines and spaces
    after it, replaced by the empty string; global. *)
Definition match_newlines (s : string) : option (string * nat) :=
  match s with
  | String c r =>
      if Ascii.eqb c Char.lf
      then let (run, _) := Str.span Char.is_lf_or_space r in
           Some ("", 1 + String.length run)
      else None
  | "" => None
  end.

(** [tagAttributes[parseInt(index)]] inside a template literal: an index
    past the end prints as [undefined]. *)
Definition attribute_at (tagAttributes : list string) (index : string)
  : string :=
  match Str.to_nat index with
  | Some i => nth i tagAttributes "undefined"
  | None => "undefined"
  end.

(** The fourth pass: [<], one or more word characters, the literal
    [ data-tag-attr=], a quoted run of one or more digits, [>]; global.
    The placeholder gets its attribute text back. *)
Definition match_placeholder (tagAttributes : list string) (s : string)
  : option (string * nat) :=
  match s with
  | String "<" r =>
      match Str.span Char.is_word r with
      | ("", _) => None
      | (tagName, r1) =>
          match Str.strip_prefix (" data-tag-attr=" ++ Str.dquote) r1 with
          | None => None
          | Some r2 =>
              match Str.span Char.is_digit r2 with
              | ("", _) => None
              | (index, r3) =>
                  match Str.strip_prefix (Str.dquote ++ ">") r3 with
                  | None => None
                  | Some _ =>
                      Some ("<" ++ tagName ++
                              attribute_at tagAttributes index ++ ">",
                            1 + String.length tagName + 16
                            + String.length index + 2)
                  end
              end
          end
      end
  | _ => None
  end.

(** [content.replace(new RegExp('^' + leadingSpaces, 'mg'), '')]:
    [leadingSpaces] holds spaces and tabs only, so it stands for itself in
    the pattern.  [bol] says that the position is the start of the content
    or follows a line terminator. *)
Fixpoint strip_indent (leadingSpaces : string) (bol : bool) (skip : nat)
  (content : string) : string :=
  match content with
  | "" => ""
  | String c rest =>
      let next := Char.is_line_terminator c in
      match skip with
      | S k => strip_indent leadingSpaces next k rest
      | O =>
          match (if bol then Str.strip_prefix leadingSpaces content
                 else None) with
          | Some _ =>
              match String.length leadingSpaces with
              | S k => strip_indent leadingSpaces next k rest
              | O => String c (strip_indent leadingSpaces next 0 rest)
              end
          | None => String c (strip_indent leadingSpaces next 0 rest)
          end
      end
  end.

Definition adjust_content (leadingSpaces content : string) : string :=
  strip_indent leadingSpaces true 0 content.

(** The fifth pass: [<pre>], one or more digits, [</pre>]; global.  In its
    callback [preTags[parseInt(index)]] is [undefined] for an index past
    the end, and calling [replace] on it throws: the state records that. *)
Definition match_pre_placeholder (pre : pre_store) (thrown : bool)
  (s : string) : option (string * nat * bool) :=
  match Str.strip_prefix "<pre>" s with
  | None => None
  | Some r =>
      match Str.span Char.is_digit r with
      | ("", _) => None
      | (index, r1) =>
          match Str.strip_prefix "</pre>" r1 with
          | None => None
          | Some _ =>
              let n := 5 + String.length index + 6 in
              match Str.to_nat index with
              | Some i =>
                  match nth_error (preTags pre) i,
                        nth_error (preLeadingSpaces pre) i with
                  | Some content, Some leadingSpaces =>
                      Some ("<pre>" ++ adjust_content leadingSpaces content
                              ++ "</pre>", n, thrown)
                  | _, _ => Some ("", n, true)
                  end
              | None => Some ("", n, true)
              end
          end
      end
  end.

(** [<br], an optional space, an optional [/], then [>]; global, replaced
    by a newline. *)
Definition match_br (s : string) : option (string * nat) :=
  match Str.strip_prefix "<br" s with
  | None => None
  | Some r =>
      let '(n1, r1) := match r with
                       | String " " r' => (1, r')
                       | _ => (0, r)
                       end in
      let '(n2, r2) := match r1 with
                       | String "/" r' => (1, r')
                       | _ => (0, r1)
                       end in
      match r2 with
      | String ">" _ => Some (Str.nl, 3 + n1 + n2 + 1)
      | _ => None
      end
  end.

(** [<], an optional [/], the literal [name] ([span] or [div]), a greedy
    run of characters other than [>], then [>]; global, replaced by the
    empty string. *)
Definition match_strip_tag (name : string) (s : string)
  : option (string * nat) :=
  match s with
  | String "<" r =>
      let '(n1, r1) := match r with
                       | String "/" r' => (1, r')
                       | _ => (0, r)
                       end in
      match Str.strip_prefix name r1 with
      | None => None
      | Some r2 =>
          match Str.span Char.not_gt r2 with
          | (attrs, String _ _) =>
              Some ("", 1 + n1 + String.length name + String.length attrs + 1)
          | (_, "") => None
          end
      end
  | _ => None
  end.

(** One character that is not white space followed by one of the
    literals [<b>], [<i>] and [<code>]; global.  A space is put between
    the two. *)
Definition match_inline_open (s : string) : option (string * nat) :=
  match s with
  | String c r =>
      if Char.is_space c then None
      else
        match Str.strip_prefix "<b>" r with
        | Some _ => Some (String c " <b>", 4)
        | None =>
            match Str.strip_prefix "<i>" r with
            | Some _ => Some (String c " <i>", 4)
            | None =>
                match Str.strip_prefix "<code>" r with
                | Some _ => Some (String c " <code>", 7)
                | None => None
                end
            end
        end
  | "" => None
  end.

(** The callback of the [<p>] pass applied to the content of one paragraph. *)
Definition space_inline_tags (content : string) : string :=
  replace_all match_inline_open content.

(** [<p>], a lazy run of any characters, [</p>]; global, with its
    callback. *)
Definition match_p (s : string) : option (string * nat) :=
  match Str.strip_prefix "<p>" s with
  | None => None
  | Some r =>
      match Str.split_first "</p>" r with
      | None => None
      | Some (content, _) =>
          Some ("<p>" ++ space_inline_tags content ++ "</p>",
                3 + String.length content + 4)
      end
  end.

(** The passes of [compressHTML] after the [<pre>] contents are back in
    place. *)
Definition inline_passes (html : string) : string :=
  let html := replace_all match_br html in
  let html := replace_all (match_strip_tag "span") html in
  let html := replace_all (match_strip_tag "div") html in
  replace_all match_p html.

Definition compressHTML (html : string) : result string :=
  let '(html, pre) := gsub match_pre 0 no_pre html in
  let '(html, tagAttributes) := gsub match_tag 0 [] html in
  let html := replace_all match_newlines html in
  let html := replace_all (match_placeholder tagAttributes) html in
  let '(html, thrown) := gsub (match_pre_placeholder pre) 0 false html in
  if thrown then Throw TypeError else Ok (inline_passes html).

End Normalizer.

Import Normalizer.


(** ** The tree handed over by the HTML parser *)

(** [node.type] of an element: [tag], [script] or [style]. *)
Inductive ElementType : Type :=
| Tag
| Script
| Style.

(** [AnyNode] of domhandler.  [attribs] lists the attributes of an element
    in source order; a lookup takes the first entry of a name. *)
Inductive AnyNode : Type :=
| Text (data : string)
| Comment (data : string)
| Directive (name data : string)
| CDATA (children : list AnyNode)
| Element (type : ElementType) (name : string)
    (attribs : list (string * string)) (children : list AnyNode).

(** Induction over a tree together with the children of each node. *)
Section AnyNode_induction.

Variable P : AnyNode -> Prop.
Hypothesis HText : forall data, P (Text data).
Hypothesis HComment : forall data, P (Comment data).
Hypothesis HDirective : forall name data, P (Directive name data).
Hypothesis HCDATA : forall children, Forall P children -> P (CDATA children).
Hypothesis HElement : forall type name attribs children,
  Forall P children -> P (Element type name attribs children).

Fixpoint AnyNode_tree_ind (node : AnyNode) : P node :=
  let fix all (l : list AnyNode) : Forall P l :=
    match l with
    | [] => Forall_nil P
    | n :: l' => Forall_cons n (AnyNode_tree_ind n) (all l')
    end in
  match node with
  | Text data => HText data
  | Comment data => HComment data
  | Directive name data => HDirective name data
  | CDATA children => HCDATA children (all children)
  | Element type name attribs children =>
      HElement type name attribs children (all children)
  end.

End AnyNode_induction.

Fixpoint lookup {A : Type} (key : string) (l : list (string * A)) : option A :=
  match l with
  | [] => None
  | (k, v) :: l' => if String.eqb k key then Some v else lookup key l'
  end.

(** ** The values the converter builds *)

Inductive value : Type :=
| VUndefined
| VBool (b : bool)
| VNum (n : Z)
| VNaN
| VStr (s : string)
| VArr (items : list value)
| VObj (fields : list (string * value)).

Module Js.

(** [Array.isArray(v)] *)
Definition isArray (v : value) : bool :=
  match v with
  | VArr _ => true
  | _ => false
  end.

(** The truth value of [v] in a condition. *)
Definition truthy (v : value) : bool :=
  match v with
  | VUndefined => false
  | VBool b => b
  | VNum n => negb (Z.eqb n 0)
  | VNaN => false
  | VStr s => negb (String.eqb s "")
  | VArr _ => true
  | VObj _ => true
  end.

(** [v.key]: [undefined] when [v] has no such own key. *)
Definition get (key : string) (v : value) : value :=
  match v with
  | VObj fields =>
      match lookup key fields with
      | Some x => x
      | None => VUndefined
      end
  | _ => VUndefined
  end.

(** [key in v] for an object literal. *)
Definition has (key : string) (v : value) : bool :=
  match v with
  | VObj fields =>
      match lookup key fields with
      | Some _ => true
      | None => false
      end
  | _ => false
  end.

Fixpoint set_field (key : string) (x : value) (fields : list (string * value))
  : list (string * value) :=
  match fields with
  | [] => [(key, x)]
  | (k, y) :: fields' =>
      if String.eqb k key then (k, x) :: fields'
      else (k, y) :: set_field key x fields'
  end.

(** [v.key = x]: an existing key keeps its place, a new key goes last. *)
Definition set (key : string) (x : value) (v : value) : value :=
  match v with
  | VObj fields => VObj (set_field key x fields)
  | _ => v
  end.

(** [Object.keys(v).length] for the values that reach an [elements] array. *)
Definition keys_length (v : value) : nat :=
  match v with
  | VObj fields => List.length fields
  | VArr items => List.length items
  | VStr s => String.length s
  | _ => 0
  end.

(** The empty object literal. *)
Definition empty : value := VObj [].

Definition is_empty_object (v : value) : bool :=
  match v with
  | VObj [] => true
  | _ => false
  end.

(** The items of an array; no items for any other value. *)
Definition items (v : value) : list value :=
  match v with
  | VArr l => l
  | _ => []
  end.

(** An attribute read off [node.attribs]. *)
Definition attr (key : string) (attribs : list (string * string)) : value :=
  match lookup key attribs with
  | Some s => VStr s
  | None => VUndefined
  end.

Definition hex_digit (c : ascii) : option Z :=
  let n := Z.of_nat (nat_of_ascii c) in
  if ((48 <=? n) && (n <=? 57))%Z then Some (n - 48)%Z
  else if ((65 <=? n) && (n <=? 70))%Z then Some (n - 55)%Z
  else if ((97 <=? n) && (n <=? 102))%Z then Some (n - 87)%Z
  else None.

Definition digit_in (radix : Z) (c : ascii) : option Z :=
  match hex_digit c with
  | Some d => if (d <? radix)%Z then Some d else None
  | None => None
  end.

(** The digits of [s] in [radix], up to the first character that is not
    one; [None] when there is no digit at all. *)
Fixpoint read_digits (radix : Z) (acc : option Z) (s : string) : option Z :=
  match s with
  | "" => acc
  | String c s' =>
      match digit_in radix c with
      | Some d =>
          read_digits radix
            (Some (match acc with Some a => a * radix + d | None => d end)%Z)
            s'
      | None => acc
      end
  end.

(** [parseInt(v)] for an attribute value: leading white space, a sign, an
    optional [0x] or [0X], then digits.  The integer is kept exact: the
    value is the one JavaScript computes for every numeral up to 2^53 in
    absolute value, the range in which a JavaScript number holds every
    integer.  Above that a JavaScript number rounds, which is not
    modelled, and the sign of zero is not kept. *)
Definition parseInt (v : value) : value :=
  match v with
  | VStr s =>
      let (_, s1) := Str.span Char.is_space s in
      let '(sign, s2) := match s1 with
                         | String "-" r => ((-1)%Z, r)
                         | String "+" r => (1%Z, r)
                         | _ => (1%Z, s1)
                         end in
      let '(radix, s3) := match s2 with
                          | String "0" (String "x" r) => (16%Z, r)
                          | String "0" (String "X" r) => (16%Z, r)
                          | _ => (10%Z, s2)
                          end in
      match read_digits radix None s3 with
      | Some n => VNum (sign * n)
      | None => VNaN
      end
  | _ => VNaN
  end.

End Js.

(** ** The text run builder: [parseText] *)

(** The own keys of a [style] object, in insertion order. *)
Definition StyleSet : Type := list (string * bool).

Module TextRun.

(** [style.key = true] *)
Fixpoint set_flag (key : string) (style : StyleSet) : StyleSet :=
  match style with
  | [] => [(key, true)]
  | (k, b) :: style' =>
      if String.eqb k key then (k, true) :: style'
      else (k, b) :: set_flag key style'
  end.

(** The [switch] on the tag name at the head of [parseText]. *)
Definition update_style (name : string) (style : StyleSet) : StyleSet :=
  if String.eqb name "b" || String.eqb name "strong" then set_flag "bold" style
  else if String.eqb name "i" || String.eqb name "em"
  then set_flag "italic" style
  else if String.eqb name "s" || String.eqb name "del"
  then set_flag "strike" style
  else if String.eqb name "code" then set_flag "code" style
  else style.

(** The object [{ ...style }]. *)
Definition style_object (style : StyleSet) : value :=
  VObj (map (fun kb => (fst kb, VBool (snd kb))) style).

(** [if (Object.keys(style).length > 0) element.style = { ...style }] *)
Definition with_style (style : StyleSet) (fields : list (string * value))
  : list (string * value) :=
  match style with
  | [] => fields
  | _ :: _ => Js.set_field "style" (style_object style) fields
  end.

(** [.replace(/^\s*$/, '')] without the [m] flag: a string of white space
    only becomes empty. *)
Definition blank_if_space (s : string) : string :=
  if Str.forallb Char.is_space s then "" else s.

(** The [text] of a text node. *)
Definition text_of_data (data : string) : string :=
  blank_if_space (replace_all match_br data).

(** [parseText(node, style)].  [style] is the value of the object the caller
    hands over; [parseText_store] below keeps the objects themselves. *)
Fixpoint parseText (node : AnyNode) (style : StyleSet)
  : result (list value) :=
  match node with
  | Element Tag name attribs children =>
      let style := update_style name style in
      if String.eqb name "a" then
        let textElement :=
          with_style style
            [("type", VStr "link"); ("url", Js.attr "href" attribs)] in
        match children with
        | [] => Throw TypeError
        | Text data :: _ =>
            Ok [VObj (Js.set_field "text" (VStr data) textElement)]
        | _ :: _ => Ok [VObj textElement]
        end
      else
        (fix each (cs : list AnyNode) : result (list value) :=
           match cs with
           | [] => Ok []
           | child :: cs' =>
               ts <- parseText child style ;;
               rest <- each cs' ;;
               Ok (ts ++ rest)%list
           end) children
  | Text data =>
      Ok [VObj (with_style style
                  [("type", VStr "text"); ("text", VStr (text_of_data data))])]
  | _ => Ok []
  end.

End TextRun.

Import TextRun.

(** [parseText] on the style objects themselves.  A [heap] holds the style
    objects by address; [style.bold = true] writes to the object at the
    address the caller passed, and [{ ...style }] allocates a copy. *)
Module StyleStore.

Definition heap : Type := list StyleSet.

Definition read (l : nat) (h : heap) : StyleSet := nth l h [].

Fixpoint write (l : nat) (s : StyleSet) (h : heap) {struct h} : heap :=
  match h with
  | [] => []
  | x :: h' =>
      match l with
      | O => s :: h'
      | S l' => x :: write l' s h'
      end
  end.

(** A new object holding [s]; its address is the next free one. *)
Definition alloc (s : StyleSet) (h : heap) : nat * heap :=
  (List.length h, (h ++ [s])%list).

(** [if (Object.keys(style).length > 0) element.style = { ...style }], the
    copy being made from the object at [l]. *)
Definition with_style_at (l : nat) (h : heap)
  (fields : list (string * value)) : list (string * value) * heap :=
  match read l h with
  | [] => (fields, h)
  | _ :: _ =>
      let (c, h') := alloc (read l h) h in
      (Js.set_field "style" (style_object (read c h')) fields, h')
  end.

Fixpoint parseText_store (node : AnyNode) (l : nat) (h : heap)
  : result (list value) * heap :=
  match node with
  | Element Tag name attribs children =>
      let h := write l (update_style name (read l h)) h in
      if String.eqb name "a" then
        let (textElement, h) :=
          with_style_at l h
            [("type", VStr "link"); ("url", Js.attr "href" attribs)] in
        match children with
        | [] => (Throw TypeError, h)
        | Text data :: _ =>
            (Ok [VObj (Js.set_field "text" (VStr data) textElement)], h)
        | _ :: _ => (Ok [VObj textElement], h)
        end
      else
        (fix each (cs : list AnyNode) (h : heap)
           : result (list value) * heap :=
           match cs with
           | [] => (Ok [], h)
           | child :: cs' =>
               let (c, h1) := alloc (read l h) h in
               match parseText_store child c h1 with
               | (Throw e, h2) => (Throw e, h2)
               | (Ok ts, h2) =>
                   match each cs' h2 with
                   | (Throw e, h3) => (Throw e, h3)
                   | (Ok rest, h3) => (Ok (ts ++ rest)%list, h3)
                   end
               end
           end) children h
  | Text data =>
      let (textElement, h) :=
        with_style_at l h
          [("type", VStr "text"); ("text", VStr (text_of_data data))] in
      (Ok [VObj textElement], h)
  | _ => (Ok [], h)
  end.

(** [parseText(node)] with the default argument [style = {}]. *)
Definition parseText_default (node : AnyNode) (h : heap)
  : result (list value) * heap :=
  let (l, h) := alloc [] h in parseText_store node l h.

End StyleStore.

(** ** The header leaf builder and the tree walker *)

Module Walker.

Definition children_of (node : AnyNode) : option (list AnyNode) :=
  match node with
  | Element _ _ _ children => Some children
  | CDATA children => Some children
  | _ => None
  end.

(** [parseHeader(node)] *)
Definition parseHeader (node : AnyNode) : value :=
  match children_of node with
  | Some (Text data :: _) =>
      if String.eqb data "" then Js.empty
      else VObj [("type", VStr "header");
                 ("text", VObj [("type", VStr "plain_text");
                                ("text", VStr data)])]
  | _ => Js.empty
  end.

Definition name_in (names : list string) (name : string) : bool :=
  existsb (String.eqb name) names.

(** The tag names whose case returns [parseText(node)]. *)
Definition inline_names : list string :=
  ["b"; "strong"; "i"; "em"; "s"; "del"; "code"; "a"].

(** The tag names whose case returns [parseHeader(node)]. *)
Definition heading_names : list string :=
  ["h1"; "h2"; "h3"; "h4"; "h5"; "h6"].

(** The tag names whose case opens a block. *)
Definition block_names : list string :=
  ["ul"; "ol"; "li"; "pre"; "blockquote"; "img"; "p"].

(** The tag names the [switch] of [parseNode] has a case for. *)
Definition recognized (name : string) : bool :=
  name_in block_names name || name_in inline_names name
  || name_in heading_names name.

Definition container (type : string) : value :=
  VObj [("type", VStr type); ("elements", VArr [])].

(** The block a tag opens: the assignments to [block] in the [switch]; the
    empty object where no case assigns. *)
Definition open_block (name : string) (attribs : list (string * string))
  : value :=
  if String.eqb name "ul" || String.eqb name "ol" then
    VObj [("type", VStr "rich_text_list");
          ("style", VStr (if String.eqb name "ul" then "bullet"
                          else "ordered"));
          ("elements", VArr []);
          ("indent", Js.parseInt (Js.attr "indent" attribs))]
  else if String.eqb name "li" then container "rich_text_section"
  else if String.eqb name "pre" then container "rich_text_preformatted"
  else if String.eqb name "blockquote" then container "rich_text_quote"
  else if String.eqb name "img" then
    let block :=
      VObj [("type", VStr "image");
            ("image_url", Js.attr "src" attribs);
            ("alt_text",
             if Js.truthy (Js.attr "alt" attribs) then Js.attr "alt" attribs
             else VStr "")] in
    if Js.truthy (Js.attr "title" attribs) then
      Js.set "title"
        (VObj [("type", VStr "plain_text");
               ("text", Js.attr "title" attribs)]) block
    else block
  else if String.eqb name "p" then container "rich_text_section"
  else Js.empty.

(** [(element) => Object.keys(element).length !== 0] *)
Definition has_keys (element : value) : bool :=
  negb (Nat.eqb (Js.keys_length element) 0).

(** The body of the loop over [node.children]: the child's value is pushed
    to [block.elements] (spread when it is an array) and the array is
    filtered; nothing happens to a block without [elements]. *)
Definition append_child (block childObj : value) : value :=
  if Js.truthy childObj && Js.has "elements" block then
    let pushed :=
      (Js.items (Js.get "elements" block)
       ++ (if Js.isArray childObj then Js.items childObj else [childObj]))%list
    in Js.set "elements" (VArr (filter has_keys pushed)) block
  else block.

(** [parseNode(node)] *)
Fixpoint parseNode (node : AnyNode) : result value :=
  match node with
  | Element Tag name attribs children =>
      if name_in inline_names name then
        ts <- parseText node [] ;; Ok (VArr ts)
      else if name_in heading_names name then Ok (parseHeader node)
      else
        (fix loop (cs : list AnyNode) (block : value) : result value :=
           match cs with
           | [] => Ok block
           | child :: cs' =>
               childObj <- parseNode child ;;
               loop cs' (append_child block childObj)
           end) children (open_block name attribs)
  | Text data => ts <- parseText node [] ;; Ok (VArr ts)
  | _ => Ok Js.empty
  end.

(** [regex.test(text)] for the pattern of [parseHtml]: a negative lookahead
    for a newline followed by white space up to the end, then any run of
    characters.  It fails exactly on such a text. *)
Definition line_test (text : string) : bool :=
  match text with
  | String c rest =>
      negb (Ascii.eqb c Char.lf && Str.forallb Char.is_space rest)
  | "" => true
  end.

(** [(block) => block.text && regex.test(block.text)]; [text] is a string
    or [undefined] in every element [parseText] builds. *)
Definition keep_text (block : value) : bool :=
  match Js.get "text" block with
  | VStr text => negb (String.eqb text "") && line_test text
  | v => Js.truthy v
  end.

(** What one child of the body adds to [blocks]. *)
Definition push_result (tmp : value) : list value :=
  if Js.isArray tmp then filter keep_text (Js.items tmp) else [tmp].

(** The [forEach] of [parseHtml] over [body.children]: the list [blocks]
    handed to [blockBuilder]. *)
Fixpoint parseBlocks (nodes : list AnyNode) : result (list value) :=
  match nodes with
  | [] => Ok []
  | node :: rest =>
      tmp <- parseNode node ;;
      more <- parseBlocks rest ;;
      Ok (push_result tmp ++ more)%list
  end.

(** [DomUtils.findAll(test, nodes)]: the elements passing [test], in
    document order. *)
Fixpoint findAll (test : AnyNode -> bool) (node : AnyNode) : list AnyNode :=
  match node with
  | Element _ _ _ children =>
      let inside :=
        (fix all (cs : list AnyNode) : list AnyNode :=
           match cs with
           | [] => []
           | c :: cs' => (findAll test c ++ all cs')%list
           end) children in
      if test node then node :: inside else inside
  | CDATA children =>
      (fix all (cs : list AnyNode) : list AnyNode :=
         match cs with
         | [] => []
         | c :: cs' => (findAll test c ++ all cs')%list
         end) children
  | _ => []
  end.

Definition is_tag_named (tag : string) (node : AnyNode) : bool :=
  match node with
  | Element Tag name _ _ => String.eqb name tag
  | _ => false
  end.

Definition findDomElementsByTagName (dom : list AnyNode) (tag : string)
  : list AnyNode :=
  flat_map (findAll (is_tag_named tag)) dom.

(** [parseHtml], over its three collaborators: [linearizeLists] and
    [blockBuilder] of [../utils], and [parseDocument] of htmlparser2, which
    answers the children of the document root. *)
Section Pipeline.

Variable linearizeLists : string -> string.
Variable parseDocument : string -> list AnyNode.
Variable blockBuilder : list value -> value.

Definition body_children (dom : list AnyNode) : list AnyNode :=
  match findDomElementsByTagName dom "body" with
  | Element _ _ _ children :: _ => children
  | _ => dom
  end.

(** The stages of [parseHtml] after [compressHTML]. *)
Definition convert_normalized (html : string) : result value :=
  let html := linearizeLists html in
  let dom := parseDocument html in
  blocks <- parseBlocks (body_children dom) ;;
  Ok (blockBuilder blocks).

Definition parseHtml (html : string) : result value :=
  html <- compressHTML html ;;
  convert_normalized html.

End Pipeline.

End Walker.

Import Walker.

(** ** The loops over the children of a node, by name *)

(** The loop of [parseText] over [node.children]. *)
Fixpoint text_of_children (style : StyleSet) (cs : list AnyNode)
  : result (list value) :=
  match cs with
  | [] => Ok []
  | child :: cs' =>
      ts <- parseText child style ;;
      rest <- text_of_children style cs' ;;
      Ok (ts ++ rest)%list
  end.

(** The loop of [parseNode] over [node.children]. *)
Fixpoint walk_children (cs : list AnyNode) (block : value) : result value :=
  match cs with
  | [] => Ok block
  | child :: cs' =>
      childObj <- parseNode child ;;
      walk_children cs' (append_child block childObj)
  end.

Definition link_element (style : StyleSet) (attribs : list (string * string))
  : list (string * value) :=
  with_style style [("type", VStr "link"); ("url", Js.attr "href" attribs)].

(** ** Headings *)

Definition header_block (data : string) : value :=
  VObj [("type", VStr "header");
        ("text", VObj [("type", VStr "plain_text"); ("text", VStr data)])].

(** The source text of a heading element without attributes. *)
Definition heading_html (level data : string) : string :=
  "<" ++ level ++ ">" ++ data ++ "</" ++ level ++ ">".

Definition text_element (text : string) (style : StyleSet) : value :=
  VObj (with_style style [("type", VStr "text"); ("text", VStr text)]).

(** ** Vocabulary of the filtering properties *)

(** No array inside [v], at any depth, holds the empty object. *)
Fixpoint no_empty_items (v : value) : bool :=
  match v with
  | VArr items =>
      forallb (fun x => negb (Js.is_empty_object x) && no_empty_items x) items
  | VObj fields =>
      forallb (fun kv => match kv with (_, x) => no_empty_items x end) fields
  | _ => true
  end.

(** A text that is a newline followed by white space only. *)
Definition newline_then_space (text : string) : Prop :=
  exists ws, text = String Char.lf ws /\ Str.forallb Char.is_space ws = true.

(** The elements [parseText] builds. *)
Inductive inline_element : value -> Prop :=
| inline_text (data : string) (style : StyleSet) :
    inline_element (text_element (text_of_data data) style)
| inline_link (style : StyleSet) (attribs : list (string * string)) :
    inline_element (VObj (link_element style attribs))
| inline_link_text (data : string) (style : StyleSet)
    (attribs : list (string * string)) :
    inline_element
      (VObj (Js.set_field "text" (VStr data) (link_element style attribs))).

(** ** Vocabulary of the paragraph pass *)

(** The opening tags the paragraph pass puts a space before. *)
Definition spaced_tags : list string := ["<b>"; "<i>"; "<code>"].

Definition starts_with (p s : string) : bool :=
  match Str.strip_prefix p s with
  | Some _ => true
  | None => false
  end.

(** [s] opens with one of [spaced_tags]. *)
Definition opens_spaced_tag (s : string) : bool :=
  existsb (fun tag => starts_with tag s) spaced_tags.

(** ** Vocabulary of the style store *)

Import StyleStore.

(** The heap [h'] has every object of [h] at its address, unchanged except
    for the one at [l]. *)
Definition frame (l : nat) (h h' : heap) : Prop :=
  List.length h <= List.length h'
  /\ forall l', l' < List.length h -> l' <> l -> read l' h' = read l' h.

(** The loop of [parseText_store] over [node.children]. *)
Fixpoint store_children (l : nat) (cs : list AnyNode) (h : heap)
  : result (list value) * heap :=
  match cs with
  | [] => (Ok [], h)
  | child :: cs' =>
      let (c, h1) := alloc (read l h) h in
      match parseText_store child c h1 with
      | (Throw e, h2) => (Throw e, h2)
      | (Ok ts, h2) =>
          match store_children l cs' h2 with
          | (Throw e, h3) => (Throw e, h3)
          | (Ok rest, h3) => (Ok (ts ++ rest)%list, h3)
          end
      end
  end.

(** What the [switch] at the head of [parseText] does to the style of the
    call: a tag updates it, any other node leaves it. *)
Definition own_style (node : AnyNode) (style : StyleSet) : StyleSet :=
  match node with
  | Element Tag name _ _ => update_style name style
  | _ => style
  end.

(** ** Vocabulary of the preformatted blocks *)

(** A stretch of a document: plain text, then the indentation before a
    [<pre>] tag, then the block with its content. *)
Record pre_segment : Type := mkSegment {
  before : string;
  indent : string;
  content : string
}.

Definition plain_text (t : string) : bool := Str.lacks "<" t.

(** The last character of [t], if any, is not a space or a tab. *)
Fixpoint ends_unblank (t : string) : bool :=
  match t with
  | "" => true
  | String c "" => negb (Char.is_blank c)
  | String _ t' => ends_unblank t'
  end.

(** The text before the block is plain and stops before the indentation;
    the indentation is spaces and tabs; the content has no closing tag of
    its own. *)
Definition well_formed_segment (s : pre_segment) : bool :=
  plain_text (before s) && ends_unblank (before s)
  && Str.forallb Char.is_blank (indent s)
  && Str.lacks_sub "</pre>" (content s).

(** The document as written. *)
Fixpoint source_document (segs : list pre_segment) (after : string) : string :=
  match segs with
  | [] => after
  | s :: segs' =>
      before s ++ indent s ++ "<pre>" ++ content s ++ "</pre>"
      ++ source_document segs' after
  end.

(** The third pass on a stretch of text. *)
Definition collapse_newlines (t : string) : string :=
  replace_all match_newlines t.

(** What is left of the content of a block: one leading newline goes, and
    the indentation goes from the start of each line. *)
Definition restored_content (s : pre_segment) : string :=
  adjust_content (indent s) (strip_leading_newline (content s)).

(** The document with its blocks restored, before the passes over [<br>],
    [span], [div] and [<p>]. *)
Fixpoint restored_document (segs : list pre_segment) (after : string)
  : string :=
  match segs with
  | [] => collapse_newlines after
  | s :: segs' =>
      collapse_newlines (before s) ++ "<pre>" ++ restored_content s
      ++ "</pre>" ++ restored_document segs' after
  end.

(** The document after the first pass: block number [k] onwards. *)
Fixpoint numbered_document (k : nat) (segs : list pre_segment)
  (after : string) : string :=
  match segs with
  | [] => after
  | s :: segs' =>
      before s ++ "<pre>" ++ Str.of_nat k ++ "</pre>"
      ++ numbered_document (S k) segs' after
  end.

(** The document after the second pass: block number [k] onwards, tag
    number [j] onwards. *)
Fixpoint tagged_document (k j : nat) (segs : list pre_segment)
  (after : string) : string :=
  match segs with
  | [] => after
  | s :: segs' =>
      before s ++ "<pre data-tag-attr=" ++ Str.dquote ++ Str.of_nat j
      ++ Str.dquote ++ ">" ++ Str.of_nat k ++ "</pre>"
      ++ tagged_document (S k) (S j) segs' after
  end.

Definition collapse_before (s : pre_segment) : pre_segment :=
  mkSegment (collapse_newlines (before s)) (indent s) (content s).

(** Lines joined by newlines. *)
Fixpoint join_lines (lines : list string) : string :=
  match lines with
  | [] => ""
  | [l] => l
  | l :: lines' => l ++ Str.nl ++ join_lines lines'
  end.

(** A line without the indentation it starts with, if it starts with it. *)
Definition unindent (indentation line : string) : string :=
  match Str.strip_prefix indentation line with
  | Some rest => rest
  | None => line
  end.

(** A line holds no line terminator. *)
Definition one_line (line : string) : bool :=
  Str.forallb (fun c => negb (Char.is_line_terminator c)) line.

(** The entries the first pass leaves in [preTags] for a list of blocks. *)
Definition stripped_contents (segs : list pre_segment) : list string :=
  map (fun s => strip_leading_newline (content s)) segs.

(** The placeholder the second pass leaves for the [<pre>] tag number [j]. *)
Definition tag_placeholder (j : nat) : string :=
  "<pre data-tag-attr=" ++ Str.dquote ++ Str.of_nat j ++ Str.dquote ++ ">".

(** The placeholder of block number [k] behind tag number [j]. *)
Definition block_placeholder (j k : nat) : string :=
  tag_placeholder j ++ Str.of_nat k ++ "</pre>".

(** The document after the fifth pass, for blocks whose text before them
    is already collapsed. *)
Fixpoint filled_document (segs : list pre_segment) (after : string) : string :=
  match segs with
  | [] => after
  | s :: segs' =>
      before s ++ "<pre>" ++ restored_content s ++ "</pre>"
      ++ filled_document segs' after
  end.

(** The text after a line: nothing, or a newline and more text; and what
    [strip_indent] makes of it. *)
Definition line_end (lead R T : string) : Prop :=
  (R = "" /\ T = "")
  \/ exists rest,
       R = String Char.lf rest
       /\ T = String Char.lf (strip_indent lead true 0 rest).

(** ** Vocabulary of the further properties of the tree walker *)

(** [parseText] started at [node] comes to an anchor without children. *)
Fixpoint text_reaches_empty_anchor (node : AnyNode) : bool :=
  match node with
  | Element Tag name _ children =>
      if String.eqb name "a" then
        match children with
        | [] => true
        | _ :: _ => false
        end
      else existsb text_reaches_empty_anchor children
  | _ => false
  end.

(** [parseNode] started at [node] comes to an anchor without children. *)
Fixpoint walk_reaches_empty_anchor (node : AnyNode) : bool :=
  match node with
  | Element Tag name _ children =>
      if name_in inline_names name then text_reaches_empty_anchor node
      else if name_in heading_names name then false
      else existsb walk_reaches_empty_anchor children
  | _ => false
  end.

(** The tag names whose block has [elements]. *)
Definition container_names : list string :=
  ["ul"; "ol"; "li"; "pre"; "blockquote"; "p"].

(** What a child's value adds to [elements] before the filter: its items
    when it is an array, itself otherwise. *)
Definition spread (v : value) : list value :=
  if Js.isArray v then Js.items v else [v].

(** The values of the children, in document order. *)
Fixpoint parse_each (cs : list AnyNode) : result (list value) :=
  match cs with
  | [] => Ok []
  | c :: cs' =>
      v <- parseNode c ;;
      vs <- parse_each cs' ;;
      Ok (v :: vs)
  end.

(** The keys a style object can have. *)
Definition flag_names : list string := ["bold"; "italic"; "strike"; "code"].

(** Every key of [style] is a flag name and every flag is [true]. *)
Definition flags_on (style : StyleSet) : bool :=
  forallb (fun kb => name_in flag_names (fst kb) && snd kb) style.

Definition flag_true (kv : string * value) : bool :=
  name_in flag_names (fst kv)
  && match snd kv with
     | VBool true => true
     | _ => false
     end.

(** A value under a [style] key: when it is an object (the style of a text
    or a link; the [style] of a list is a string), it has at least one key,
    and all its keys are flags that are [true]. *)
Definition style_value_ok (x : value) : bool :=
  match x with
  | VObj [] => false
  | VObj flags => forallb flag_true flags
  | _ => true
  end.

Definition field_ok (styles_ok : value -> bool) (kv : string * value) : bool :=
  match kv with
  | (k, x) =>
      (if String.eqb k "style" then style_value_ok x else true) && styles_ok x
  end.

(** Every style object inside [v], at any depth, is as [style_value_ok]
    says. *)
Fixpoint styles_ok (v : value) : bool :=
  match v with
  | VArr items => forallb styles_ok items
  | VObj fields =>
      forallb (fun kv =>
                 match kv with
                 | (k, x) =>
                     (if String.eqb k "style" then style_value_ok x else true)
                     && styles_ok x
                 end) fields
  | _ => true
  end.

(** A block without [elements], or whose [elements] is an array that the
    filter of [parseNode] leaves as it is. *)
Definition tidy (block : value) : Prop :=
  Js.has "elements" block = false
  \/ exists fields E,
       block = VObj fields
       /\ lookup "elements" fields = Some (VArr E)
       /\ filter has_keys E = E.

(** ** Vocabulary of the tags of a document *)

(** A stretch of a document: plain text, then a tag written as [<], the
    text [inner] and [>]. *)
Record tag_segment : Type := mkTag {
  text_before : string;
  inner : string
}.

(** The name the second pass takes from a tag, and the attribute text it
    stores. *)
Definition tag_name (inner : string) : string :=
  fst (Str.span Char.is_word inner).

Definition tag_attributes (inner : string) : string :=
  snd (Str.span Char.is_word inner).

(** The tag starts with a word character: the second pass matches it. *)
Definition is_open (inner : string) : bool :=
  negb (String.eqb (tag_name inner) "").

(** The text before the tag is plain; the tag holds no [<] and no [>]; it
    is not the literal [<pre>]; and a tag the second pass does not match
    (a closing tag, say) holds no newline. *)
Definition well_formed_tag (s : tag_segment) : bool :=
  plain_text (text_before s) && plain_text (inner s)
  && Str.lacks ">" (inner s)
  && negb (String.eqb (inner s) "pre")
  && (is_open (inner s) || Str.lacks Char.lf (inner s)).

(** The document as written. *)
Fixpoint tag_document (segs : list tag_segment) (after : string) : string :=
  match segs with
  | [] => after
  | s :: segs' =>
      text_before s ++ "<" ++ inner s ++ ">" ++ tag_document segs' after
  end.

(** The placeholder of the tag number [j] named [name]. *)
Definition attr_placeholder (name : string) (j : nat) : string :=
  "<" ++ name ++ " data-tag-attr=" ++ Str.dquote ++ Str.of_nat j
  ++ Str.dquote ++ ">".

(** The document after the second pass, tag number [j] onwards. *)
Fixpoint held_document (j : nat) (segs : list tag_segment) (after : string)
  : string :=
  match segs with
  | [] => after
  | s :: segs' =>
      if is_open (inner s) then
        text_before s ++ attr_placeholder (tag_name (inner s)) j
        ++ held_document (S j) segs' after
      else
        text_before s ++ "<" ++ inner s ++ ">" ++ held_document j segs' after
  end.

(** The attribute texts the second pass stores for a document. *)
Fixpoint held_attributes (segs : list tag_segment) : list string :=
  match segs with
  | [] => []
  | s :: segs' =>
      if is_open (inner s)
      then tag_attributes (inner s) :: held_attributes segs'
      else held_attributes segs'
  end.

Definition collapse_text (s : tag_segment) : tag_segment :=
  mkTag (collapse_newlines (text_before s)) (inner s).

(** ** Vocabulary of the last passes over the tags of a document *)

(** [s] starts with the literal [p]. *)
Definition has_prefix (p s : string) : bool :=
  match Str.strip_prefix p s with
  | Some _ => true
  | None => false
  end.

(** The tags that stand for a line break. *)
Definition is_br (inner : string) : bool :=
  existsb (String.eqb inner) ["br"; "br "; "br/"; "br /"].

(** The text of a tag after an optional [/]. *)
Definition after_slash (inner : string) : string :=
  match inner with
  | String "/" r => r
  | _ => inner
  end.

(** After an optional [/] the text of the tag starts with [name], whatever
    follows. *)
Definition is_wrapper (name inner : string) : bool :=
  has_prefix name (after_slash inner).

(** What is left of a tag once the line breaks are replaced (with [br]
    set) and the tags starting with one of [names] are taken out. *)
Definition shown_by (br : bool) (names : list string) (inner : string)
  : string :=
  if br && is_br inner then Str.nl
  else if existsb (fun name => is_wrapper name inner) names then ""
  else "<" ++ inner ++ ">".

(** What is left of a tag after the passes over [<br>], [span] and
    [div]. *)
Definition shown (inner : string) : string :=
  shown_by true ["span"; "div"] inner.

(** A document with every tag written by [f]. *)
Fixpoint render (f : string -> string) (segs : list tag_segment)
  (after : string) : string :=
  match segs with
  | [] => after
  | s :: segs' => text_before s ++ f (inner s) ++ render f segs' after
  end.

Definition shown_document (segs : list tag_segment) (after : string)
  : string :=
  render shown segs after.

(** A well-formed tag other than the literal [<p>]. *)
Definition flow_tag (s : tag_segment) : bool :=
  well_formed_tag s && negb (String.eqb (inner s) "p").

(** ** Vocabulary of the shapes of the output *)

Definition is_string (v : value) : bool :=
  match v with
  | VStr _ => true
  | _ => false
  end.

(** A string, or [undefined]: the key is missing or was set from a missing
    attribute. *)
Definition string_or_undefined (v : value) : bool :=
  match v with
  | VStr _ => true
  | VUndefined => true
  | _ => false
  end.

(** A number, not-a-number included. *)
Definition is_number (v : value) : bool :=
  match v with
  | VNum _ => true
  | VNaN => true
  | _ => false
  end.

(** The object [{ type: 'plain_text', text }] with a non-empty [text]. *)
Definition is_plain_text_object (v : value) : bool :=
  match Js.get "type" v, Js.get "text" v with
  | VStr type, VStr text =>
      String.eqb type "plain_text" && negb (String.eqb text "")
  | _, _ => false
  end.

(** The fields an object of the given [type] comes with. *)
Definition shape_of (type : string) (v : value) : bool :=
  if String.eqb type "text" then is_string (Js.get "text" v)
  else if String.eqb type "link" then
    string_or_undefined (Js.get "url" v)
    && string_or_undefined (Js.get "text" v)
  else if String.eqb type "header" then
    is_plain_text_object (Js.get "text" v)
  else if String.eqb type "image" then
    string_or_undefined (Js.get "image_url" v)
    && is_string (Js.get "alt_text" v)
    && (negb (Js.has "title" v)
        || is_plain_text_object (Js.get "title" v))
  else if String.eqb type "rich_text_list" then
    Js.isArray (Js.get "elements" v)
    && match Js.get "style" v with
       | VStr style => String.eqb style "bullet" || String.eqb style "ordered"
       | _ => false
       end
    && is_number (Js.get "indent" v)
  else if String.eqb type "rich_text_section"
          || String.eqb type "rich_text_preformatted"
          || String.eqb type "rich_text_quote"
  then Js.isArray (Js.get "elements" v)
  else false.

(** [v] has a [type] the converter knows, with the fields of that type. *)
Definition shaped (v : value) : bool :=
  match Js.get "type" v with
  | VStr type => shape_of type v
  | _ => false
  end.

(** The check [typed] makes on one field of an object. *)
Definition items_ok (typed : value -> bool) (kv : string * value) : bool :=
  match kv with
  | (k, VArr items) =>
      if String.eqb k "elements" then forallb typed items else true
  | _ => true
  end.

(** [v] is an object with a known [type] and its fields, and so is every
    item of its [elements], at any depth. *)
Fixpoint typed (v : value) : bool :=
  match v with
  | VObj fields =>
      shaped v
      && forallb (fun kv =>
                    match kv with
                    | (k, VArr items) =>
                        if String.eqb k "elements" then forallb typed items
                        else true
                    | _ => true
                    end) fields
  | _ => false
  end.

(** The [type] of a text run: [text] or [link]. *)
Definition is_run (v : value) : bool :=
  match Js.get "type" v with
  | VStr type => String.eqb type "text" || String.eqb type "link"
  | _ => false
  end.

(** A block: the empty object, or a typed object. *)
Definition block_ok (v : value) : bool :=
  Js.is_empty_object v || typed v.

(** The value of a node: a list of typed runs, or a block. *)
Definition value_ok (v : value) : bool :=
  match v with
  | VArr items => forallb (fun e => typed e && is_run e) items
  | _ => block_ok v
  end.

(** ** Vocabulary of the normal form of a document of tags *)

(** The text before a tag is plain, and the tag holds no [<] and no [>]. *)
Definition markup_ok (s : tag_segment) : bool :=
  plain_text (text_before s) && plain_text (inner s)
  && Str.lacks ">" (inner s).

(** The tag is taken out by the passes over [span] and [div]. *)
Definition is_unwrapped (inner : string) : bool :=
  existsb (fun name => is_wrapper name inner) ["span"; "div"].

(** The text [t] put in front of a document: before its first tag, or
    before its last text when it has no tag. *)
Definition glue (t : string) (segs : list tag_segment) (after : string)
  : list tag_segment * string :=
  match segs with
  | [] => ([], t ++ after)
  | k :: segs' => (mkTag (t ++ text_before k) (inner k) :: segs', after)
  end.

(** The tags that the passes over [<br>], [span] and [div] leave, and the
    text behind the last of them: the newline of a line break and the text
    before a tag that goes join the text before the next tag. *)
Fixpoint settle (segs : list tag_segment) (after : string)
  : list tag_segment * string :=
  match segs with
  | [] => ([], after)
  | s :: segs' =>
      let (ks, a) := settle segs' after in
      if is_br (inner s) then glue (text_before s ++ Str.nl) ks a
      else if is_unwrapped (inner s) then glue (text_before s) ks a
      else (s :: ks, a)
  end.

(** The tags the paragraph pass puts a space before. *)
Definition is_spaced (inner : string) : bool :=
  existsb (String.eqb inner) ["b"; "i"; "code"].

(** [t] ends with a character that is not white space. *)
Fixpoint ends_unspaced (t : string) : bool :=
  match t with
  | "" => false
  | String c "" => negb (Char.is_space c)
  | String _ t' => ends_unspaced t'
  end.

(** The character before a tag can take the space: the last character of
    the text [t] before the tag when there is one; with no text, the [>] of
    the tag before, which [carry] says is there and not used up by a
    match. *)
Definition can_space (carry : bool) (t : string) : bool :=
  match t with
  | "" => carry
  | _ => ends_unspaced t
  end.

(** The callback of the paragraph pass over the tags of the content of a
    paragraph. *)
Fixpoint space_tags (carry : bool) (segs : list tag_segment)
  : list tag_segment :=
  match segs with
  | [] => []
  | s :: segs' =>
      if is_spaced (inner s) && can_space carry (text_before s)
      then mkTag (text_before s ++ " ") (inner s) :: space_tags false segs'
      else s :: space_tags true segs'
  end.

Definition closes_paragraph (s : tag_segment) : bool :=
  String.eqb (inner s) "/p".

(** The paragraph pass over the tags of a document.  [inside] is [None]
    outside a paragraph; inside one it holds the [carry] of the callback.
    A [<p>] opens a paragraph when a [</p>] follows. *)
Fixpoint paragraphs (inside : option bool) (segs : list tag_segment)
  : list tag_segment :=
  match segs with
  | [] => []
  | s :: segs' =>
      match inside with
      | None =>
          s :: paragraphs
                 (if String.eqb (inner s) "p" && existsb closes_paragraph segs'
                  then Some false else None) segs'
      | Some carry =>
          if closes_paragraph s then s :: paragraphs None segs'
          else if is_spaced (inner s) && can_space carry (text_before s)
          then mkTag (text_before s ++ " ") (inner s)
               :: paragraphs (Some false) segs'
          else s :: paragraphs (Some true) segs'
      end
  end.




(** ** Vocabulary of documents of blocks and tags *)

(** A stretch of a document: a [<pre>] block or a tag, with the text
    before it. *)
Inductive piece : Type :=
| Block (s : pre_segment)
| Markup (s : tag_segment).

Definition well_formed_piece (p : piece) : bool :=
  match p with
  | Block s => well_formed_segment s
  | Markup s => well_formed_tag s
  end.

(** What the later passes need of a piece: the text before it is plain,
    and a tag holds no [<] and no [>] and is not the literal [<pre>]. *)
Definition tidy_piece (p : piece) : bool :=
  match p with
  | Block s => plain_text (before s)
  | Markup s =>
      plain_text (text_before s) && plain_text (inner s)
      && Str.lacks ">" (inner s) && negb (String.eqb (inner s) "pre")
  end.

(** The document as written. *)
Fixpoint mixed_document (ps : list piece) (after : string) : string :=
  match ps with
  | [] => after
  | Block s :: ps' =>
      before s ++ indent s ++ "<pre>" ++ content s ++ "</pre>"
      ++ mixed_document ps' after
  | Markup s :: ps' =>
      text_before s ++ "<" ++ inner s ++ ">" ++ mixed_document ps' after
  end.

(** The blocks of a document, in order. *)
Fixpoint blocks_of (ps : list piece) : list pre_segment :=
  match ps with
  | [] => []
  | Block s :: ps' => s :: blocks_of ps'
  | Markup _ :: ps' => blocks_of ps'
  end.

(** The document after the first pass, block number [k] onwards. *)
Fixpoint numbered_mixed (k : nat) (ps : list piece) (after : string)
  : string :=
  match ps with
  | [] => after
  | Block s :: ps' =>
      before s ++ "<pre>" ++ Str.of_nat k ++ "</pre>"
      ++ numbered_mixed (S k) ps' after
  | Markup s :: ps' =>
      text_before s ++ "<" ++ inner s ++ ">" ++ numbered_mixed k ps' after
  end.

(** The document after the second pass, block number [k] and tag number
    [j] onwards. *)
Fixpoint tagged_mixed (k j : nat) (ps : list piece) (after : string)
  : string :=
  match ps with
  | [] => after
  | Block s :: ps' =>
      before s ++ block_placeholder j k ++ tagged_mixed (S k) (S j) ps' after
  | Markup s :: ps' =>
      if is_open (inner s) then
        text_before s ++ attr_placeholder (tag_name (inner s)) j
        ++ tagged_mixed k (S j) ps' after
      else
        text_before s ++ "<" ++ inner s ++ ">" ++ tagged_mixed k j ps' after
  end.

(** The attribute texts the second pass stores: the empty text for the
    [<pre>] of a block. *)
Fixpoint held_mixed (ps : list piece) : list string :=
  match ps with
  | [] => []
  | Block _ :: ps' => "" :: held_mixed ps'
  | Markup s :: ps' =>
      if is_open (inner s)
      then tag_attributes (inner s) :: held_mixed ps'
      else held_mixed ps'
  end.

Definition collapse_piece (p : piece) : piece :=
  match p with
  | Block s => Block (collapse_before s)
  | Markup s => Markup (collapse_text s)
  end.

(** The document after the fifth pass, for pieces whose text is already
    collapsed. *)
Fixpoint filled_mixed (ps : list piece) (after : string) : string :=
  match ps with
  | [] => after
  | Block s :: ps' =>
      before s ++ "<pre>" ++ restored_content s ++ "</pre>"
      ++ filled_mixed ps' after
  | Markup s :: ps' =>
      text_before s ++ "<" ++ inner s ++ ">" ++ filled_mixed ps' after
  end.

(** The document with its blocks restored, before the passes over [<br>],
    [span], [div] and [<p>]. *)
Definition restored_mixed (ps : list piece) (after : string) : string :=
  filled_mixed (map collapse_piece ps) (collapse_newlines after).

(** The tags of a document whose blocks are restored: a block gives its
    [<pre>] and, behind its content, its [</pre>]. *)
Fixpoint tokens (ps : list piece) : list tag_segment :=
  match ps with
  | [] => []
  | Block s :: ps' =>
      mkTag (before s) "pre" :: mkTag (restored_content s) "/pre"
      :: tokens ps'
  | Markup s :: ps' => s :: tokens ps'
  end.

(** The blocks of a document put back between texts. *)
Fixpoint weave (between : list string) (blocks : list pre_segment)
  (after : string) : string :=
  match between, blocks with
  | t :: between', s :: blocks' =>
      t ++ "<pre>" ++ restored_content s ++ "</pre>"
      ++ weave between' blocks' after
  | _, _ => after
  end.

(** The tags of the normal form of a document of blocks and tags whose
    blocks hold no [<], and the text behind the last of them. *)
Definition normal_pieces (ps : list piece) (after : string)
  : list tag_segment * string :=
  let (ks, a) := settle (tokens (map collapse_piece ps))
                   (collapse_newlines after) in
  (paragraphs None ks, a).

Definition normal_mixed (ps : list piece) (after : string) : string :=
  tag_document (fst (normal_pieces ps after)) (snd (normal_pieces ps after)).

(** ** The tree walker on a call stack of limited size

    [parseText] and [parseNode] call themselves once for every level of
    the tree, and [push(...items)] puts its arguments on the call stack.
    Neither is guarded, so a call stack that is used up ends the walk with
    a [RangeError].  The functions below are [parseText], [parseNode] and
    the loop of [parseHtml] once more, with the two limits made explicit:
    [frames] is the number of nested calls of [parseText] and [parseNode]
    the stack still holds (each with room for the calls it makes that do
    not come back to the walk), and [spread_limit] is the number of
    arguments one call of [push] can take. *)

(** What a call comes to: it returns, it throws an error of the walk, or
    the call stack is used up. *)
Inductive outcome (A : Type) : Type :=
| Returns (a : A)
| Throws (e : error)
| Overflows.

Arguments Returns {A} a.
Arguments Throws {A} e.
Arguments Overflows {A}.

Definition outcome_of {A : Type} (r : result A) : outcome A :=
  match r with
  | Ok a => Returns a
  | Throw e => Throws e
  end.

Definition and_then {A B : Type} (o : outcome A) (k : A -> outcome B)
  : outcome B :=
  match o with
  | Returns a => k a
  | Throws e => Throws e
  | Overflows => Overflows
  end.

Module Bounded.

Section Limits.

Variable spread_limit : nat.

(** The arguments of [push(...items)] fit on the stack. *)
Definition spread_fits (items : list value) : bool :=
  Nat.leb (List.length items) spread_limit.

Fixpoint parseText_within (frames : nat) (node : AnyNode) (style : StyleSet)
  : outcome (list value) :=
  match frames with
  | O => Overflows
  | S frames' =>
      match node with
      | Element Tag name attribs children =>
          let style := update_style name style in
          if String.eqb name "a" then
            let textElement :=
              with_style style
                [("type", VStr "link"); ("url", Js.attr "href" attribs)] in
            match children with
            | [] => Throws TypeError
            | Text data :: _ =>
                Returns [VObj (Js.set_field "text" (VStr data) textElement)]
            | _ :: _ => Returns [VObj textElement]
            end
          else
            (fix each (cs : list AnyNode) : outcome (list value) :=
               match cs with
               | [] => Returns []
               | child :: cs' =>
                   and_then (parseText_within frames' child style)
                     (fun ts =>
                        if spread_fits ts then
                          and_then (each cs')
                            (fun rest => Returns (ts ++ rest)%list)
                        else Overflows)
               end) children
      | Text data =>
          Returns
            [VObj (with_style style
                     [("type", VStr "text");
                      ("text", VStr (text_of_data data))])]
      | _ => Returns []
      end
  end.

(** The body of the loop over [node.children], with the arguments of its
    [push]. *)
Definition append_child_within (block childObj : value) : outcome value :=
  if Js.truthy childObj && Js.has "elements" block
     && negb (spread_fits (if Js.isArray childObj then Js.items childObj
                           else [childObj]))
  then Overflows
  else Returns (append_child block childObj).

Fixpoint parseNode_within (frames : nat) (node : AnyNode) : outcome value :=
  match frames with
  | O => Overflows
  | S frames' =>
      match node with
      | Element Tag name attribs children =>
          if name_in inline_names name then
            and_then (parseText_within frames' node [])
              (fun ts => Returns (VArr ts))
          else if name_in heading_names name then Returns (parseHeader node)
          else
            (fix loop (cs : list AnyNode) (block : value) : outcome value :=
               match cs with
               | [] => Returns block
               | child :: cs' =>
                   and_then (parseNode_within frames' child)
                     (fun childObj =>
                        and_then (append_child_within block childObj)
                          (loop cs'))
               end) children (open_block name attribs)
      | Text data =>
          and_then (parseText_within frames' node [])
            (fun ts => Returns (VArr ts))
      | _ => Returns Js.empty
      end
  end.

(** The [forEach] of [parseHtml], each call of [parseNode] on [frames]
    frames. *)
Fixpoint parseBlocks_within (frames : nat) (nodes : list AnyNode)
  : outcome (list value) :=
  match nodes with
  | [] => Returns []
  | node :: rest =>
      and_then (parseNode_within frames node)
        (fun tmp =>
           if Js.isArray tmp && negb (spread_fits (push_result tmp))
           then Overflows
           else
             and_then (parseBlocks_within frames rest)
               (fun more => Returns (push_result tmp ++ more)%list))
  end.

End Limits.

End Bounded.

Import Bounded.

(** The number of levels of a tree, and the number of its nodes. *)
Fixpoint height (node : AnyNode) : nat :=
  match node with
  | Element _ _ _ children =>
      S ((fix highest (cs : list AnyNode) : nat :=
            match cs with
            | [] => 0
            | c :: cs' => Nat.max (height c) (highest cs')
            end) children)
  | CDATA children =>
      S ((fix highest (cs : list AnyNode) : nat :=
            match cs with
            | [] => 0
            | c :: cs' => Nat.max (height c) (highest cs')
            end) children)
  | _ => 1
  end.

Fixpoint size (node : AnyNode) : nat :=
  match node with
  | Element _ _ _ children =>
      S ((fix total (cs : list AnyNode) : nat :=
            match cs with
            | [] => 0
            | c :: cs' => size c + total cs'
            end) children)
  | CDATA children =>
      S ((fix total (cs : list AnyNode) : nat :=
            match cs with
            | [] => 0
            | c :: cs' => size c + total cs'
            end) children)
  | _ => 1
  end.

Definition highest (cs : list AnyNode) : nat :=
  fold_right (fun c h => Nat.max (height c) h) 0 cs.

Definition total (cs : list AnyNode) : nat :=
  fold_right (fun c n => size c + n) 0 cs.

(** The loops of the two functions, on their own. *)
Fixpoint text_of_children_within (spread_limit frames : nat)
  (style : StyleSet) (cs : list AnyNode) : outcome (list value) :=
  match cs with
  | [] => Returns []
  | child :: cs' =>
      and_then (parseText_within spread_limit frames child style)
        (fun ts =>
           if spread_fits spread_limit ts then
             and_then (text_of_children_within spread_limit frames style cs')
               (fun rest => Returns (ts ++ rest)%list)
           else Overflows)
  end.

Fixpoint walk_children_within (spread_limit frames : nat)
  (cs : list AnyNode) (block : value) : outcome value :=
  match cs with
  | [] => Returns block
  | child :: cs' =>
      and_then (parseNode_within spread_limit frames child)
        (fun childObj =>
           and_then (append_child_within spread_limit block childObj)
             (walk_children_within spread_limit frames cs'))
  end.

(** * Properties *)

(** ** Unfolding the recursive functions over the children of a node *)

Lemma parseText_tag (name : string) (attribs : list (string * string))
  (children : list AnyNode) (style : StyleSet) :
  parseText (Element Tag name attribs children) style =
  if String.eqb name "a" then
    match children with
    | [] => Throw TypeError
    | Text data :: _ =>
        Ok [VObj (Js.set_field "text" (VStr data)
                    (link_element (update_style name style) attribs))]
    | _ :: _ => Ok [VObj (link_element (update_style name style) attribs)]
    end
  else text_of_children (update_style name style) children.
Proof.
  cbn [parseText]. destruct (String.eqb name "a"); [reflexivity|].
  induction children as [|c cs IH]; [reflexivity|].
  cbn [text_of_children]. rewrite <- IH. reflexivity.
Qed.

Lemma parseNode_tag (name : string) (attribs : list (string * string))
  (children : list AnyNode) :
  parseNode (Element Tag name attribs children) =
  if name_in inline_names name then
    ts <- parseText (Element Tag name attribs children) [] ;; Ok (VArr ts)
  else if name_in heading_names name then
    Ok (parseHeader (Element Tag name attribs children))
  else walk_children children (open_block name attribs).
Proof.
  cbn [parseNode].
  destruct (name_in inline_names name); [reflexivity|].
  destruct (name_in heading_names name); [reflexivity|].
  generalize (open_block name attribs).
  induction children as [|c cs IH]; intros block; [reflexivity|].
  cbn [walk_children]. destruct (parseNode c) as [v|e]; [|reflexivity].
  cbn [bind]. apply IH.
Qed.

Lemma error_is_TypeError (e : error) : e = TypeError.
Proof. destruct e. reflexivity. Qed.

(** ** Anchors without children *)

Lemma parseText_empty_anchor (attribs : list (string * string))
  (style : StyleSet) :
  parseText (Element Tag "a" attribs []) style = Throw TypeError.
Proof. rewrite parseText_tag. reflexivity. Qed.

Lemma parseNode_empty_anchor (attribs : list (string * string)) :
  parseNode (Element Tag "a" attribs []) = Throw TypeError.
Proof. rewrite parseNode_tag. cbn. reflexivity. Qed.

(** C1 (defect): the conversion throws.  An anchor without children among
    the children of the body makes the walk over the body throw, whatever
    the block assembler does; and the input made of [<], a newline and
    [pre>5</pre>] makes the normalizer itself throw, whatever the three
    collaborators do. *)
Theorem parseHtml_can_throw :
  (forall linearizeLists parseDocument blockBuilder html html' attribs,
      compressHTML html = Ok html' ->
      parseDocument (linearizeLists html') = [Element Tag "a" attribs []] ->
      parseHtml linearizeLists parseDocument blockBuilder html
      = Throw TypeError)
  /\ compressHTML "<a></a>" = Ok "<a></a>"
  /\ (forall linearizeLists parseDocument blockBuilder,
         parseHtml linearizeLists parseDocument blockBuilder
           ("<" ++ Str.nl ++ "pre>5</pre>") = Throw TypeError).
Proof.
  split; [|split].
  - intros lin parse build html html' attribs Hc Hd.
    unfold parseHtml. rewrite Hc. cbn [bind]. unfold convert_normalized.
    rewrite Hd.
    change (body_children [Element Tag "a" attribs []])
      with [Element Tag "a" attribs []].
    cbn [parseBlocks]. rewrite parseNode_empty_anchor. reflexivity.
  - vm_compute. reflexivity.
  - intros lin parse build. unfold parseHtml.
    replace (compressHTML ("<" ++ Str.nl ++ "pre>5</pre>"))
      with (@Throw string TypeError) by (vm_compute; reflexivity).
    reflexivity.
Qed.

Lemma parseHtml_can_throw_witness :
  parseHtml (fun s => s) (fun _ => [Element Tag "a" [] []])
    (fun blocks => VArr blocks) "<a></a>" = Throw TypeError.
Proof.
  apply (proj1 parseHtml_can_throw (fun s => s)
           (fun _ => [Element Tag "a" [] []]) (fun blocks => VArr blocks)
           "<a></a>" "<a></a>" []).
  - vm_compute. reflexivity.
  - reflexivity.
Defined.

(** ** Tags without a case in [parseNode] *)

Lemma name_in_cons (x : string) (names : list string) (name : string) :
  name_in (x :: names) name = String.eqb name x || name_in names name.
Proof. reflexivity. Qed.

Lemma open_block_unrecognized (name : string)
  (attribs : list (string * string)) :
  name_in block_names name = false -> open_block name attribs = Js.empty.
Proof.
  unfold block_names. rewrite !name_in_cons. intros H.
  repeat (apply orb_false_elim in H; destruct H as [? H]).
  unfold open_block.
  repeat match goal with E : String.eqb name _ = false |- _ =>
    rewrite E; clear E end.
  reflexivity.
Qed.

Lemma append_child_empty (childObj : value) :
  append_child Js.empty childObj = Js.empty.
Proof.
  unfold append_child. cbn [Js.has Js.empty lookup].
  rewrite andb_false_r. reflexivity.
Qed.

Lemma walk_children_empty (children : list AnyNode) :
  walk_children children Js.empty =
  if forallb (fun c => is_ok (parseNode c)) children
  then Ok Js.empty else Throw TypeError.
Proof.
  induction children as [|c cs IH]; [reflexivity|].
  cbn [walk_children forallb]. destruct (parseNode c) as [v|e]; cbn [bind is_ok].
  - rewrite append_child_empty. exact IH.
  - rewrite (error_is_TypeError e). reflexivity.
Qed.

(** C3 (as amended): a tag whose name has no case in [parseNode] still has
    each of its children parsed, but their values are dropped: the result is
    the empty object whether or not there are children, unless parsing a
    child throws. *)
Theorem unrecognized_tag_is_empty_object :
  forall (name : string) (attribs : list (string * string))
         (children : list AnyNode),
    recognized name = false ->
    parseNode (Element Tag name attribs children) =
    if forallb (fun c => is_ok (parseNode c)) children
    then Ok Js.empty else Throw TypeError.
Proof.
  intros name attribs children H. unfold recognized in H.
  apply orb_false_elim in H. destruct H as [H Hh].
  apply orb_false_elim in H. destruct H as [Hb Hi].
  rewrite parseNode_tag, Hi, Hh, (open_block_unrecognized _ _ Hb).
  apply walk_children_empty.
Qed.

Lemma unrecognized_tag_is_empty_object_witness :
  parseNode (Element Tag "section" [] [Text "hi"]) = Ok Js.empty.
Proof.
  apply (unrecognized_tag_is_empty_object "section" [] [Text "hi"]).
  reflexivity.
Defined.

(** C3 (counterexample): a [section] tag with a text child yields the empty
    object, although its child alone yields a text element. *)
Lemma unrecognized_tag_drops_children :
  recognized "section" = false
  /\ parseNode (Text "hi")
     = Ok (VArr [VObj [("type", VStr "text"); ("text", VStr "hi")]])
  /\ parseNode (Element Tag "section" [] [Text "hi"]) = Ok (VObj []).
Proof. repeat split; vm_compute; reflexivity. Qed.

(** ** Headings *)

Lemma parseNode_heading (level : string) (attribs : list (string * string))
  (children : list AnyNode) :
  In level heading_names ->
  parseNode (Element Tag level attribs children)
  = Ok (parseHeader (Element Tag level attribs children)).
Proof.
  intros H. rewrite parseNode_tag.
  cbn [heading_names In] in H.
  repeat (destruct H as [<-|H]; [reflexivity|]). destruct H.
Qed.

Lemma compressHTML_heading (level : string) :
  In level heading_names ->
  compressHTML (heading_html level "Title")
  = Ok (heading_html level "Title").
Proof.
  intros H. cbn [heading_names In] in H.
  repeat (destruct H as [<-|H]; [vm_compute; reflexivity|]). destruct H.
Qed.

(** C8: [parseHeader] answers the header block of the data of the first
    child when that child is a text node with data, and the empty object
    in every other case; and for each of [h1] to [h6] the source
    [<hN>Title</hN>] is left as it is by the normalizer and its element
    becomes the single header block of [Title], which is the output of
    [parseHtml] when the list linearizer leaves the source alone, the HTML
    parser answers that element and the block assembler answers the list it
    is given. *)
Theorem header_contract :
  (forall node data rest,
      children_of node = Some (Text data :: rest) -> data <> "" ->
      parseHeader node = header_block data)
  /\ (forall node,
         (forall data rest,
             children_of node = Some (Text data :: rest) -> data = "") ->
         parseHeader node = Js.empty)
  /\ (forall level attribs children,
         In level heading_names ->
         parseNode (Element Tag level attribs children)
         = Ok (parseHeader (Element Tag level attribs children)))
  /\ (forall level linearizeLists parseDocument blockBuilder,
         In level heading_names ->
         linearizeLists (heading_html level "Title")
         = heading_html level "Title" ->
         parseDocument (heading_html level "Title")
         = [Element Tag level [] [Text "Title"]] ->
         blockBuilder [header_block "Title"]
         = VArr [header_block "Title"] ->
         parseHtml linearizeLists parseDocument blockBuilder
           (heading_html level "Title")
         = Ok (VArr [header_block "Title"])).
Proof.
  split; [|split; [|split]].
  - intros node data rest Hc Hd. unfold parseHeader. rewrite Hc.
    destruct (String.eqb_spec data ""); [contradiction|reflexivity].
  - intros node H. unfold parseHeader.
    destruct (children_of node) as [[|[data| | | |] rest]|] eqn:E;
      try reflexivity.
    rewrite (H data rest eq_refl). reflexivity.
  - intros level attribs children H. apply parseNode_heading, H.
  - intros level lin parse build H Hl Hp Hb.
    unfold parseHtml. rewrite (compressHTML_heading level H). cbn [bind].
    unfold convert_normalized. rewrite Hl, Hp.
    assert (Hbody : body_children [Element Tag level [] [Text "Title"]]
                    = [Element Tag level [] [Text "Title"]]).
    { cbn [heading_names In] in H.
      repeat (destruct H as [<-|H]; [reflexivity|]). destruct H. }
    rewrite Hbody. cbn [parseBlocks].
    rewrite (parseNode_heading level [] [Text "Title"] H).
    cbn [bind]. change (parseHeader (Element Tag level [] [Text "Title"]))
      with (header_block "Title").
    change (push_result (header_block "Title")) with [header_block "Title"].
    change ([header_block "Title"] ++ [])%list with [header_block "Title"].
    rewrite Hb. reflexivity.
Qed.

Lemma header_contract_witness :
  parseHeader (Element Tag "h2" [] [Text "Title"]) = header_block "Title"
  /\ parseHeader (Element Tag "h3" [] [Element Tag "b" [] [Text "x"]])
     = Js.empty
  /\ parseHtml (fun s => s)
       (fun s => if String.eqb s "<h2>Title</h2>"
                 then [Element Tag "h2" [] [Text "Title"]] else [])
       (fun blocks => VArr blocks) "<h2>Title</h2>"
     = Ok (VArr [header_block "Title"]).
Proof.
  split; [|split].
  - apply (proj1 header_contract (Element Tag "h2" [] [Text "Title"])
             "Title" []); [reflexivity|discriminate].
  - apply (proj1 (proj2 header_contract)
             (Element Tag "h3" [] [Element Tag "b" [] [Text "x"]])).
    intros data rest H. discriminate H.
  - apply (proj2 (proj2 (proj2 header_contract)) "h2" (fun s => s)
             (fun s => if String.eqb s "<h2>Title</h2>"
                       then [Element Tag "h2" [] [Text "Title"]] else [])
             (fun blocks => VArr blocks)).
    + cbn. tauto.
    + reflexivity.
    + reflexivity.
    + reflexivity.
Defined.

(** ** Nested style tags *)

Lemma parseText_text (data : string) (style : StyleSet) :
  parseText (Text data) style = Ok [text_element (text_of_data data) style].
Proof. reflexivity. Qed.

Lemma get_style_object (key : string) (style : StyleSet) :
  Js.get key (style_object style)
  = match lookup key style with
    | Some b => VBool b
    | None => VUndefined
    end.
Proof.
  unfold style_object. cbn [Js.get].
  induction style as [|[k b] style IH]; [reflexivity|].
  cbn [map lookup fst snd]. destruct (String.eqb k key); [reflexivity|].
  exact IH.
Qed.

(** C5: a text leaf inside a bold tag ([b] or [strong]) and an italic tag
    ([i] or [em]) becomes one text element whose style has [bold] and
    [italic] set to [true], whichever of the two tags is the outer one; the
    two style objects have the same value under every key, and the text is
    the same. *)
Theorem nested_bold_italic_any_order :
  forall (bold italic data : string) (a1 a2 : list (string * string)),
    In bold ["b"; "strong"] -> In italic ["i"; "em"] ->
    exists e1 e2,
      parseNode (Element Tag bold a1 [Element Tag italic a2 [Text data]])
      = Ok (VArr [e1])
      /\ parseNode (Element Tag italic a2 [Element Tag bold a1 [Text data]])
         = Ok (VArr [e2])
      /\ Js.get "bold" (Js.get "style" e1) = VBool true
      /\ Js.get "italic" (Js.get "style" e1) = VBool true
      /\ Js.get "bold" (Js.get "style" e2) = VBool true
      /\ Js.get "italic" (Js.get "style" e2) = VBool true
      /\ (forall key,
             Js.get key (Js.get "style" e1) = Js.get key (Js.get "style" e2))
      /\ Js.get "type" e1 = VStr "text"
      /\ Js.get "type" e2 = VStr "text"
      /\ Js.get "text" e1 = Js.get "text" e2.
Proof.
  intros bold italic data a1 a2 Hb Hi.
  exists (text_element (text_of_data data) [("bold", true); ("italic", true)]),
         (text_element (text_of_data data) [("italic", true); ("bold", true)]).
  cbn [In] in Hb, Hi.
  assert (Hkeys : forall key,
             Js.get key (Js.get "style"
               (text_element (text_of_data data)
                  [("bold", true); ("italic", true)]))
             = Js.get key (Js.get "style"
                 (text_element (text_of_data data)
                    [("italic", true); ("bold", true)]))).
  { intros key.
    change (Js.get key (style_object [("bold", true); ("italic", true)])
            = Js.get key (style_object [("italic", true); ("bold", true)])).
    rewrite !get_style_object. cbn [lookup].
    destruct (String.eqb_spec "bold" key) as [<-|]; [reflexivity|].
    destruct (String.eqb "italic" key); reflexivity. }
  destruct Hb as [<-|[<-|[]]]; destruct Hi as [<-|[<-|[]]];
    (split; [reflexivity|]); (split; [reflexivity|]);
    repeat (split; [reflexivity|]); (split; [exact Hkeys|]);
    repeat split; reflexivity.
Qed.

Lemma nested_bold_italic_any_order_witness :
  exists e1 e2,
    parseNode (Element Tag "b" [] [Element Tag "i" [] [Text "x"]])
    = Ok (VArr [e1])
    /\ parseNode (Element Tag "i" [] [Element Tag "b" [] [Text "x"]])
       = Ok (VArr [e2])
    /\ Js.get "bold" (Js.get "style" e1) = VBool true
    /\ Js.get "italic" (Js.get "style" e1) = VBool true
    /\ Js.get "bold" (Js.get "style" e2) = VBool true
    /\ Js.get "italic" (Js.get "style" e2) = VBool true
    /\ (forall key,
           Js.get key (Js.get "style" e1) = Js.get key (Js.get "style" e2))
    /\ Js.get "type" e1 = VStr "text"
    /\ Js.get "type" e2 = VStr "text"
    /\ Js.get "text" e1 = Js.get "text" e2.
Proof.
  apply (nested_bold_italic_any_order "b" "i" "x" [] []); cbn; tauto.
Defined.

(** ** What reaches the list of blocks *)

Lemma parseText_inline (node : AnyNode) :
  forall style ts,
    parseText node style = Ok ts -> Forall inline_element ts.
Proof.
  induction node as [data|data|name data|children IH|type name attribs children IH]
    using AnyNode_tree_ind; intros style ts H.
  - rewrite parseText_text in H. injection H as <-.
    constructor; [constructor|constructor].
  - injection H as <-. constructor.
  - injection H as <-. constructor.
  - injection H as <-. constructor.
  - destruct type; try (injection H as <-; constructor).
    rewrite parseText_tag in H. destruct (String.eqb name "a").
    + destruct children as [|[data| | | |] rest]; try discriminate H;
        injection H as <-; constructor; constructor.
    + revert ts H. generalize (update_style name style). intros st.
      induction IH as [|c cs Hc _ IHcs]; intros ts H.
      * injection H as <-. constructor.
      * cbn [text_of_children] in H.
        destruct (parseText c st) as [t1|] eqn:E1; [|discriminate H].
        cbn [bind] in H.
        destruct (text_of_children st cs) as [t2|] eqn:E2; [|discriminate H].
        injection H as <-. apply Forall_app. split.
        -- exact (Hc st t1 E1).
        -- exact (IHcs t2 eq_refl).
Qed.

Lemma forallb_set_field (f : value -> bool) (key : string) (x : value)
  (fields : list (string * value)) :
  f x = true ->
  forallb (fun kv => match kv with (_, y) => f y end) fields = true ->
  forallb (fun kv => match kv with (_, y) => f y end)
    (Js.set_field key x fields) = true.
Proof.
  intros Hx. induction fields as [|[k y] fields IH]; cbn [Js.set_field forallb].
  - intros _. rewrite Hx. reflexivity.
  - intros H. apply andb_prop in H. destruct H as [Hy Hf].
    destruct (String.eqb k key); cbn [forallb].
    + rewrite Hx. exact Hf.
    + rewrite Hy. exact (IH Hf).
Qed.

Lemma no_empty_items_style_object (style : StyleSet) :
  no_empty_items (style_object style) = true.
Proof.
  unfold style_object. cbn [no_empty_items].
  induction style as [|[k b] style IH]; [reflexivity|exact IH].
Qed.

Lemma no_empty_items_with_style (style : StyleSet)
  (fields : list (string * value)) :
  no_empty_items (VObj fields) = true ->
  no_empty_items (VObj (with_style style fields)) = true.
Proof.
  intros H. destruct style as [|kb style]; [exact H|].
  cbn [with_style no_empty_items].
  apply forallb_set_field; [apply no_empty_items_style_object|exact H].
Qed.

Lemma set_field_not_nil (key : string) (x : value)
  (fields : list (string * value)) :
  Js.set_field key x fields <> [].
Proof.
  destruct fields as [|[k y] fields]; cbn [Js.set_field]; [discriminate|].
  destruct (String.eqb k key); discriminate.
Qed.

Lemma with_style_not_nil (style : StyleSet) (fields : list (string * value)) :
  fields <> [] -> with_style style fields <> [].
Proof.
  intros H. destruct style; [exact H|apply set_field_not_nil].
Qed.

Lemma is_empty_object_false (fields : list (string * value)) :
  fields <> [] -> Js.is_empty_object (VObj fields) = false.
Proof. destruct fields; [contradiction|reflexivity]. Qed.

Lemma inline_element_not_empty (e : value) :
  inline_element e -> Js.is_empty_object e = false.
Proof.
  intros [data style|style attribs|data style attribs];
    apply is_empty_object_false.
  - apply with_style_not_nil. discriminate.
  - apply with_style_not_nil. discriminate.
  - apply set_field_not_nil.
Qed.

Lemma inline_element_no_empty_items (e : value) :
  inline_element e -> no_empty_items e = true.
Proof.
  intros [data style|style attribs|data style attribs].
  - apply no_empty_items_with_style. reflexivity.
  - apply no_empty_items_with_style. cbn. unfold Js.attr.
    destruct (lookup "href" attribs); reflexivity.
  - cbn [no_empty_items]. apply forallb_set_field; [reflexivity|].
    apply (no_empty_items_with_style style
             [("type", VStr "link"); ("url", Js.attr "href" attribs)]).
    cbn. unfold Js.attr. destruct (lookup "href" attribs); reflexivity.
Qed.

Lemma no_empty_items_array (ts : list value) :
  Forall inline_element ts -> no_empty_items (VArr ts) = true.
Proof.
  intros H. cbn [no_empty_items]. apply forallb_forall. intros x Hx.
  rewrite Forall_forall in H. specialize (H x Hx).
  rewrite (inline_element_not_empty x H), (inline_element_no_empty_items x H).
  reflexivity.
Qed.

Lemma has_keys_not_empty (x : value) :
  has_keys x = true -> Js.is_empty_object x = false.
Proof. destruct x as [| | | | | |[|]]; try reflexivity. discriminate. Qed.

Lemma no_empty_items_elements (block : value) :
  no_empty_items block = true ->
  no_empty_items (VArr (Js.items (Js.get "elements" block))) = true.
Proof.
  destruct block as [| | | | | |fields]; try reflexivity.
  cbn [no_empty_items Js.get]. intros H.
  induction fields as [|[k y] fields IH]; [reflexivity|].
  cbn [forallb] in H. apply andb_prop in H. destruct H as [Hy Hf].
  cbn [lookup]. destruct (String.eqb k "elements").
  - destruct y; try reflexivity. exact Hy.
  - exact (IH Hf).
Qed.

Lemma no_empty_items_parseInt (v : value) :
  no_empty_items (Js.parseInt v) = true.
Proof.
  unfold Js.parseInt. destruct v; try reflexivity.
  repeat match goal with
         | |- context [match ?x with _ => _ end] => destruct x
         end; reflexivity.
Qed.

Lemma no_empty_items_open_block (name : string)
  (attribs : list (string * string)) :
  no_empty_items (open_block name attribs) = true.
Proof.
  unfold open_block, container.
  destruct (String.eqb name "ul" || String.eqb name "ol").
  { cbn [no_empty_items forallb].
    rewrite no_empty_items_parseInt. reflexivity. }
  unfold Js.attr.
  repeat match goal with
         | |- context [if ?b then _ else _] => destruct b
         | |- context [match ?x with _ => _ end] => destruct x
         end; reflexivity.
Qed.

Lemma no_empty_items_parseHeader (node : AnyNode) :
  no_empty_items (parseHeader node) = true.
Proof.
  unfold parseHeader.
  destruct (children_of node) as [[|[data| | | |] rest]|]; try reflexivity.
  destruct (String.eqb data ""); reflexivity.
Qed.

Lemma no_empty_items_append_child (block childObj : value) :
  no_empty_items block = true -> no_empty_items childObj = true ->
  no_empty_items (append_child block childObj) = true.
Proof.
  intros Hb Hc. unfold append_child.
  destruct (Js.truthy childObj && Js.has "elements" block); [|exact Hb].
  destruct block as [| | | | | |fields]; try exact Hb.
  cbn [Js.set no_empty_items]. apply forallb_set_field; [|exact Hb].
  cbn [no_empty_items]. apply forallb_forall. intros x Hx.
  apply filter_In in Hx. destruct Hx as [Hx Hk].
  rewrite (has_keys_not_empty x Hk). cbn [negb andb].
  apply in_app_or in Hx. destruct Hx as [Hx|Hx].
  - pose proof (no_empty_items_elements (VObj fields) Hb) as He.
    cbn [no_empty_items] in He. rewrite forallb_forall in He.
    specialize (He x Hx). apply andb_prop in He. apply He.
  - destruct childObj as [| | | | |items|cf]; cbn [Js.isArray Js.items] in Hx;
      try (destruct Hx as [<-|[]]; try reflexivity; exact Hc).
    cbn [no_empty_items] in Hc. rewrite forallb_forall in Hc.
    specialize (Hc x Hx). apply andb_prop in Hc. apply Hc.
Qed.

Lemma parseNode_no_empty_items (node : AnyNode) :
  forall v, parseNode node = Ok v -> no_empty_items v = true.
Proof.
  induction node as [data|data|name data|children IH|type name attribs children IH]
    using AnyNode_tree_ind; intros v H.
  - cbn [parseNode] in H.
    destruct (parseText (Text data) []) as [ts|] eqn:E; [|discriminate H].
    injection H as <-. apply no_empty_items_array.
    exact (parseText_inline _ _ _ E).
  - injection H as <-. reflexivity.
  - injection H as <-. reflexivity.
  - injection H as <-. reflexivity.
  - destruct type; try (injection H as <-; reflexivity).
    rewrite parseNode_tag in H.
    destruct (name_in inline_names name).
    + destruct (parseText (Element Tag name attribs children) [])
        as [ts|] eqn:E; [|discriminate H].
      injection H as <-. apply no_empty_items_array.
      exact (parseText_inline _ _ _ E).
    + destruct (name_in heading_names name).
      * injection H as <-. apply no_empty_items_parseHeader.
      * pose proof (no_empty_items_open_block name attribs) as Hb.
        revert v H Hb. generalize (open_block name attribs).
        induction IH as [|c cs Hc _ IHcs]; intros block v H Hb.
        -- injection H as <-. exact Hb.
        -- cbn [walk_children] in H.
           destruct (parseNode c) as [cv|] eqn:E; [|discriminate H].
           cbn [bind] in H. apply (IHcs _ _ H).
           apply no_empty_items_append_child; [exact Hb|exact (Hc cv eq_refl)].
Qed.

(** A list-valued result of [parseNode] is a result of [parseText]. *)
Lemma walk_children_not_array (cs : list AnyNode) :
  forall block v,
    walk_children cs block = Ok v -> Js.isArray block = false ->
    Js.isArray v = false.
Proof.
  induction cs as [|c cs IH]; intros block v H Hb.
  - injection H as <-. exact Hb.
  - cbn [walk_children] in H.
    destruct (parseNode c) as [cv|]; [|discriminate H]. cbn [bind] in H.
    apply (IH _ _ H). unfold append_child.
    destruct (Js.truthy cv && Js.has "elements" block); [|exact Hb].
    destruct block; first [exact Hb|reflexivity].
Qed.

Lemma open_block_not_array (name : string) (attribs : list (string * string)) :
  Js.isArray (open_block name attribs) = false.
Proof.
  unfold open_block, container, Js.set.
  repeat match goal with
         | |- context [if ?b then _ else _] => destruct b
         end; reflexivity.
Qed.

Lemma parseNode_array (node : AnyNode) (ts : list value) :
  parseNode node = Ok (VArr ts) -> Forall inline_element ts.
Proof.
  destruct node as [data|data|name data|children|type name attribs children];
    intros H; try discriminate H.
  - cbn [parseNode] in H.
    destruct (parseText (Text data) []) as [ts'|] eqn:E; [|discriminate H].
    injection H as <-. exact (parseText_inline _ _ _ E).
  - destruct type; try discriminate H. rewrite parseNode_tag in H.
    destruct (name_in inline_names name).
    + destruct (parseText (Element Tag name attribs children) [])
        as [ts'|] eqn:E; [|discriminate H].
      injection H as <-. exact (parseText_inline _ _ _ E).
    + destruct (name_in heading_names name).
      * injection H as H. unfold parseHeader in H.
        destruct (children_of (Element Tag name attribs children))
          as [[|[data| | | |] rest]|]; try discriminate H.
        destruct (String.eqb data ""); discriminate H.
      * apply walk_children_not_array in H; [discriminate H|].
        apply open_block_not_array.
Qed.

Lemma line_test_false (text : string) :
  line_test text = false <-> newline_then_space text.
Proof.
  unfold line_test, newline_then_space. split.
  - destruct text as [|c rest]; [discriminate|]. intros H.
    apply negb_false_iff, andb_prop in H. destruct H as [Hc Hr].
    apply Ascii.eqb_eq in Hc. subst c. exists rest. split; [reflexivity|exact Hr].
  - intros [ws [-> Hw]]. rewrite Ascii.eqb_refl, Hw. reflexivity.
Qed.

Lemma lookup_set_field_same {key : string} (x : value)
  (fields : list (string * value)) :
  lookup key (Js.set_field key x fields) = Some x.
Proof.
  induction fields as [|[k y] fields IH]; cbn [Js.set_field lookup].
  - rewrite String.eqb_refl. reflexivity.
  - destruct (String.eqb k key) eqn:E; cbn [lookup]; rewrite E;
      [reflexivity|exact IH].
Qed.

Lemma lookup_set_field_other (key key' : string) (x : value)
  (fields : list (string * value)) :
  String.eqb key' key = false ->
  lookup key (Js.set_field key' x fields) = lookup key fields.
Proof.
  intros Hk. induction fields as [|[k y] fields IH]; cbn [Js.set_field lookup].
  - rewrite Hk. reflexivity.
  - destruct (String.eqb k key') eqn:E; cbn [lookup].
    + apply String.eqb_eq in E. subst k. rewrite Hk. reflexivity.
    + rewrite IH. reflexivity.
Qed.

Lemma lookup_with_style (key : string) (style : StyleSet)
  (fields : list (string * value)) :
  String.eqb "style" key = false ->
  lookup key (with_style style fields) = lookup key fields.
Proof.
  intros Hk. destruct style; [reflexivity|].
  apply lookup_set_field_other, Hk.
Qed.

Lemma get_text_text_element (text : string) (style : StyleSet) :
  Js.get "text" (text_element text style) = VStr text.
Proof.
  unfold text_element. cbn [Js.get]. rewrite lookup_with_style; reflexivity.
Qed.

Lemma inline_element_text (b : value) :
  inline_element b ->
  Js.get "text" b = VUndefined \/ exists text, Js.get "text" b = VStr text.
Proof.
  intros [data style|style attribs|data style attribs].
  - right. exists (text_of_data data). apply get_text_text_element.
  - left. unfold link_element. cbn [Js.get].
    rewrite lookup_with_style; reflexivity.
  - right. exists data. cbn [Js.get]. rewrite lookup_set_field_same.
    reflexivity.
Qed.

Lemma keep_text_inline (b : value) :
  inline_element b ->
  keep_text b = true <->
  exists text,
    Js.get "text" b = VStr text /\ text <> "" /\ ~ newline_then_space text.
Proof.
  intros Hb. unfold keep_text. split.
  - destruct (inline_element_text b Hb) as [E|[text E]]; rewrite E;
      [discriminate|].
    intros H. apply andb_prop in H. destruct H as [Hn Hl].
    exists text. split; [reflexivity|]. split.
    + intros ->. discriminate Hn.
    + intros Hs. apply line_test_false in Hs. rewrite Hs in Hl. discriminate.
  - intros [text [E [Hn Hs]]]. rewrite E.
    destruct (String.eqb_spec text ""); [contradiction|]. cbn [negb andb].
    destruct (line_test text) eqn:El; [reflexivity|].
    apply line_test_false in El. contradiction.
Qed.

Lemma forallb_space_newline (rest : string) :
  Str.forallb Char.is_space (String Char.lf rest)
  = Str.forallb Char.is_space rest.
Proof. reflexivity. Qed.

Lemma parseBlocks_text (data : string) :
  parseBlocks [Text data] =
  Ok (if Str.forallb Char.is_space (replace_all match_br data) then []
      else [text_element (replace_all match_br data) []]).
Proof.
  cbn [parseBlocks parseNode]. rewrite parseText_text. cbn [bind].
  unfold push_result. cbn [Js.isArray Js.items filter].
  unfold keep_text. rewrite get_text_text_element.
  unfold text_of_data, blank_if_space.
  destruct (Str.forallb Char.is_space (replace_all match_br data)) eqn:E.
  - reflexivity.
  - destruct (replace_all match_br data) as [|c rest] eqn:Er;
      [discriminate E|].
    cbn [String.eqb negb andb line_test].
    destruct (Ascii.eqb_spec c Char.lf) as [->|].
    + rewrite forallb_space_newline in E. rewrite E. reflexivity.
    + reflexivity.
Qed.

(** C2 (as amended): in the list of blocks handed to the block assembler
    no array at any depth (the [elements] of a block among them) holds an
    empty object.  Of a list-valued result of [parseNode] the elements kept
    are exactly those whose [text] is a non-empty string that is not a
    newline followed by white space only, and none of its elements is an
    empty object.  A result that is not a list is pushed as it is.  A text
    node at the top level is dropped exactly when its text is empty or
    white space only. *)
Theorem blocks_filtering :
  (forall nodes blocks,
      parseBlocks nodes = Ok blocks ->
      Forall (fun b => no_empty_items b = true) blocks)
  /\ (forall node ts b,
         parseNode node = Ok (VArr ts) ->
         (In b (push_result (VArr ts)) <->
          In b ts
          /\ exists text,
               Js.get "text" b = VStr text /\ text <> ""
               /\ ~ newline_then_space text))
  /\ (forall node ts b,
         parseNode node = Ok (VArr ts) -> In b ts ->
         Js.is_empty_object b = false)
  /\ (forall v, Js.isArray v = false -> push_result v = [v])
  /\ (forall data,
         parseBlocks [Text data] =
         Ok (if Str.forallb Char.is_space (replace_all match_br data) then []
             else [text_element (replace_all match_br data) []])).
Proof.
  split; [|split; [|split; [|split]]].
  - induction nodes as [|node rest IH]; intros blocks H.
    + injection H as <-. constructor.
    + cbn [parseBlocks] in H.
      destruct (parseNode node) as [tmp|] eqn:E; [|discriminate H].
      cbn [bind] in H.
      destruct (parseBlocks rest) as [more|]; [|discriminate H].
      injection H as <-. apply Forall_app. split; [|exact (IH more eq_refl)].
      pose proof (parseNode_no_empty_items node tmp E) as Ht.
      unfold push_result. destruct tmp as [| | | | |items|fields];
        cbn [Js.isArray Js.items]; try (constructor; [exact Ht|constructor]).
      apply Forall_forall. intros b Hb. apply filter_In in Hb.
      cbn [no_empty_items] in Ht. rewrite forallb_forall in Ht.
      destruct Hb as [Hb _]. specialize (Ht b Hb).
      apply andb_prop in Ht. apply Ht.
  - intros node ts b H. unfold push_result. cbn [Js.isArray Js.items].
    rewrite filter_In. pose proof (parseNode_array node ts H) as Hi.
    rewrite Forall_forall in Hi. split.
    + intros [Hin Hk]. split; [exact Hin|].
      apply (keep_text_inline b (Hi b Hin)), Hk.
    + intros [Hin Hk]. split; [exact Hin|].
      apply (keep_text_inline b (Hi b Hin)), Hk.
  - intros node ts b H Hin. pose proof (parseNode_array node ts H) as Hi.
    rewrite Forall_forall in Hi. apply inline_element_not_empty, Hi, Hin.
  - intros v Hv. unfold push_result. rewrite Hv. reflexivity.
  - apply parseBlocks_text.
Qed.

Lemma blocks_filtering_witness :
  Forall (fun b => no_empty_items b = true)
    [VObj [("type", VStr "rich_text_section");
           ("elements",
            VArr [VObj [("type", VStr "text"); ("text", VStr "x")]])]]
  /\ (In (VObj [("type", VStr "text"); ("text", VStr "x")])
        (push_result (VArr [VObj [("type", VStr "text"); ("text", VStr "x")]]))
      <-> In (VObj [("type", VStr "text"); ("text", VStr "x")])
            [VObj [("type", VStr "text"); ("text", VStr "x")]]
          /\ exists text,
               Js.get "text" (VObj [("type", VStr "text"); ("text", VStr "x")])
               = VStr text
               /\ text <> "" /\ ~ newline_then_space text)
  /\ Js.is_empty_object (VObj [("type", VStr "text"); ("text", VStr "x")])
     = false
  /\ push_result (VObj []) = [VObj []].
Proof.
  split; [|split; [|split]].
  - apply (proj1 blocks_filtering
             [Element Tag "p" [] [Text "x"; Element Tag "h1" [] []]]).
    reflexivity.
  - apply (proj1 (proj2 blocks_filtering) (Text "x")). reflexivity.
  - apply (proj1 (proj2 (proj2 blocks_filtering)) (Text "x")
             [VObj [("type", VStr "text"); ("text", VStr "x")]]).
    + reflexivity.
    + left. reflexivity.
  - apply (proj1 (proj2 (proj2 (proj2 blocks_filtering)))). reflexivity.
Defined.

(** C2 (counterexample): an empty heading at the top level puts the empty
    object into the list of blocks; and the list-valued result of an anchor
    whose text is one space keeps its link, whose text is white space
    only. *)
Lemma empty_object_and_blank_link_reach_blocks :
  parseBlocks [Element Tag "h1" [] []] = Ok [VObj []]
  /\ parseNode (Element Tag "a" [("href", "u")] [Text " "])
     = Ok (VArr [VObj [("type", VStr "link"); ("url", VStr "u");
                       ("text", VStr " ")]])
  /\ parseBlocks [Element Tag "a" [("href", "u")] [Text " "]]
     = Ok [VObj [("type", VStr "link"); ("url", VStr "u");
                 ("text", VStr " ")]]
  /\ Str.forallb Char.is_space " " = true.
Proof. repeat split; vm_compute; reflexivity. Qed.

(** ** The scanner *)

Section Gsub_facts.

Context {St : Type}.
Variable m : St -> string -> option (string * nat * St).

Lemma gsub_skip (a s : string) (st : St) :
  gsub m (String.length a) st (a ++ s) = gsub m 0 st s.
Proof.
  induction a as [|c a IH]; [destruct s; reflexivity|].
  cbn [String.length append gsub]. exact IH.
Qed.

Lemma gsub_match (c : ascii) (s out : string) (n : nat) (st st' : St) :
  m st (String c s) = Some (out, S n, st') ->
  gsub m 0 st (String c s)
  = (out ++ fst (gsub m n st' s), snd (gsub m n st' s)).
Proof.
  intros H. cbn [gsub]. rewrite H. destruct (gsub m n st' s). reflexivity.
Qed.

Lemma gsub_no_match (c : ascii) (s : string) (st : St) :
  m st (String c s) = None ->
  gsub m 0 st (String c s)
  = (String c (fst (gsub m 0 st s)), snd (gsub m 0 st s)).
Proof.
  intros H. cbn [gsub]. rewrite H. destruct (gsub m 0 st s). reflexivity.
Qed.

(** A stretch of text on which the pattern matches nowhere is copied. *)
Lemma gsub_copy (a s : string) (st : St) :
  (forall c a1 a2, a = a1 ++ String c a2 ->
                   m st (String c (a2 ++ s)) = None) ->
  gsub m 0 st (a ++ s)
  = (a ++ fst (gsub m 0 st s), snd (gsub m 0 st s)).
Proof.
  induction a as [|c a IH]; intros H.
  - cbn [append]. destruct (gsub m 0 st s). reflexivity.
  - cbn [append]. rewrite gsub_no_match by (apply (H c "" a); reflexivity).
    rewrite IH; [reflexivity|].
    intros c' a1 a2 E. apply (H c' (String c a1) a2). rewrite E. reflexivity.
Qed.

End Gsub_facts.

Lemma replace_all_no_match (m : string -> option (string * nat))
  (c : ascii) (s : string) :
  m (String c s) = None ->
  replace_all m (String c s) = String c (replace_all m s).
Proof.
  intros H. unfold replace_all. rewrite gsub_no_match; [reflexivity|].
  unfold pure_matcher. rewrite H. reflexivity.
Qed.

Lemma replace_all_match (m : string -> option (string * nat))
  (a s out : string) (c : ascii) :
  m (String c (a ++ s)) = Some (out, S (String.length a)) ->
  replace_all m (String c (a ++ s)) = out ++ replace_all m s.
Proof.
  intros H. unfold replace_all.
  rewrite (gsub_match _ c (a ++ s) out (String.length a) tt tt).
  - rewrite gsub_skip. reflexivity.
  - unfold pure_matcher. rewrite H. reflexivity.
Qed.

Lemma replace_all_copy (m : string -> option (string * nat)) (a s : string) :
  (forall c a1 a2, a = a1 ++ String c a2 -> m (String c (a2 ++ s)) = None) ->
  replace_all m (a ++ s) = a ++ replace_all m s.
Proof.
  intros H. unfold replace_all. rewrite gsub_copy; [reflexivity|].
  intros c a1 a2 E. unfold pure_matcher. rewrite (H c a1 a2 E). reflexivity.
Qed.

(** ** Literal prefixes and first occurrences *)

Lemma append_assoc (a b c : string) : (a ++ b) ++ c = a ++ (b ++ c).
Proof. induction a as [|x a IH]; [reflexivity|]. cbn. rewrite IH. reflexivity. Qed.

Lemma append_nil_r (a : string) : a ++ "" = a.
Proof. induction a as [|x a IH]; [reflexivity|]. cbn. rewrite IH. reflexivity. Qed.

Lemma length_append (a b : string) :
  String.length (a ++ b) = String.length a + String.length b.
Proof. induction a as [|x a IH]; [reflexivity|]. cbn. rewrite IH. reflexivity. Qed.

Lemma strip_prefix_app (p s : string) : Str.strip_prefix p (p ++ s) = Some s.
Proof.
  induction p as [|c p IH]; [reflexivity|].
  cbn. rewrite Ascii.eqb_refl. exact IH.
Qed.

Lemma strip_prefix_some (p s r : string) :
  Str.strip_prefix p s = Some r -> s = p ++ r.
Proof.
  revert s. induction p as [|c p IH]; intros s H.
  - injection H as ->. reflexivity.
  - destruct s as [|d s]; [discriminate H|]. cbn in H.
    destruct (Ascii.eqb_spec c d) as [->|]; [|discriminate H].
    cbn. rewrite (IH s H). reflexivity.
Qed.

Lemma split_first_here (pat s : string) :
  Str.split_first pat (pat ++ s) = Some ("", s).
Proof.
  destruct pat as [|c pat]; [destruct s; reflexivity|].
  cbn [append Str.split_first].
  change (String c (pat ++ s)) with (String c pat ++ s).
  rewrite strip_prefix_app. reflexivity.
Qed.

Lemma split_first_later (pat s : string) (c : ascii) :
  Str.strip_prefix pat (String c s) = None ->
  Str.split_first pat (String c s)
  = match Str.split_first pat s with
    | Some (a, b) => Some (String c a, b)
    | None => None
    end.
Proof. intros H. cbn [Str.split_first]. rewrite H. reflexivity. Qed.

(** The content of a block is cut at the literal that follows it, when the
    literal fails to match at every position inside the content. *)
Lemma split_first_app (pat content rest : string) :
  (forall c a1 a2, content = a1 ++ String c a2 ->
                   Str.strip_prefix pat (String c (a2 ++ pat ++ rest)) = None) ->
  Str.split_first pat (content ++ pat ++ rest) = Some (content, rest).
Proof.
  induction content as [|c content IH]; intros H.
  - exact (split_first_here pat rest).
  - change (String c content ++ pat ++ rest)
      with (String c (content ++ pat ++ rest)).
    rewrite split_first_later
      by (apply (H c "" content); reflexivity).
    rewrite IH; [reflexivity|].
    intros c' a1 a2 E. apply (H c' (String c a1) a2). rewrite E. reflexivity.
Qed.

Lemma lacks_sub_suffix (pat a1 a2 : string) :
  Str.lacks_sub pat (a1 ++ a2) = true -> Str.lacks_sub pat a2 = true.
Proof.
  induction a1 as [|c a1 IH]; [trivial|].
  cbn [append Str.lacks_sub].
  destruct (Str.strip_prefix pat (String c (a1 ++ a2))); [discriminate|].
  exact IH.
Qed.

Lemma lacks_sub_head (pat s : string) :
  Str.lacks_sub pat s = true -> Str.strip_prefix pat s = None.
Proof.
  destruct s as [|c s]; cbn [Str.lacks_sub];
    destruct (Str.strip_prefix pat _); congruence.
Qed.

(** A literal [String x q] in which [x] does not come back cannot start
    inside a text that has no occurrence of it and end in a copy of itself
    put behind that text. *)
Lemma strip_prefix_before_char (q s t : string) (x : ascii) :
  Str.lacks x q = true ->
  Str.strip_prefix q (s ++ String x t) <> None ->
  Str.strip_prefix q s <> None.
Proof.
  revert s. induction q as [|d q IH]; intros s Hq H; [discriminate|].
  cbn [Str.lacks Str.forallb] in Hq. apply andb_prop in Hq.
  destruct Hq as [Hd Hq]. cbn beta in Hd. destruct s as [|e s].
  - cbn in H. destruct (Ascii.eqb d x); [discriminate Hd|contradiction].
  - cbn in *. destruct (Ascii.eqb d e); [|contradiction].
    apply IH; assumption.
Qed.

Lemma split_first_content (x : ascii) (q content rest : string) :
  Str.lacks x q = true ->
  Str.lacks_sub (String x q) content = true ->
  Str.split_first (String x q) (content ++ String x q ++ rest)
  = Some (content, rest).
Proof.
  intros Hq Hc. apply split_first_app. intros c a1 a2 E.
  subst content. apply lacks_sub_suffix in Hc.
  apply lacks_sub_head in Hc.
  destruct (Str.strip_prefix (String x q)
              (String c (a2 ++ String x q ++ rest))) eqn:E; [|reflexivity].
  exfalso. cbn [Str.strip_prefix] in Hc, E.
  destruct (Ascii.eqb x c); [|discriminate E].
  apply (strip_prefix_before_char q a2 (q ++ rest) x Hq); [|exact Hc].
  cbn [append] in E. rewrite E. discriminate.
Qed.

(** ** The paragraph pass *)

Lemma match_inline_open_spec (c : ascii) (rest : string) :
  match_inline_open (String c rest) = None
  <-> Char.is_space c = true \/ opens_spaced_tag rest = false.
Proof.
  unfold match_inline_open, opens_spaced_tag, spaced_tags, starts_with.
  cbn [existsb].
  destruct (Char.is_space c); [split; [left; reflexivity|reflexivity]|].
  destruct (Str.strip_prefix "<b>" rest);
    [split; [discriminate|intros [H|H]; discriminate H]|].
  destruct (Str.strip_prefix "<i>" rest);
    [split; [discriminate|intros [H|H]; discriminate H]|].
  destruct (Str.strip_prefix "<code>" rest);
    [split; [discriminate|intros [H|H]; discriminate H]|].
  split; [right; reflexivity|reflexivity].
Qed.


Lemma space_inline_tags_keep (c : ascii) (rest : string) :
  Char.is_space c = true \/ opens_spaced_tag rest = false ->
  space_inline_tags (String c rest) = String c (space_inline_tags rest).
Proof.
  intros H. unfold space_inline_tags. apply replace_all_no_match.
  apply match_inline_open_spec, H.
Qed.



(** ** The style accumulator *)

Lemma lookup_set_flag (key k : string) (style : StyleSet) :
  lookup key (set_flag k style)
  = if String.eqb k key then Some true else lookup key style.
Proof.
  induction style as [|[k' b] style IH]; cbn [set_flag lookup].
  - destruct (String.eqb k key); reflexivity.
  - destruct (String.eqb k' k) eqn:E; cbn [lookup].
    + apply String.eqb_eq in E. subst k'.
      destruct (String.eqb k key); reflexivity.
    + rewrite IH. destruct (String.eqb k' key) eqn:E'; [|reflexivity].
      apply String.eqb_eq in E'. subst k'. rewrite String.eqb_sym, E.
      reflexivity.
Qed.

Lemma update_style_keeps (name key : string) (style : StyleSet) :
  lookup key style = Some true ->
  lookup key (update_style name style) = Some true.
Proof.
  intros H. unfold update_style.
  repeat match goal with
         | |- context [if ?b then _ else _] => destruct b
         end;
    try exact H; rewrite lookup_set_flag;
    match goal with
    | |- context [String.eqb ?a ?b] => destruct (String.eqb a b)
    end; first [reflexivity|exact H].
Qed.

Lemma lookup_style_with_style (style : StyleSet)
  (fields : list (string * value)) :
  style <> [] ->
  lookup "style" (with_style style fields) = Some (style_object style).
Proof.
  intros H. destruct style; [contradiction|].
  apply lookup_set_field_same.
Qed.

Lemma inline_flag (e : value) (style : StyleSet) (key : string) :
  lookup key style = Some true ->
  (exists fields,
      e = VObj (with_style style fields)
      \/ exists data,
           e = VObj (Js.set_field "text" (VStr data)
                       (with_style style fields))) ->
  Js.get key (Js.get "style" e) = VBool true.
Proof.
  intros Hk [fields He].
  assert (Hs : style <> []) by (intros ->; discriminate Hk).
  assert (Hg : Js.get "style" e = style_object style).
  { destruct He as [->|[data ->]]; cbn [Js.get].
    - rewrite (lookup_style_with_style style fields Hs). reflexivity.
    - rewrite lookup_set_field_other by reflexivity.
      rewrite (lookup_style_with_style style fields Hs). reflexivity. }
  rewrite Hg, get_style_object, Hk. reflexivity.
Qed.

Lemma parseText_keeps_flags (node : AnyNode) :
  forall style ts e key,
    parseText node style = Ok ts -> In e ts ->
    lookup key style = Some true ->
    Js.get key (Js.get "style" e) = VBool true.
Proof.
  induction node as [data|data|name data|children IH|type name attribs children IH]
    using AnyNode_tree_ind; intros style ts e key H Hin Hk;
    try solve [injection H as <-; destruct Hin].
  - rewrite parseText_text in H. injection H as <-.
    destruct Hin as [<-|[]]. apply (inline_flag _ style key Hk).
    eexists. left. reflexivity.
  - destruct type; try solve [injection H as <-; destruct Hin].
    rewrite parseText_tag in H.
    pose proof (update_style_keeps name key style Hk) as Hk'.
    destruct (String.eqb name "a").
    + destruct children as [|[data| | | |] rest]; try discriminate H;
        injection H as <-; destruct Hin as [<-|[]];
        apply (inline_flag _ (update_style name style) key Hk');
        eexists; first [left; reflexivity|right; eexists; reflexivity].
    + revert ts H Hin. generalize dependent (update_style name style).
      intros st Hst.
      induction IH as [|c cs Hc _ IHcs]; intros ts H Hin.
      * injection H as <-. destruct Hin.
      * cbn [text_of_children] in H.
        destruct (parseText c st) as [t1|] eqn:E1; [|discriminate H].
        cbn [bind] in H.
        destruct (text_of_children st cs) as [t2|] eqn:E2; [|discriminate H].
        injection H as <-. apply in_app_or in Hin. destruct Hin as [Hin|Hin].
        -- exact (Hc st t1 e key E1 Hin Hst).
        -- exact (IHcs t2 eq_refl Hin).
Qed.

(** *** The heap of style objects *)

Lemma length_write (l : nat) (s : StyleSet) (h : heap) :
  List.length (write l s h) = List.length h.
Proof.
  revert l. induction h as [|x h IH]; intros l; [reflexivity|].
  destruct l; cbn [write List.length]; [reflexivity|]. rewrite IH. reflexivity.
Qed.

Lemma read_write_same (l : nat) (s : StyleSet) (h : heap) :
  l < List.length h -> read l (write l s h) = s.
Proof.
  unfold read. revert l. induction h as [|x h IH]; intros l Hl;
    [cbn in Hl; lia|].
  destruct l; [reflexivity|]. cbn [write nth]. apply IH. cbn in Hl. lia.
Qed.

Lemma read_write_other (l l' : nat) (s : StyleSet) (h : heap) :
  l' <> l -> read l' (write l s h) = read l' h.
Proof.
  unfold read. revert l l'. induction h as [|x h IH]; intros l l' Hn;
    [reflexivity|].
  destruct l, l'; cbn [write nth]; try reflexivity; [contradiction|].
  apply IH. lia.
Qed.

Lemma read_alloc_old (l : nat) (s : StyleSet) (h : heap) :
  l < List.length h -> read l (snd (alloc s h)) = read l h.
Proof. intros H. unfold read, alloc. cbn [snd]. apply app_nth1, H. Qed.

Lemma read_alloc_new (s : StyleSet) (h : heap) :
  read (fst (alloc s h)) (snd (alloc s h)) = s.
Proof.
  unfold read, alloc. cbn [fst snd]. rewrite app_nth2 by lia.
  rewrite Nat.sub_diag. reflexivity.
Qed.

Lemma length_alloc (s : StyleSet) (h : heap) :
  List.length (snd (alloc s h)) = S (List.length h).
Proof. unfold alloc. cbn [snd]. rewrite length_app. cbn. lia. Qed.

Lemma frame_refl (l : nat) (h : heap) : frame l h h.
Proof. split; [lia|reflexivity]. Qed.

Lemma with_style_at_spec (l : nat) (h : heap)
  (fields : list (string * value)) :
  fst (with_style_at l h fields) = with_style (read l h) fields
  /\ List.length h <= List.length (snd (with_style_at l h fields))
  /\ forall l', l' < List.length h ->
                read l' (snd (with_style_at l h fields)) = read l' h.
Proof.
  unfold with_style_at. destruct (read l h) as [|kb style] eqn:E.
  - cbn [fst snd]. repeat split. lia.
  - pose proof (read_alloc_new (kb :: style) h) as Hn.
    pose proof (length_alloc (kb :: style) h) as Hl.
    pose proof (fun l' => read_alloc_old l' (kb :: style) h) as Ho.
    destruct (alloc (kb :: style) h) as [c h'].
    cbn [fst snd] in *. rewrite Hn. repeat split; [lia|exact Ho].
Qed.

Lemma parseText_store_tag (name : string) (attribs : list (string * string))
  (children : list AnyNode) (l : nat) (h : heap) :
  parseText_store (Element Tag name attribs children) l h =
  let h0 := write l (update_style name (read l h)) h in
  if String.eqb name "a" then
    let (textElement, h1) :=
      with_style_at l h0
        [("type", VStr "link"); ("url", Js.attr "href" attribs)] in
    match children with
    | [] => (Throw TypeError, h1)
    | Text data :: _ =>
        (Ok [VObj (Js.set_field "text" (VStr data) textElement)], h1)
    | _ :: _ => (Ok [VObj textElement], h1)
    end
  else store_children l children h0.
Proof.
  cbn [parseText_store]. cbv zeta.
  destruct (String.eqb name "a"); [reflexivity|].
  generalize (write l (update_style name (read l h)) h).
  induction children as [|c cs IH]; intros h0; [reflexivity|].
  cbn [store_children]. destruct (alloc (read l h0) h0) as [a h1].
  destruct (parseText_store c a h1) as [[ts|e] h2]; [|reflexivity].
  rewrite IH. reflexivity.
Qed.

Lemma store_children_refines (st : StyleSet) (l : nat) (cs : list AnyNode) :
  Forall (fun node => forall l h,
              l < List.length h ->
              fst (parseText_store node l h) = parseText node (read l h)
              /\ frame l h (snd (parseText_store node l h))
              /\ read l (snd (parseText_store node l h))
                 = own_style node (read l h)) cs ->
  forall h,
    l < List.length h -> read l h = st ->
    fst (store_children l cs h) = text_of_children st cs
    /\ List.length h <= List.length (snd (store_children l cs h))
    /\ forall l', l' < List.length h ->
                  read l' (snd (store_children l cs h)) = read l' h.
Proof.
  induction 1 as [|c cs Hc _ IH]; intros h Hl Hst.
  - cbn [store_children text_of_children fst snd]. repeat split. lia.
  - cbn [store_children text_of_children].
    pose proof (read_alloc_new (read l h) h) as Hn.
    pose proof (length_alloc (read l h) h) as Hlen.
    pose proof (fun l' => read_alloc_old l' (read l h) h) as Ho.
    assert (Ha : fst (alloc (read l h) h) = List.length h) by reflexivity.
    destruct (alloc (read l h) h) as [a h1]. cbn [fst snd] in *.
    subst a.
    destruct (Hc (List.length h) h1 ltac:(lia)) as [Hf [[Hg1 Hg2] _]].
    rewrite Hn, Hst in Hf.
    destruct (parseText_store c (List.length h) h1) as [[ts|e] h2];
      cbn [fst snd] in *; rewrite <- Hf; cbn [bind].
    + assert (Hl2 : l < List.length h2) by lia.
      assert (Hst2 : read l h2 = st).
      { rewrite Hg2 by lia. rewrite Ho by lia. exact Hst. }
      destruct (IH h2 Hl2 Hst2) as [Hf' [Hlen' Hold']].
      destruct (store_children l cs h2) as [[rest|e] h3];
        cbn [fst snd] in *; rewrite <- Hf'; cbn [bind];
        (split; [reflexivity|]); (split; [lia|]);
        intros l' Hl'; rewrite Hold' by lia; rewrite Hg2 by lia;
        apply Ho; exact Hl'.
    + split; [reflexivity|]. split; [lia|].
      intros l' Hl'. rewrite Hg2 by lia. apply Ho; exact Hl'.
Qed.

Lemma parseText_store_refines (node : AnyNode) :
  forall l h,
    l < List.length h ->
    fst (parseText_store node l h) = parseText node (read l h)
    /\ frame l h (snd (parseText_store node l h))
    /\ read l (snd (parseText_store node l h)) = own_style node (read l h).
Proof.
  induction node as [data|data|name data|children IH|type name attribs children IH]
    using AnyNode_tree_ind; intros l h Hl;
    try (cbn [parseText_store parseText fst snd own_style];
         split; [reflexivity|split; [apply frame_refl|reflexivity]]).
  - cbn [parseText_store own_style]. rewrite parseText_text.
    destruct (with_style_at_spec l h
                [("type", VStr "text"); ("text", VStr (text_of_data data))])
      as [Hf [Hlen Hold]].
    destruct (with_style_at l h _) as [textElement h1]. cbn [fst snd] in *.
    subst textElement. split; [reflexivity|]. split.
    + split; [exact Hlen|]. intros l' Hl' _. apply Hold, Hl'.
    + apply Hold, Hl.
  - destruct type;
      try (cbn [parseText_store parseText fst snd own_style];
           split; [reflexivity|split; [apply frame_refl|reflexivity]]).
    rewrite parseText_store_tag, parseText_tag. cbv zeta. cbn [own_style].
    set (st := update_style name (read l h)).
    set (h0 := write l st h).
    assert (Hl0 : List.length h0 = List.length h) by apply length_write.
    assert (Hr0 : read l h0 = st) by (apply read_write_same, Hl).
    assert (Ho0 : forall l', l' <> l -> read l' h0 = read l' h)
      by (intros l' Hn; apply read_write_other, Hn).
    destruct (String.eqb name "a").
    + destruct (with_style_at_spec l h0
                  [("type", VStr "link"); ("url", Js.attr "href" attribs)])
        as [Hf [Hlen Hold]].
      destruct (with_style_at l h0 _) as [textElement h1].
      cbn [fst snd] in *. subst textElement. rewrite Hr0.
      assert (Hfr : frame l h h1).
      { split; [lia|]. intros l' Hl' Hn. rewrite Hold by lia.
        apply Ho0, Hn. }
      assert (Hown : read l h1 = st) by (rewrite Hold by lia; exact Hr0).
      unfold link_element.
      destruct children as [|[data| | | |] rest]; cbn [fst snd];
        (split; [reflexivity|split; [exact Hfr|exact Hown]]).
    + destruct (store_children_refines st l children IH h0
                  ltac:(lia) Hr0) as [Hf [Hlen Hold]].
      split; [exact Hf|]. split.
      * split; [lia|]. intros l' Hl' Hn. rewrite Hold by lia.
        apply Ho0, Hn.
      * rewrite Hold by lia. exact Hr0.
Qed.

Lemma parseText_default_refines (node : AnyNode) (h : heap) :
  fst (parseText_default node h) = parseText node []
  /\ forall l, l < List.length h ->
               read l (snd (parseText_default node h)) = read l h.
Proof.
  unfold parseText_default.
  pose proof (read_alloc_new [] h) as Hn.
  pose proof (length_alloc [] h) as Hlen.
  pose proof (fun l => read_alloc_old l [] h) as Ho.
  assert (Ha : fst (alloc [] h) = List.length h) by reflexivity.
  destruct (alloc [] h) as [a h1]. cbn [fst snd] in *. subst a.
  destruct (parseText_store_refines node (List.length h) h1 ltac:(lia))
    as [Hf [[_ Hfr] _]].
  rewrite Hn in Hf. split; [exact Hf|].
  intros l Hl. rewrite Hfr by lia. apply Ho, Hl.
Qed.

(** C4: the flags that are [true] in the style a call of [parseText]
    receives are [true] in the style of every element the call produces,
    and the update at a tag keeps them.  On the style objects themselves,
    a call writes to the object it was handed and to objects it allocates,
    and to no other: every other object of the heap is left as it was, the
    object handed over holds the caller's style updated by the tag of the
    node alone, and the elements produced are those of the value-passing
    [parseText], in which each child of a tag is run on the style of that
    tag.  A call with the default style runs on a new empty object and
    leaves every object of the heap as it was. *)
Theorem style_flags_accumulate_in_isolation :
  (forall node style ts e key,
      parseText node style = Ok ts -> In e ts ->
      lookup key style = Some true ->
      Js.get key (Js.get "style" e) = VBool true)
  /\ (forall name key style,
         lookup key style = Some true ->
         lookup key (update_style name style) = Some true)
  /\ (forall node l h,
         l < List.length h ->
         fst (parseText_store node l h) = parseText node (read l h)
         /\ frame l h (snd (parseText_store node l h))
         /\ read l (snd (parseText_store node l h))
            = own_style node (read l h))
  /\ (forall node h,
         fst (parseText_default node h) = parseText node []
         /\ forall l, l < List.length h ->
                      read l (snd (parseText_default node h)) = read l h)
  /\ (forall name attribs children style,
         String.eqb name "a" = false ->
         parseText (Element Tag name attribs children) style
         = text_of_children (update_style name style) children).
Proof.
  split; [|split; [|split; [|split]]].
  - intros node. apply parseText_keeps_flags.
  - intros name key style. apply update_style_keeps.
  - intros node. apply parseText_store_refines.
  - intros node h. apply parseText_default_refines.
  - intros name attribs children style H. rewrite parseText_tag, H.
    reflexivity.
Qed.

Lemma style_flags_accumulate_in_isolation_witness :
  Js.get "bold"
    (Js.get "style"
       (text_element "y" [("bold", true); ("italic", true)])) = VBool true
  /\ lookup "bold" (update_style "i" [("bold", true)]) = Some true
  /\ (fst (parseText_store
             (Element Tag "b" []
                [Element Tag "i" [] [Text "y"]; Text "z"]) 0 [[]])
      = parseText (Element Tag "b" []
                     [Element Tag "i" [] [Text "y"]; Text "z"]) (read 0 [[]])
      /\ frame 0 [[]]
           (snd (parseText_store
                   (Element Tag "b" []
                      [Element Tag "i" [] [Text "y"]; Text "z"]) 0 [[]]))
      /\ read 0 (snd (parseText_store
                        (Element Tag "b" []
                           [Element Tag "i" [] [Text "y"]; Text "z"]) 0 [[]]))
         = [("bold", true)])
  /\ parseText (Element Tag "b" [] [Element Tag "i" [] [Text "y"]; Text "z"])
       []
     = text_of_children [("bold", true)]
         [Element Tag "i" [] [Text "y"]; Text "z"].
Proof.
  split; [|split; [|split]].
  - apply (proj1 style_flags_accumulate_in_isolation
             (Element Tag "i" [] [Text "y"]) [("bold", true)]
             [text_element "y" [("bold", true); ("italic", true)]]).
    + reflexivity.
    + left. reflexivity.
    + reflexivity.
  - apply (proj1 (proj2 style_flags_accumulate_in_isolation)). reflexivity.
  - apply (proj1 (proj2 (proj2 style_flags_accumulate_in_isolation))
             (Element Tag "b" []
                [Element Tag "i" [] [Text "y"]; Text "z"]) 0 [[]]).
    cbn. lia.
  - apply (proj2 (proj2 (proj2 (proj2 style_flags_accumulate_in_isolation)))).
    reflexivity.
Defined.

(** ** Decimal indices *)

Lemma string_of_uint_digits (d : uint) :
  Str.forallb Char.is_digit (NilEmpty.string_of_uint d) = true.
Proof. induction d; cbn; [reflexivity|assumption..]. Qed.

Lemma of_nat_digits (n : nat) : Str.forallb Char.is_digit (Str.of_nat n) = true.
Proof. apply string_of_uint_digits. Qed.

Lemma of_nat_not_empty (n : nat) : Str.of_nat n <> "".
Proof.
  unfold Str.of_nat. intros H.
  assert (Hn : Nat.to_uint n = Nil)
    by (destruct (Nat.to_uint n); [reflexivity|discriminate H..]).
  pose proof (DecimalNat.Unsigned.of_to n) as E. rewrite Hn in E.
  cbn in E. subst n. discriminate Hn.
Qed.

Lemma to_nat_of_nat (n : nat) : Str.to_nat (Str.of_nat n) = Some n.
Proof.
  unfold Str.to_nat, Str.of_nat. rewrite NilEmpty.usu.
  rewrite DecimalNat.Unsigned.of_to. reflexivity.
Qed.

(** ** Greedy runs *)

Lemma span_app_stop (f : ascii -> bool) (a r : string) (c : ascii) :
  Str.forallb f a = true -> f c = false ->
  Str.span f (a ++ String c r) = (a, String c r).
Proof.
  intros Ha Hc. induction a as [|x a IH].
  - cbn. rewrite Hc. reflexivity.
  - cbn in Ha. apply andb_prop in Ha. destruct Ha as [Hx Ha].
    cbn. rewrite Hx, (IH Ha). reflexivity.
Qed.

Lemma span_append (f : ascii -> bool) (s : string) :
  fst (Str.span f s) ++ snd (Str.span f s) = s.
Proof.
  induction s as [|c s IH]; [reflexivity|]. cbn.
  destruct (f c); [|reflexivity].
  destruct (Str.span f s). cbn in *. rewrite IH. reflexivity.
Qed.

(** A greedy run inside [a] stops inside [a] when the text after [a]
    starts with a character out of the class. *)
Lemma span_app_local (f : ascii -> bool) (a r : string) (c : ascii) :
  f c = false ->
  Str.span f (a ++ String c r)
  = (fst (Str.span f a), snd (Str.span f a) ++ String c r).
Proof.
  intros Hc. induction a as [|x a IH].
  - cbn. rewrite Hc. reflexivity.
  - cbn. destruct (f x); [|reflexivity].
    rewrite IH. destruct (Str.span f a). reflexivity.
Qed.

Lemma forallb_app (f : ascii -> bool) (a b : string) :
  Str.forallb f (a ++ b) = Str.forallb f a && Str.forallb f b.
Proof.
  induction a as [|x a IH]; [reflexivity|]. cbn. rewrite IH.
  apply andb_assoc.
Qed.

Lemma forallb_impl (f g : ascii -> bool) (a : string) :
  (forall c, f c = true -> g c = true) ->
  Str.forallb f a = true -> Str.forallb g a = true.
Proof.
  intros H. induction a as [|x a IH]; [reflexivity|]. cbn. intros Ha.
  apply andb_prop in Ha. destruct Ha as [Hx Ha].
  rewrite (H x Hx), (IH Ha). reflexivity.
Qed.

Lemma lacks_head (x c : ascii) (s : string) :
  Str.lacks x (String c s) = true -> c <> x.
Proof.
  cbn. intros H. apply andb_prop in H. destruct H as [H _].
  intros ->. rewrite Ascii.eqb_refl in H. discriminate H.
Qed.

Lemma lacks_split (x c : ascii) (a1 a2 : string) :
  Str.lacks x (a1 ++ String c a2) = true -> c <> x.
Proof.
  unfold Str.lacks. rewrite forallb_app. intros H.
  apply andb_prop in H. destruct H as [_ H]. exact (lacks_head x c a2 H).
Qed.

Section Gsub_more.

Context {St : Type}.
Variable m : St -> string -> option (string * nat * St).

(** A match that covers the whole of [seg]. *)
Lemma gsub_segment (seg rest out : string) (st st' : St) :
  seg <> "" ->
  m st (seg ++ rest) = Some (out, String.length seg, st') ->
  gsub m 0 st (seg ++ rest)
  = (out ++ fst (gsub m 0 st' rest), snd (gsub m 0 st' rest)).
Proof.
  destruct seg as [|c seg]; [contradiction|]. intros _ H.
  cbn [append String.length] in *. rewrite (gsub_match m c _ _ _ _ _ H).
  rewrite gsub_skip. reflexivity.
Qed.

(** A pattern that only starts at the character [x] copies a stretch of
    text without [x]. *)
Lemma gsub_copy_lacks (x : ascii) (a s : string) (st : St) :
  (forall st c r, c <> x -> m st (String c r) = None) ->
  Str.lacks x a = true ->
  gsub m 0 st (a ++ s)
  = (a ++ fst (gsub m 0 st s), snd (gsub m 0 st s)).
Proof.
  intros Hm Ha. apply gsub_copy. intros c a1 a2 E. apply Hm.
  subst a. exact (lacks_split x c a1 a2 Ha).
Qed.

End Gsub_more.

(** ** The first pass on a document *)

Section Gsub_whole.

Context {St : Type}.
Variable m : St -> string -> option (string * nat * St).

Lemma gsub_copy_all (a : string) (st : St) :
  (forall c a1 a2, a = a1 ++ String c a2 -> m st (String c a2) = None) ->
  gsub m 0 st a = (a, st).
Proof.
  intros H. rewrite <- (append_nil_r a) at 1. rewrite gsub_copy.
  - cbn [gsub fst snd]. rewrite append_nil_r. reflexivity.
  - intros c a1 a2 E. rewrite append_nil_r. exact (H c a1 a2 E).
Qed.

End Gsub_whole.

Lemma lacks_app (x : ascii) (a b : string) :
  Str.lacks x (a ++ b) = Str.lacks x a && Str.lacks x b.
Proof. apply forallb_app. Qed.

Lemma ends_unblank_suffix (a1 : string) (c : ascii) (a2 : string) :
  ends_unblank (a1 ++ String c a2) = true ->
  ends_unblank (String c a2) = true.
Proof.
  induction a1 as [|x a1 IH]; [trivial|].
  cbn [append]. intros H. apply IH.
  destruct a1; exact H.
Qed.

Lemma strip_prefix_pre_after_blanks (sfx rest : string) :
  sfx <> "" -> plain_text sfx = true -> ends_unblank sfx = true ->
  Str.strip_prefix "<pre>" (snd (Str.span Char.is_blank (sfx ++ rest)))
  = None.
Proof.
  induction sfx as [|c t IH]; [contradiction|]. intros _ Hp He.
  pose proof (lacks_head _ _ _ Hp) as Hc.
  unfold plain_text in Hp. cbn [Str.lacks Str.forallb] in Hp.
  apply andb_prop in Hp. destruct Hp as [_ Hp].
  cbn [append Str.span]. destruct (Char.is_blank c) eqn:Eb.
  - destruct t as [|d t]; [cbn in He; rewrite Eb in He; discriminate He|].
    specialize (IH ltac:(discriminate) Hp He).
    destruct (Str.span Char.is_blank (String d t ++ rest)). exact IH.
  - cbn [snd Str.strip_prefix].
    destruct (Ascii.eqb_spec "<" c) as [<-|]; [contradiction|reflexivity].
Qed.

Lemma match_pre_none (st : pre_store) (s : string) :
  Str.strip_prefix "<pre>" (snd (Str.span Char.is_blank s)) = None ->
  match_pre st s = None.
Proof.
  unfold match_pre. destruct (Str.span Char.is_blank s) as [lead r].
  cbn [snd]. intros ->. reflexivity.
Qed.

Lemma match_pre_plain (st : pre_store) (s : string) :
  plain_text s = true -> match_pre st s = None.
Proof.
  intros Hp. apply match_pre_none.
  pose proof (span_append Char.is_blank s) as E.
  destruct (Str.span Char.is_blank s) as [a r]. cbn [fst snd] in *.
  subst s. unfold plain_text in Hp. rewrite lacks_app in Hp.
  apply andb_prop in Hp. destruct Hp as [_ Hr].
  destruct r as [|c r]; [reflexivity|].
  pose proof (lacks_head _ _ _ Hr) as Hc. cbn [Str.strip_prefix].
  destruct (Ascii.eqb_spec "<" c) as [<-|]; [contradiction|reflexivity].
Qed.

Lemma match_pre_block (st : pre_store) (ind c rest : string) :
  Str.forallb Char.is_blank ind = true ->
  Str.lacks_sub "</pre>" c = true ->
  match_pre st (ind ++ "<pre>" ++ c ++ "</pre>" ++ rest)
  = Some ("<pre>" ++ Str.of_nat (List.length (preTags st)) ++ "</pre>",
          String.length (ind ++ "<pre>" ++ c ++ "</pre>"),
          mkPreStore (preTags st ++ [strip_leading_newline c])%list
                     (preLeadingSpaces st ++ [ind])%list).
Proof.
  intros Hi Hc. unfold match_pre.
  change ("<pre>" ++ c ++ "</pre>" ++ rest)
    with (String "<" ("pre>" ++ c ++ "</pre>" ++ rest)).
  rewrite (span_app_stop Char.is_blank ind _ "<" Hi eq_refl).
  change (String "<" ("pre>" ++ c ++ "</pre>" ++ rest))
    with ("<pre>" ++ (c ++ "</pre>" ++ rest)).
  rewrite strip_prefix_app.
  rewrite (split_first_content "<" "/pre>" c rest eq_refl Hc).
  rewrite !length_append. cbn [String.length].
  rewrite !Nat.add_assoc. reflexivity.
Qed.

Lemma pass1_document (after : string) (segs : list pre_segment) :
  plain_text after = true ->
  forallb well_formed_segment segs = true ->
  forall st,
    gsub match_pre 0 st (source_document segs after)
    = (numbered_document (List.length (preTags st)) segs after,
       mkPreStore (preTags st ++ stripped_contents segs)%list
                  (preLeadingSpaces st ++ map indent segs)%list).
Proof.
  intros Ha. induction segs as [|s segs IH]; intros Hw st.
  - cbn [source_document numbered_document stripped_contents map].
    rewrite !app_nil_r. destruct st as [tags leads]. cbn [preTags preLeadingSpaces].
    apply gsub_copy_all. intros c a1 a2 E. apply match_pre_plain.
    subst after. unfold plain_text in *. rewrite lacks_app in Ha.
    apply andb_prop in Ha. apply Ha.
  - cbn [forallb] in Hw. apply andb_prop in Hw. destruct Hw as [Hs Hw].
    unfold well_formed_segment in Hs.
    apply andb_prop in Hs. destruct Hs as [Hs Hcontent].
    apply andb_prop in Hs. destruct Hs as [Hs Hindent].
    apply andb_prop in Hs. destruct Hs as [Hplain Hends].
    cbn [source_document numbered_document].
    rewrite gsub_copy.
    2:{ intros c a1 a2 E. apply match_pre_none.
        change (String c (a2 ++ indent s ++ "<pre>" ++ content s ++ "</pre>"
                          ++ source_document segs after))
          with (String c a2 ++ (indent s ++ "<pre>" ++ content s ++ "</pre>"
                                ++ source_document segs after)).
        apply strip_prefix_pre_after_blanks; [discriminate| |].
        - rewrite E in Hplain. unfold plain_text in *.
          rewrite lacks_app in Hplain. apply andb_prop in Hplain. apply Hplain.
        - rewrite E in Hends. exact (ends_unblank_suffix _ _ _ Hends). }
    replace (indent s ++ "<pre>" ++ content s ++ "</pre>"
             ++ source_document segs after)
      with ((indent s ++ "<pre>" ++ content s ++ "</pre>")
            ++ source_document segs after)
      by (rewrite !append_assoc; reflexivity).
    rewrite (gsub_segment match_pre _ _
               ("<pre>" ++ Str.of_nat (List.length (preTags st)) ++ "</pre>")
               st
               (mkPreStore (preTags st ++ [strip_leading_newline (content s)])
                  (preLeadingSpaces st ++ [indent s]))%list).
    + rewrite IH by exact Hw. cbn [fst snd preTags preLeadingSpaces].
      rewrite length_app. cbn [List.length]. rewrite Nat.add_1_r.
      rewrite !append_assoc. cbn [stripped_contents map].
      rewrite <- !app_assoc. reflexivity.
    + destruct (indent s); discriminate.
    + replace ((indent s ++ "<pre>" ++ content s ++ "</pre>")
               ++ source_document segs after)
        with (indent s ++ "<pre>" ++ content s ++ "</pre>"
              ++ source_document segs after)
        by (rewrite !append_assoc; reflexivity).
      apply match_pre_block; assumption.
Qed.

(** ** Patterns that start at [<] *)

Section Starts_at_lt.

Context {St : Type}.
Variable m : St -> string -> option (string * nat * St).
Hypothesis m_starts_at_lt : forall st c r, c <> "<"%char -> m st (String c r) = None.

Lemma gsub_copy_plain (a s : string) (st : St) :
  plain_text a = true ->
  gsub m 0 st (a ++ s) = (a ++ fst (gsub m 0 st s), snd (gsub m 0 st s)).
Proof. apply gsub_copy_lacks, m_starts_at_lt. Qed.

(** A tag at which the pattern fails is copied. *)
Lemma gsub_copy_tag (t s : string) (st : St) :
  plain_text t = true ->
  m st (String "<" (t ++ s)) = None ->
  gsub m 0 st (String "<" (t ++ s))
  = (String "<" (t ++ fst (gsub m 0 st s)), snd (gsub m 0 st s)).
Proof.
  intros Ht Hm. rewrite (gsub_no_match m _ _ _ Hm).
  rewrite (gsub_copy_plain t s st Ht). reflexivity.
Qed.

End Starts_at_lt.

Lemma match_tag_starts_at_lt (st : list string) (c : ascii) (r : string) :
  c <> "<"%char -> match_tag st (String c r) = None.
Proof.
  intros H. unfold match_tag.
  destruct c as [[] [] [] [] [] [] [] []]; try reflexivity.
  contradiction H. reflexivity.
Qed.

Lemma digits_plain (s : string) :
  Str.forallb Char.is_digit s = true -> plain_text s = true.
Proof.
  apply forallb_impl. intros c Hc.
  destruct (Ascii.eqb_spec c "<") as [->|]; [discriminate Hc|reflexivity].
Qed.

(** ** The second pass on a document *)

Lemma match_tag_pre (attrs : list string) (r : string) :
  match_tag attrs ("<pre>" ++ r)
  = Some (tag_placeholder (List.length attrs), 5, (attrs ++ [""])%list).
Proof. reflexivity. Qed.

Lemma match_tag_close (attrs : list string) (r : string) :
  match_tag attrs ("</pre>" ++ r) = None.
Proof. reflexivity. Qed.

Lemma pass2_document (after : string) (segs : list pre_segment) :
  plain_text after = true ->
  forallb (fun s => plain_text (before s)) segs = true ->
  forall k attrs,
    gsub match_tag 0 attrs (numbered_document k segs after)
    = (tagged_document k (List.length attrs) segs after,
       (attrs ++ repeat "" (List.length segs))%list).
Proof.
  intros Ha. induction segs as [|s segs IH]; intros Hw k attrs.
  - cbn [numbered_document tagged_document List.length repeat].
    rewrite app_nil_r. apply gsub_copy_all. intros c a1 a2 E.
    apply match_tag_starts_at_lt. subst after.
    exact (lacks_split _ _ _ _ Ha).
  - cbn [forallb] in Hw. apply andb_prop in Hw. destruct Hw as [Hs Hw].
    cbn [numbered_document tagged_document].
    rewrite (gsub_copy_plain match_tag match_tag_starts_at_lt _ _ _ Hs).
    rewrite (gsub_segment match_tag "<pre>" _ _ _ _ ltac:(discriminate)
               (match_tag_pre attrs _)).
    rewrite (gsub_copy_plain match_tag match_tag_starts_at_lt _ _ _
               (digits_plain _ (of_nat_digits k))).
    change ("</pre>" ++ numbered_document (S k) segs after)
      with (String "<" ("/pre>" ++ numbered_document (S k) segs after)).
    rewrite (gsub_copy_tag match_tag match_tag_starts_at_lt "/pre>" _ _
               eq_refl (match_tag_close _ _)).
    rewrite (IH Hw). cbn [fst snd]. rewrite length_app. cbn [List.length].
    rewrite Nat.add_1_r. cbn [repeat]. rewrite <- app_assoc.
    unfold tag_placeholder. rewrite !append_assoc. reflexivity.
Qed.

(** ** The third pass on a document *)

Lemma length_span_fst (f : ascii -> bool) (s : string) :
  String.length (fst (Str.span f s)) <= String.length s.
Proof.
  induction s as [|c s IH]; [cbn; lia|]. cbn.
  destruct (f c); [|cbn; lia].
  destruct (Str.span f s). cbn in *. lia.
Qed.

Lemma match_newlines_starts_at_lf (c : ascii) (r : string) :
  c <> Char.lf -> match_newlines (String c r) = None.
Proof.
  intros H. unfold match_newlines.
  destruct (Ascii.eqb_spec c Char.lf); [contradiction|reflexivity].
Qed.

Lemma match_newlines_lf (r : string) :
  pure_matcher match_newlines tt (String Char.lf r)
  = Some ("", S (String.length (fst (Str.span Char.is_lf_or_space r))), tt).
Proof.
  unfold pure_matcher, match_newlines. rewrite Ascii.eqb_refl.
  destruct (Str.span Char.is_lf_or_space r). reflexivity.
Qed.

Lemma match_newlines_other (c : ascii) (r : string) :
  c <> Char.lf -> pure_matcher match_newlines tt (String c r) = None.
Proof.
  intros H. unfold pure_matcher.
  rewrite (match_newlines_starts_at_lf c r H). reflexivity.
Qed.

(** Newline runs inside [t] end inside [t] when the text after [t] starts
    with neither a newline nor a space. *)
Lemma collapse_newlines_local (c : ascii) (r t : string) :
  Char.is_lf_or_space c = false ->
  forall k,
    k <= String.length t ->
    fst (gsub (pure_matcher match_newlines) k tt (t ++ String c r))
    = fst (gsub (pure_matcher match_newlines) k tt t)
      ++ replace_all match_newlines (String c r).
Proof.
  intros Hc. induction t as [|x t IH]; intros k Hk.
  - cbn in Hk. replace k with 0 by lia. reflexivity.
  - destruct k as [|k].
    + change (String x t ++ String c r) with (String x (t ++ String c r)).
      destruct (Ascii.eqb_spec x Char.lf) as [->|Hx].
      * rewrite (gsub_match _ _ _ _ _ _ _ (match_newlines_lf t)).
        rewrite (gsub_match _ _ _ _ _ _ _
                   (match_newlines_lf (t ++ String c r))).
        rewrite (span_app_local _ t r c Hc). cbn [fst append].
        apply IH, length_span_fst.
      * rewrite (gsub_no_match _ _ _ _ (match_newlines_other x t Hx)).
        rewrite (gsub_no_match _ _ _ _
                   (match_newlines_other x (t ++ String c r) Hx)).
        cbn [fst append]. rewrite (IH 0 ltac:(lia)). reflexivity.
    + cbn [append gsub]. apply IH. cbn in Hk. lia.
Qed.

Lemma collapse_newlines_before (t r : string) (c : ascii) :
  Char.is_lf_or_space c = false ->
  replace_all match_newlines (t ++ String c r)
  = collapse_newlines t ++ replace_all match_newlines (String c r).
Proof.
  intros Hc. unfold collapse_newlines, replace_all at 1 2.
  apply (collapse_newlines_local c r t Hc 0). lia.
Qed.

Lemma replace_all_copy_lacks (m : string -> option (string * nat))
  (x : ascii) (a s : string) :
  (forall c r, c <> x -> m (String c r) = None) ->
  Str.lacks x a = true ->
  replace_all m (a ++ s) = a ++ replace_all m s.
Proof.
  intros Hm Ha. apply replace_all_copy. intros c a1 a2 E. apply Hm.
  subst a. exact (lacks_split x c a1 a2 Ha).
Qed.

Lemma digits_lack_lf (s : string) :
  Str.forallb Char.is_digit s = true -> Str.lacks Char.lf s = true.
Proof.
  apply forallb_impl. intros c Hc.
  destruct (Ascii.eqb_spec c Char.lf) as [->|]; [discriminate Hc|reflexivity].
Qed.

Lemma block_placeholder_lacks_lf (j k : nat) :
  Str.lacks Char.lf (block_placeholder j k) = true.
Proof.
  unfold block_placeholder, tag_placeholder.
  rewrite !lacks_app, !(digits_lack_lf _ (of_nat_digits _)). reflexivity.
Qed.

Lemma tagged_document_cons (k j : nat) (s : pre_segment)
  (segs : list pre_segment) (after : string) :
  tagged_document k j (s :: segs) after
  = before s ++ block_placeholder j k
    ++ tagged_document (S k) (S j) segs after.
Proof.
  cbn [tagged_document]. unfold block_placeholder, tag_placeholder.
  rewrite !append_assoc. reflexivity.
Qed.

Lemma block_placeholder_head (j k : nat) (r : string) :
  block_placeholder j k ++ r
  = String "<" ("pre data-tag-attr=" ++ Str.dquote ++ Str.of_nat j
                ++ Str.dquote ++ ">" ++ Str.of_nat k ++ "</pre>" ++ r).
Proof.
  unfold block_placeholder, tag_placeholder. rewrite !append_assoc.
  reflexivity.
Qed.

Lemma pass3_document (after : string) (segs : list pre_segment) :
  forall k j,
    replace_all match_newlines (tagged_document k j segs after)
    = tagged_document k j (map collapse_before segs)
        (collapse_newlines after).
Proof.
  induction segs as [|s segs IH]; intros k j; [reflexivity|].
  cbn [map]. rewrite !tagged_document_cons. cbn [collapse_before before].
  rewrite block_placeholder_head.
  rewrite (collapse_newlines_before _ _ "<" eq_refl).
  rewrite <- block_placeholder_head.
  rewrite (replace_all_copy_lacks match_newlines Char.lf _ _
             match_newlines_starts_at_lf (block_placeholder_lacks_lf j k)).
  rewrite IH. reflexivity.
Qed.

(** ** Replacements without state *)

Lemma replace_all_segment (m : string -> option (string * nat))
  (seg rest out : string) :
  seg <> "" ->
  m (seg ++ rest) = Some (out, String.length seg) ->
  replace_all m (seg ++ rest) = out ++ replace_all m rest.
Proof.
  intros Hs Hm. unfold replace_all.
  rewrite (gsub_segment (pure_matcher m) seg rest out tt tt Hs);
    [reflexivity|].
  unfold pure_matcher. rewrite Hm. reflexivity.
Qed.

Lemma replace_all_copy_tag (m : string -> option (string * nat))
  (t s : string) :
  (forall c r, c <> "<"%char -> m (String c r) = None) ->
  plain_text t = true ->
  m (String "<" (t ++ s)) = None ->
  replace_all m (String "<" (t ++ s)) = String "<" (t ++ replace_all m s).
Proof.
  intros Hm Ht Hn. rewrite (replace_all_no_match m _ _ Hn).
  rewrite (replace_all_copy_lacks m "<" t s Hm Ht). reflexivity.
Qed.

Lemma replace_all_id (m : string -> option (string * nat)) (x : ascii)
  (a : string) :
  (forall c r, c <> x -> m (String c r) = None) ->
  Str.lacks x a = true ->
  replace_all m a = a.
Proof.
  intros Hm Ha. rewrite <- (append_nil_r a) at 1.
  rewrite (replace_all_copy_lacks m x a "" Hm Ha). cbn.
  apply append_nil_r.
Qed.

(** ** The fourth pass on a document *)

Lemma match_placeholder_starts_at_lt (attrs : list string) (c : ascii)
  (r : string) :
  c <> "<"%char -> match_placeholder attrs (String c r) = None.
Proof.
  intros H. unfold match_placeholder.
  destruct c as [[] [] [] [] [] [] [] []]; try reflexivity.
  contradiction H. reflexivity.
Qed.

Lemma span_digits_of_nat (n : nat) (c : ascii) (r : string) :
  Char.is_digit c = false ->
  Str.span Char.is_digit (Str.of_nat n ++ String c r)
  = (Str.of_nat n, String c r).
Proof. intros Hc. apply span_app_stop; [apply of_nat_digits|exact Hc]. Qed.

Lemma match_placeholder_block (attrs : list string) (j : nat) (r : string) :
  match_placeholder attrs (tag_placeholder j ++ r)
  = Some ("<pre" ++ nth j attrs "undefined" ++ ">",
          String.length (tag_placeholder j)).
Proof.
  unfold tag_placeholder. rewrite !append_assoc.
  change ("<pre data-tag-attr=" ++ Str.dquote ++ Str.of_nat j
          ++ Str.dquote ++ ">" ++ r)
    with (String "<" ("pre" ++ String " "
                        ("data-tag-attr=" ++ Str.dquote ++ Str.of_nat j
                         ++ String (ascii_of_nat 34) (">" ++ r)))).
  unfold match_placeholder.
  rewrite (span_app_stop Char.is_word "pre" _ " " eq_refl eq_refl).
  change (String " " ("data-tag-attr=" ++ Str.dquote ++ Str.of_nat j
                      ++ String (ascii_of_nat 34) (">" ++ r)))
    with ((" data-tag-attr=" ++ Str.dquote)
          ++ Str.of_nat j ++ String (ascii_of_nat 34) (">" ++ r)).
  rewrite strip_prefix_app.
  rewrite span_digits_of_nat by reflexivity.
  pose proof (of_nat_not_empty j) as Hn.
  unfold attribute_at. rewrite to_nat_of_nat.
  destruct (Str.of_nat j) as [|d ds] eqn:E; [contradiction|].
  change (String (ascii_of_nat 34) (">" ++ r))
    with ((Str.dquote ++ ">") ++ r).
  rewrite strip_prefix_app. rewrite !length_append.
  cbn [String.length Str.dquote].
  replace (1 + 3 + 16 + S (String.length ds) + 2)
    with (19 + (1 + (S (String.length ds) + (1 + 1)))) by lia.
  reflexivity.
Qed.

Lemma match_placeholder_close (attrs : list string) (r : string) :
  match_placeholder attrs ("</pre>" ++ r) = None.
Proof. reflexivity. Qed.

Lemma pass4_document (attrs : list string) (after : string)
  (segs : list pre_segment) :
  plain_text after = true ->
  forallb (fun s => plain_text (before s)) segs = true ->
  forall k j,
    (forall p, p < List.length segs -> nth (j + p) attrs "undefined" = "") ->
    replace_all (match_placeholder attrs) (tagged_document k j segs after)
    = numbered_document k segs after.
Proof.
  intros Ha. induction segs as [|s segs IH]; intros Hw k j Hattrs.
  - cbn [tagged_document numbered_document].
    exact (replace_all_id _ "<" after
             (match_placeholder_starts_at_lt attrs) Ha).
  - cbn [forallb] in Hw. apply andb_prop in Hw. destruct Hw as [Hs Hw].
    rewrite tagged_document_cons. cbn [numbered_document].
    rewrite (replace_all_copy_lacks _ "<" _ _
               (match_placeholder_starts_at_lt attrs) Hs).
    unfold block_placeholder. rewrite !append_assoc.
    rewrite (replace_all_segment _ (tag_placeholder j) _ _
               ltac:(discriminate) (match_placeholder_block attrs j _)).
    specialize (Hattrs 0 ltac:(cbn; lia)) as H0. rewrite Nat.add_0_r in H0.
    rewrite H0.
    rewrite (replace_all_copy_lacks _ "<" _ _
               (match_placeholder_starts_at_lt attrs)
               (digits_plain _ (of_nat_digits k))).
    change ("</pre>" ++ tagged_document (S k) (S j) segs after)
      with (String "<" ("/pre>" ++ tagged_document (S k) (S j) segs after)).
    rewrite (replace_all_copy_tag _ "/pre>" _
               (match_placeholder_starts_at_lt attrs) eq_refl
               (match_placeholder_close attrs _)).
    rewrite (IH Hw).
    + reflexivity.
    + intros p Hp. replace (S j + p) with (j + S p) by lia.
      apply Hattrs. cbn. lia.
Qed.

(** ** The fifth pass on a document *)

Lemma match_pre_placeholder_starts_at_lt (pre : pre_store) (b : bool)
  (c : ascii) (r : string) :
  c <> "<"%char -> match_pre_placeholder pre b (String c r) = None.
Proof.
  intros H. unfold match_pre_placeholder. cbn [Str.strip_prefix].
  destruct (Ascii.eqb_spec "<" c) as [<-|]; [contradiction H|]; reflexivity.
Qed.

Lemma match_pre_placeholder_block (pre : pre_store) (b : bool) (k : nat)
  (r text lead : string) :
  nth_error (preTags pre) k = Some text ->
  nth_error (preLeadingSpaces pre) k = Some lead ->
  match_pre_placeholder pre b ("<pre>" ++ Str.of_nat k ++ "</pre>" ++ r)
  = Some ("<pre>" ++ adjust_content lead text ++ "</pre>",
          String.length ("<pre>" ++ Str.of_nat k ++ "</pre>"), b).
Proof.
  intros Ht Hl. unfold match_pre_placeholder.
  rewrite strip_prefix_app.
  change ("</pre>" ++ r) with (String "<" ("/pre>" ++ r)).
  rewrite span_digits_of_nat by reflexivity.
  pose proof (of_nat_not_empty k) as Hn. rewrite to_nat_of_nat.
  destruct (Str.of_nat k) as [|d ds] eqn:E; [contradiction|].
  change (String "<" ("/pre>" ++ r)) with ("</pre>" ++ r).
  rewrite strip_prefix_app, Ht, Hl.
  change ("<pre>" ++ String d ds ++ "</pre>")
    with ("<pre>" ++ (String d ds ++ "</pre>")).
  rewrite !length_append. cbn [String.length].
  rewrite Nat.add_assoc. reflexivity.
Qed.

Lemma pass5_document (pre : pre_store) (after : string)
  (segs : list pre_segment) :
  plain_text after = true ->
  forallb (fun s => plain_text (before s)) segs = true ->
  forall k b,
    (forall p s,
        nth_error segs p = Some s ->
        nth_error (preTags pre) (k + p)
        = Some (strip_leading_newline (content s))
        /\ nth_error (preLeadingSpaces pre) (k + p) = Some (indent s)) ->
    gsub (match_pre_placeholder pre) 0 b (numbered_document k segs after)
    = (filled_document segs after, b).
Proof.
  intros Ha. induction segs as [|s segs IH]; intros Hw k b Hpre.
  - cbn [numbered_document filled_document]. apply gsub_copy_all.
    intros c a1 a2 E. apply match_pre_placeholder_starts_at_lt.
    subst after. exact (lacks_split _ _ _ _ Ha).
  - cbn [forallb] in Hw. apply andb_prop in Hw. destruct Hw as [Hs Hw].
    cbn [numbered_document filled_document].
    rewrite (gsub_copy_plain _ (match_pre_placeholder_starts_at_lt pre)
               _ _ _ Hs).
    destruct (Hpre 0 s eq_refl) as [Ht Hl]. rewrite Nat.add_0_r in Ht, Hl.
    replace ("<pre>" ++ Str.of_nat k ++ "</pre>"
             ++ numbered_document (S k) segs after)
      with (("<pre>" ++ Str.of_nat k ++ "</pre>")
            ++ numbered_document (S k) segs after)
      by (rewrite !append_assoc; reflexivity).
    rewrite (gsub_segment _ ("<pre>" ++ Str.of_nat k ++ "</pre>") _
               ("<pre>" ++ adjust_content (indent s)
                             (strip_leading_newline (content s)) ++ "</pre>")
               b b ltac:(cbn; discriminate)).
    + rewrite IH.
      * cbn [fst snd]. unfold restored_content. rewrite !append_assoc.
        reflexivity.
      * exact Hw.
      * intros p s' Hp. replace (S k + p) with (k + S p) by lia.
        apply Hpre. exact Hp.
    + replace (("<pre>" ++ Str.of_nat k ++ "</pre>")
               ++ numbered_document (S k) segs after)
        with ("<pre>" ++ Str.of_nat k ++ "</pre>"
              ++ numbered_document (S k) segs after)
        by (rewrite !append_assoc; reflexivity).
      apply match_pre_placeholder_block; assumption.
Qed.

(** ** The normalizer on a document of preformatted blocks *)

Lemma collapse_newlines_lacks (x : ascii) (t : string) :
  Str.lacks x t = true ->
  forall k,
    Str.lacks x (fst (gsub (pure_matcher match_newlines) k tt t)) = true.
Proof.
  induction t as [|c t IH]; intros Ht k; [reflexivity|].
  cbn [Str.lacks Str.forallb] in Ht. apply andb_prop in Ht.
  destruct Ht as [Hc Ht]. specialize (IH Ht).
  destruct k as [|k]; [|cbn [gsub]; apply IH].
  destruct (Ascii.eqb_spec c Char.lf) as [->|Hn].
  - rewrite (gsub_match _ _ _ _ _ _ _ (match_newlines_lf t)).
    cbn [fst append]. apply IH.
  - rewrite (gsub_no_match _ _ _ _ (match_newlines_other c t Hn)).
    cbn [fst Str.lacks Str.forallb]. rewrite Hc. apply IH.
Qed.

Lemma collapse_newlines_plain (t : string) :
  plain_text t = true -> plain_text (collapse_newlines t) = true.
Proof. intros H. apply (collapse_newlines_lacks "<" t H 0). Qed.

Lemma filled_collapsed (segs : list pre_segment) (after : string) :
  filled_document (map collapse_before segs) (collapse_newlines after)
  = restored_document segs after.
Proof.
  induction segs as [|s segs IH]; [reflexivity|].
  cbn [map filled_document restored_document]. rewrite IH. reflexivity.
Qed.

Lemma well_formed_plain (segs : list pre_segment) :
  forallb well_formed_segment segs = true ->
  forallb (fun s => plain_text (before s)) segs = true.
Proof.
  induction segs as [|s segs IH]; [reflexivity|].
  cbn [forallb]. intros H. apply andb_prop in H. destruct H as [Hs H].
  rewrite (IH H), andb_true_r. unfold well_formed_segment in Hs.
  repeat (apply andb_prop in Hs; destruct Hs as [Hs _]). exact Hs.
Qed.

Lemma collapsed_plain (segs : list pre_segment) :
  forallb (fun s => plain_text (before s)) segs = true ->
  forallb (fun s => plain_text (before s)) (map collapse_before segs) = true.
Proof.
  induction segs as [|s segs IH]; [reflexivity|].
  cbn [forallb map]. intros H. apply andb_prop in H. destruct H as [Hs H].
  rewrite (IH H), andb_true_r. cbn [collapse_before before].
  apply collapse_newlines_plain, Hs.
Qed.

Lemma nth_repeat_empty (n p : nat) :
  p < n -> nth p (repeat "" n) "undefined" = "".
Proof.
  revert p. induction n as [|n IH]; intros p Hp; [lia|].
  destruct p; [reflexivity|]. cbn. apply IH. lia.
Qed.

(** The normalizer on a document of plain text and preformatted blocks:
    every block comes back with its content restored, and the passes over
    [<br>], [span], [div] and [<p>] run over the result. *)
Lemma compressHTML_document (segs : list pre_segment) (after : string) :
  forallb well_formed_segment segs = true ->
  plain_text after = true ->
  compressHTML (source_document segs after)
  = Ok (inline_passes (restored_document segs after)).
Proof.
  intros Hw Ha. unfold compressHTML.
  rewrite (pass1_document after segs Ha Hw no_pre).
  cbn [no_pre preTags preLeadingSpaces List.length app].
  rewrite (pass2_document after segs Ha (well_formed_plain segs Hw) 0 []).
  cbn [List.length app]. rewrite pass3_document.
  pose proof (collapsed_plain segs (well_formed_plain segs Hw)) as Hp.
  pose proof (collapse_newlines_plain after Ha) as Ha'.
  rewrite (pass4_document _ _ _ Ha' Hp).
  2:{ intros p Hlen. rewrite length_map in Hlen. cbn [Nat.add].
      apply nth_repeat_empty, Hlen. }
  rewrite (pass5_document _ _ _ Ha' Hp).
  2:{ intros p s Hs. cbn [Nat.add preTags preLeadingSpaces app].
      unfold stripped_contents. rewrite nth_error_map in Hs.
      rewrite !app_nil_l, !nth_error_map.
      destruct (nth_error segs p) as [s0|]; [|discriminate Hs].
      injection Hs as <-. split; reflexivity. }
  rewrite filled_collapsed. reflexivity.
Qed.

(** ** The last passes on restored blocks without markup *)

Lemma strip_indent_lacks (x : ascii) (lead : string) (text : string) :
  Str.lacks x text = true ->
  forall bol skip, Str.lacks x (strip_indent lead bol skip text) = true.
Proof.
  induction text as [|c text IH]; intros Ht bol skip; [reflexivity|].
  cbn [Str.lacks Str.forallb] in Ht. apply andb_prop in Ht.
  destruct Ht as [Hc Ht]. specialize (IH Ht).
  cbn [strip_indent]. destruct skip as [|k]; [|apply IH].
  destruct (if bol then Str.strip_prefix lead (String c text) else None).
  - destruct (String.length lead); [|apply IH].
    cbn [Str.lacks Str.forallb]. rewrite Hc. apply IH.
  - cbn [Str.lacks Str.forallb]. rewrite Hc. apply IH.
Qed.

Lemma strip_leading_newline_lacks (x : ascii) (text : string) :
  Str.lacks x text = true -> Str.lacks x (strip_leading_newline text) = true.
Proof.
  destruct text as [|c text]; [trivial|]. cbn [strip_leading_newline].
  destruct (Ascii.eqb c Char.lf); [|trivial].
  cbn [Str.lacks Str.forallb]. intros H. apply andb_prop in H. apply H.
Qed.

Lemma restored_content_plain (s : pre_segment) :
  plain_text (content s) = true -> plain_text (restored_content s) = true.
Proof.
  intros H. unfold restored_content, adjust_content, plain_text.
  apply strip_indent_lacks, strip_leading_newline_lacks, H.
Qed.

Section Passes_over_pre.

Variable m : string -> option (string * nat).
Hypothesis m_starts_at_lt : forall c r, c <> "<"%char -> m (String c r) = None.
Hypothesis m_not_pre : forall r, m ("<pre>" ++ r) = None.
Hypothesis m_not_close : forall r, m ("</pre>" ++ r) = None.

Lemma replace_all_filled (after : string) (segs : list pre_segment) :
  plain_text after = true ->
  forallb (fun s => plain_text (before s) && plain_text (restored_content s))
    segs = true ->
  replace_all m (filled_document segs after) = filled_document segs after.
Proof.
  intros Ha. induction segs as [|s segs IH]; intros Hw.
  - exact (replace_all_id m "<" after m_starts_at_lt Ha).
  - cbn [forallb] in Hw. apply andb_prop in Hw. destruct Hw as [Hs Hw].
    apply andb_prop in Hs. destruct Hs as [Hb Hc].
    cbn [filled_document].
    rewrite (replace_all_copy_lacks m "<" _ _ m_starts_at_lt Hb).
    change ("<pre>" ++ restored_content s ++ "</pre>"
            ++ filled_document segs after)
      with (String "<" ("pre>" ++ restored_content s ++ "</pre>"
                        ++ filled_document segs after)).
    rewrite (replace_all_copy_tag m "pre>" _ m_starts_at_lt eq_refl
               (m_not_pre _)).
    rewrite (replace_all_copy_lacks m "<" _ _ m_starts_at_lt Hc).
    change ("</pre>" ++ filled_document segs after)
      with (String "<" ("/pre>" ++ filled_document segs after)).
    rewrite (replace_all_copy_tag m "/pre>" _ m_starts_at_lt eq_refl
               (m_not_close _)).
    rewrite (IH Hw). reflexivity.
Qed.

End Passes_over_pre.

Lemma match_br_starts_at_lt (c : ascii) (r : string) :
  c <> "<"%char -> match_br (String c r) = None.
Proof.
  intros H. unfold match_br. cbn [Str.strip_prefix].
  destruct (Ascii.eqb_spec "<" c) as [<-|]; [contradiction H|]; reflexivity.
Qed.

Lemma match_strip_tag_starts_at_lt (name : string) (c : ascii) (r : string) :
  c <> "<"%char -> match_strip_tag name (String c r) = None.
Proof.
  intros H. unfold match_strip_tag.
  destruct c as [[] [] [] [] [] [] [] []]; try reflexivity.
  contradiction H. reflexivity.
Qed.

Lemma match_p_starts_at_lt (c : ascii) (r : string) :
  c <> "<"%char -> match_p (String c r) = None.
Proof.
  intros H. unfold match_p. cbn [Str.strip_prefix].
  destruct (Ascii.eqb_spec "<" c) as [<-|]; [contradiction H|]; reflexivity.
Qed.

Lemma inline_passes_filled (after : string) (segs : list pre_segment) :
  plain_text after = true ->
  forallb (fun s => plain_text (before s) && plain_text (restored_content s))
    segs = true ->
  inline_passes (filled_document segs after) = filled_document segs after.
Proof.
  intros Ha Hw. unfold inline_passes.
  rewrite (replace_all_filled match_br match_br_starts_at_lt
             (fun _ => eq_refl) (fun _ => eq_refl) after segs Ha Hw).
  rewrite (replace_all_filled (match_strip_tag "span")
             (match_strip_tag_starts_at_lt "span")
             (fun _ => eq_refl) (fun _ => eq_refl) after segs Ha Hw).
  rewrite (replace_all_filled (match_strip_tag "div")
             (match_strip_tag_starts_at_lt "div")
             (fun _ => eq_refl) (fun _ => eq_refl) after segs Ha Hw).
  exact (replace_all_filled match_p match_p_starts_at_lt
           (fun _ => eq_refl) (fun _ => eq_refl) after segs Ha Hw).
Qed.

Lemma plain_collapsed_segments (segs : list pre_segment) :
  forallb well_formed_segment segs = true ->
  forallb (fun s => plain_text (content s)) segs = true ->
  forallb (fun s => plain_text (before s) && plain_text (restored_content s))
    (map collapse_before segs) = true.
Proof.
  induction segs as [|s segs IH]; [reflexivity|].
  cbn [forallb map]. intros Hw Hc.
  apply andb_prop in Hw. destruct Hw as [Hs Hw].
  apply andb_prop in Hc. destruct Hc as [Hcs Hc].
  rewrite (IH Hw Hc), andb_true_r. cbn [collapse_before before].
  unfold well_formed_segment in Hs.
  repeat (apply andb_prop in Hs; destruct Hs as [Hs _]).
  rewrite (collapse_newlines_plain _ Hs).
  exact (restored_content_plain s Hcs).
Qed.

Lemma inline_passes_restored (after : string) (segs : list pre_segment) :
  forallb well_formed_segment segs = true ->
  forallb (fun s => plain_text (content s)) segs = true ->
  plain_text after = true ->
  inline_passes (restored_document segs after) = restored_document segs after.
Proof.
  intros Hw Hc Ha. rewrite <- filled_collapsed.
  apply inline_passes_filled.
  - apply collapse_newlines_plain, Ha.
  - apply plain_collapsed_segments; assumption.
Qed.

(** ** The indentation of the lines of a block *)

Lemma blank_not_terminator (c : ascii) :
  Char.is_blank c = true -> Char.is_line_terminator c = false.
Proof.
  unfold Char.is_blank, Char.is_line_terminator. intros H.
  apply orb_prop in H. destruct H as [H|H]; apply Nat.eqb_eq in H;
    rewrite H; reflexivity.
Qed.

Lemma blank_not_lf (c : ascii) :
  Char.is_blank c = true -> Ascii.eqb c Char.lf = false.
Proof.
  intros H. destruct (Ascii.eqb_spec c Char.lf) as [->|]; [|reflexivity].
  discriminate H.
Qed.

Lemma strip_indent_line_end (lead R T : string) (bol : bool) :
  Str.forallb Char.is_blank lead = true ->
  line_end lead R T -> strip_indent lead bol 0 R = T.
Proof.
  intros Hb [[-> ->]|[rest [-> ->]]]; [reflexivity|].
  cbn [strip_indent]. change (Char.is_line_terminator Char.lf) with true.
  destruct bol; [|reflexivity].
  destruct lead as [|c lead']; [reflexivity|].
  cbn [Str.forallb] in Hb. apply andb_prop in Hb.
  destruct Hb as [Hc _]. cbn [Str.strip_prefix].
  rewrite (blank_not_lf c Hc). reflexivity.
Qed.

Lemma strip_indent_copy_line (lead line R T : string) :
  Str.forallb Char.is_blank lead = true ->
  one_line line = true -> line_end lead R T ->
  strip_indent lead false 0 (line ++ R) = line ++ T.
Proof.
  intros Hb Hl He. induction line as [|c line IH].
  - exact (strip_indent_line_end lead R T false Hb He).
  - cbn [one_line Str.forallb] in Hl. apply andb_prop in Hl.
    destruct Hl as [Hc Hl]. apply negb_true_iff in Hc.
    cbn [append strip_indent]. rewrite Hc. rewrite (IH Hl). reflexivity.
Qed.

Lemma strip_indent_skip (lead a s : string) :
  Str.forallb Char.is_blank a = true ->
  strip_indent lead false (String.length a) (a ++ s)
  = strip_indent lead false 0 s.
Proof.
  induction a as [|c a IH]; intros H; [destruct s; reflexivity|].
  cbn [Str.forallb] in H. apply andb_prop in H. destruct H as [Hc H].
  cbn [String.length append strip_indent].
  rewrite (blank_not_terminator c Hc). exact (IH H).
Qed.

Lemma strip_prefix_blank_line (lead p line R T : string) :
  Str.forallb Char.is_blank p = true -> line_end lead R T ->
  Str.strip_prefix p (line ++ R)
  = match Str.strip_prefix p line with
    | Some r => Some (r ++ R)
    | None => None
    end.
Proof.
  intros Hp He. revert line. induction p as [|c p IH]; intros line;
    [reflexivity|].
  cbn [Str.forallb] in Hp. apply andb_prop in Hp. destruct Hp as [Hc Hp].
  destruct line as [|d line].
  - cbn [append Str.strip_prefix].
    destruct He as [[-> _]|[rest [-> _]]]; [reflexivity|].
    rewrite (blank_not_lf c Hc). reflexivity.
  - cbn [append Str.strip_prefix]. destruct (Ascii.eqb c d); [|reflexivity].
    apply (IH Hp).
Qed.

Lemma strip_indent_line (lead line R T : string) :
  Str.forallb Char.is_blank lead = true ->
  one_line line = true -> line_end lead R T ->
  strip_indent lead true 0 (line ++ R) = unindent lead line ++ T.
Proof.
  intros Hb Hl He. unfold unindent.
  destruct line as [|c line].
  - cbn [append]. rewrite (strip_indent_line_end lead R T true Hb He).
    destruct (Str.strip_prefix lead "") as [r|] eqn:E; [|reflexivity].
    destruct lead; [injection E as <-; reflexivity|discriminate E].
  - pose proof (strip_prefix_blank_line lead lead (String c line) R T Hb He)
      as Hp.
    pose proof Hl as Hl'.
    cbn [one_line Str.forallb] in Hl'. apply andb_prop in Hl'.
    destruct Hl' as [Hc Hline]. apply negb_true_iff in Hc.
    fold (one_line line) in Hline.
    change (String c line ++ R) with (String c (line ++ R)) in *.
    cbn [strip_indent]. rewrite Hp, Hc.
    destruct (Str.strip_prefix lead (String c line)) as [r|] eqn:E.
    + apply strip_prefix_some in E.
      assert (Hr : one_line r = true).
      { rewrite E in Hl. unfold one_line in *. rewrite forallb_app in Hl.
        apply andb_prop in Hl. apply Hl. }
      destruct lead as [|x lead'].
      * cbn [append] in E. subst r. cbn [String.length].
        rewrite (strip_indent_copy_line "" line R T Hb Hline He).
        reflexivity.
      * cbn [append] in E. injection E as -> ->. cbn [String.length].
        cbn [Str.forallb] in Hb. pose proof Hb as Hb0.
        apply andb_prop in Hb0. destruct Hb0 as [_ Hrest].
        rewrite append_assoc.
        rewrite (strip_indent_skip (String x lead') lead' (r ++ R) Hrest).
        apply (strip_indent_copy_line (String x lead') r R T Hb Hr He).
    + rewrite (strip_indent_copy_line lead line R T Hb Hline He).
      reflexivity.
Qed.

Lemma strip_indent_lines (lead : string) (lines : list string) :
  Str.forallb Char.is_blank lead = true ->
  forallb one_line lines = true ->
  strip_indent lead true 0 (join_lines lines)
  = join_lines (map (unindent lead) lines).
Proof.
  intros Hb. induction lines as [|l lines IH]; intros H; [reflexivity|].
  cbn [forallb] in H. apply andb_prop in H. destruct H as [Hl H].
  destruct lines as [|l2 lines].
  - cbn [join_lines map]. rewrite <- (append_nil_r l) at 1.
    rewrite (strip_indent_line lead l "" "" Hb Hl); [apply append_nil_r|].
    left. split; reflexivity.
  - change (join_lines (l :: l2 :: lines))
      with (l ++ String Char.lf (join_lines (l2 :: lines))).
    rewrite (strip_indent_line lead l _
               (String Char.lf
                  (strip_indent lead true 0 (join_lines (l2 :: lines))))
               Hb Hl).
    + rewrite (IH H). reflexivity.
    + right. eexists. split; reflexivity.
Qed.

Lemma adjust_content_lines (lead : string) (lines : list string) :
  Str.forallb Char.is_blank lead = true ->
  forallb one_line lines = true ->
  adjust_content lead (join_lines lines)
  = join_lines (map (unindent lead) lines).
Proof. intros Hb Hl. apply strip_indent_lines; assumption. Qed.

(** ** Normalizing twice *)

Lemma collapse_newlines_no_lf (t : string) :
  forall k,
    Str.lacks Char.lf (fst (gsub (pure_matcher match_newlines) k tt t)) = true.
Proof.
  induction t as [|c t IH]; intros k; [reflexivity|].
  destruct k as [|k]; [|cbn [gsub]; apply IH].
  destruct (Ascii.eqb_spec c Char.lf) as [->|Hn].
  - rewrite (gsub_match _ _ _ _ _ _ _ (match_newlines_lf t)).
    cbn [fst append]. apply IH.
  - rewrite (gsub_no_match _ _ _ _ (match_newlines_other c t Hn)).
    cbn [fst Str.lacks Str.forallb].
    destruct (Ascii.eqb_spec c Char.lf); [contradiction|]. apply IH.
Qed.

Lemma compressHTML_plain (html : string) :
  plain_text html = true -> compressHTML html = Ok (collapse_newlines html).
Proof.
  intros H. pose proof (compressHTML_document [] html eq_refl H) as E.
  cbn [source_document restored_document] in E. rewrite E.
  pose proof (inline_passes_filled (collapse_newlines html) []
                (collapse_newlines_plain html H) eq_refl) as E'.
  cbn [filled_document] in E'. rewrite E'. reflexivity.
Qed.

Lemma collapse_newlines_idempotent (t : string) :
  collapse_newlines (collapse_newlines t) = collapse_newlines t.
Proof.
  apply (replace_all_id match_newlines Char.lf _ match_newlines_starts_at_lf).
  apply (collapse_newlines_no_lf t 0).
Qed.

(** ** Anchors *)

Lemma anchor_link (attribs : list (string * string)) (child : AnyNode)
  (rest : list AnyNode) (style : StyleSet) :
  parseText (Element Tag "a" attribs (child :: rest)) style
  = Ok [VObj (match child with
              | Text data =>
                  Js.set_field "text" (VStr data) (link_element style attribs)
              | _ => link_element style attribs
              end)].
Proof. rewrite parseText_tag. destruct child; reflexivity. Qed.

Lemma lookup_link_element (key : string) (style : StyleSet)
  (attribs : list (string * string)) :
  String.eqb "style" key = false ->
  lookup key (link_element style attribs)
  = lookup key [("type", VStr "link"); ("url", Js.attr "href" attribs)].
Proof. intros H. unfold link_element. apply lookup_with_style, H. Qed.

Lemma lookup_style_link_element (style : StyleSet)
  (attribs : list (string * string)) :
  lookup "style" (link_element style attribs)
  = match style with
    | [] => None
    | _ :: _ => Some (style_object style)
    end.
Proof.
  destruct style as [|kb style]; [reflexivity|].
  apply lookup_style_with_style. discriminate.
Qed.

(** C9 (defect): an anchor whose list of children is empty makes
    [parseText] throw for every accumulated style and every attribute list,
    where the claim promises one link element with its text left unset.
    An anchor with a first child yields one link element: its [url] is the
    [href] attribute, its [style] is the accumulated style when that has a
    key and is absent otherwise, its [text] is the data of the first child
    when that is a text node and is absent otherwise; nothing below the
    first child and no later child is looked at. *)
Theorem anchor_link_or_throw :
  (forall (attribs : list (string * string)) (style : StyleSet),
      parseText (Element Tag "a" attribs []) style = Throw TypeError)
  /\ (forall attribs child rest style,
         exists link,
           parseText (Element Tag "a" attribs (child :: rest)) style
           = Ok [link]
           /\ Js.get "type" link = VStr "link"
           /\ Js.get "url" link = Js.attr "href" attribs
           /\ Js.get "style" link
              = match style with
                | [] => VUndefined
                | _ :: _ => style_object style
                end
           /\ Js.has "style" link
              = match style with
                | [] => false
                | _ :: _ => true
                end
           /\ Js.get "text" link
              = match child with
                | Text data => VStr data
                | _ => VUndefined
                end
           /\ Js.has "text" link
              = match child with
                | Text _ => true
                | _ => false
                end).
Proof.
  split; [intros attribs style; apply parseText_empty_anchor|].
  intros attribs child rest style. eexists. split; [apply anchor_link|].
  assert (Hsty : forall key x fields,
             String.eqb "text" key = false ->
             lookup key (Js.set_field "text" x fields) = lookup key fields)
    by (intros key x fields H; apply lookup_set_field_other, H).
  destruct child; cbn [Js.get Js.has];
    rewrite ?lookup_set_field_same, ?Hsty by reflexivity;
    rewrite ?lookup_style_link_element, ?lookup_link_element by reflexivity;
    cbn [lookup];
    repeat split; try reflexivity; destruct style; reflexivity.
Qed.

(** * Further properties *)

(** ** When the walk throws *)

Lemma is_ok_text_of_children (st : StyleSet) (cs : list AnyNode) :
  Forall (fun c => forall style,
              is_ok (parseText c style) = negb (text_reaches_empty_anchor c))
    cs ->
  is_ok (text_of_children st cs)
  = negb (existsb text_reaches_empty_anchor cs).
Proof.
  induction 1 as [|c cs Hc _ IH]; [reflexivity|].
  cbn [text_of_children existsb]. specialize (Hc st).
  destruct (parseText c st) as [ts|e]; cbn [bind is_ok] in *.
  - apply (f_equal negb) in Hc. rewrite negb_involutive in Hc.
    rewrite <- Hc. cbn [negb orb].
    destruct (text_of_children st cs); exact IH.
  - apply (f_equal negb) in Hc. rewrite negb_involutive in Hc.
    rewrite <- Hc. reflexivity.
Qed.

Lemma is_ok_parseText (node : AnyNode) :
  forall style,
    is_ok (parseText node style) = negb (text_reaches_empty_anchor node).
Proof.
  induction node as [data|data|name data|children IH|type name attribs children IH]
    using AnyNode_tree_ind; intros style; try reflexivity.
  destruct type; try reflexivity.
  rewrite parseText_tag. cbn [text_reaches_empty_anchor].
  destruct (String.eqb name "a").
  - destruct children as [|[data| | | |] rest]; reflexivity.
  - apply is_ok_text_of_children, IH.
Qed.

Lemma is_ok_walk_children (cs : list AnyNode) :
  Forall (fun c => is_ok (parseNode c) = negb (walk_reaches_empty_anchor c))
    cs ->
  forall block,
    is_ok (walk_children cs block)
    = negb (existsb walk_reaches_empty_anchor cs).
Proof.
  induction 1 as [|c cs Hc _ IH]; intros block; [reflexivity|].
  cbn [walk_children existsb].
  destruct (parseNode c) as [v|e]; cbn [bind is_ok] in *;
    apply (f_equal negb) in Hc; rewrite negb_involutive in Hc;
    rewrite <- Hc; [apply IH|reflexivity].
Qed.

Lemma is_ok_parseNode (node : AnyNode) :
  is_ok (parseNode node) = negb (walk_reaches_empty_anchor node).
Proof.
  induction node as [data|data|name data|children IH|type name attribs children IH]
    using AnyNode_tree_ind; try reflexivity.
  destruct type; try reflexivity.
  rewrite parseNode_tag. cbn [walk_reaches_empty_anchor].
  destruct (name_in inline_names name).
  - rewrite <- (is_ok_parseText (Element Tag name attribs children) []).
    destruct (parseText (Element Tag name attribs children) []); reflexivity.
  - destruct (name_in heading_names name); [reflexivity|].
    apply is_ok_walk_children, IH.
Qed.

Lemma is_ok_parseBlocks (nodes : list AnyNode) :
  is_ok (parseBlocks nodes) = negb (existsb walk_reaches_empty_anchor nodes).
Proof.
  induction nodes as [|node rest IH]; [reflexivity|].
  cbn [parseBlocks existsb]. pose proof (is_ok_parseNode node) as Hn.
  destruct (parseNode node) as [v|e]; cbn [bind is_ok] in *;
    apply (f_equal negb) in Hn; rewrite negb_involutive in Hn;
    rewrite <- Hn; [|reflexivity].
  cbn [negb orb]. destruct (parseBlocks rest); exact IH.
Qed.

Lemma throw_iff_not_ok {A : Type} (r : result A) :
  r = Throw TypeError <-> is_ok r = false.
Proof.
  destruct r as [a|e]; cbn [is_ok]; split; try discriminate.
  - reflexivity.
  - intros _. rewrite (error_is_TypeError e). reflexivity.
Qed.

(** ** The elements of a container *)

Lemma set_field_same (key : string) (x : value)
  (fields : list (string * value)) :
  lookup key fields = Some x -> Js.set_field key x fields = fields.
Proof.
  induction fields as [|[k y] fields IH]; [discriminate|].
  cbn [lookup Js.set_field]. destruct (String.eqb k key).
  - intros H. injection H as ->. reflexivity.
  - intros H. rewrite (IH H). reflexivity.
Qed.

Lemma set_field_twice (key : string) (x y : value)
  (fields : list (string * value)) :
  Js.set_field key x (Js.set_field key y fields) = Js.set_field key x fields.
Proof.
  induction fields as [|[k z] fields IH]; cbn [Js.set_field].
  - rewrite String.eqb_refl. reflexivity.
  - destruct (String.eqb k key) eqn:E; cbn [Js.set_field]; rewrite E;
      [reflexivity|]. rewrite IH. reflexivity.
Qed.

Lemma filter_twice {A : Type} (f : A -> bool) (l : list A) :
  filter f (filter f l) = filter f l.
Proof.
  induction l as [|x l IH]; [reflexivity|]. cbn [filter].
  destruct (f x) eqn:E; [|exact IH]. cbn [filter]. rewrite E, IH.
  reflexivity.
Qed.

Lemma truthy_append_child (block childObj : value) :
  Js.truthy block = true -> Js.truthy (append_child block childObj) = true.
Proof.
  intros H. unfold append_child.
  destruct (Js.truthy childObj && Js.has "elements" block); [|exact H].
  destruct block; first [exact H|reflexivity].
Qed.

Lemma truthy_walk_children (cs : list AnyNode) :
  forall block v,
    walk_children cs block = Ok v -> Js.truthy block = true ->
    Js.truthy v = true.
Proof.
  induction cs as [|c cs IH]; intros block v H Hb.
  - injection H as <-. exact Hb.
  - cbn [walk_children] in H.
    destruct (parseNode c) as [cv|]; [|discriminate H]. cbn [bind] in H.
    apply (IH _ _ H), truthy_append_child, Hb.
Qed.

Lemma truthy_open_block (name : string) (attribs : list (string * string)) :
  Js.truthy (open_block name attribs) = true.
Proof.
  unfold open_block, container, Js.set.
  repeat match goal with
         | |- context [if ?b then _ else _] => destruct b
         end; reflexivity.
Qed.

(** Every value of [parseNode] is an object or an array. *)
Lemma truthy_parseNode (node : AnyNode) (v : value) :
  parseNode node = Ok v -> Js.truthy v = true.
Proof.
  destruct node as [data|data|name data|children|type name attribs children];
    intros H; try (injection H as <-; reflexivity).
  destruct type; try (injection H as <-; reflexivity).
  rewrite parseNode_tag in H. destruct (name_in inline_names name).
  - destruct (parseText _ []); [|discriminate H].
    injection H as <-. reflexivity.
  - destruct (name_in heading_names name).
    + injection H as <-. unfold parseHeader. cbn [children_of].
      destruct children as [|[d| | | |] rest]; try reflexivity.
      destruct (String.eqb d ""); reflexivity.
    + apply (truthy_walk_children _ _ _ H), truthy_open_block.
Qed.

Lemma has_elements (fields : list (string * value)) (x : value) :
  lookup "elements" fields = Some x -> Js.has "elements" (VObj fields) = true.
Proof. intros H. cbn [Js.has]. rewrite H. reflexivity. Qed.

(** The filter after every push comes to one filter over all that was
    pushed. *)
Lemma walk_children_elements (cs : list AnyNode) :
  forall fields E,
    lookup "elements" fields = Some (VArr E) ->
    filter has_keys E = E ->
    walk_children cs (VObj fields)
    = vs <- parse_each cs ;;
      Ok (VObj (Js.set_field "elements"
                  (VArr (filter has_keys (E ++ flat_map spread vs)%list))
                  fields)).
Proof.
  induction cs as [|c cs IH]; intros fields E Hl Hf.
  - cbn [walk_children parse_each bind flat_map]. rewrite app_nil_r, Hf.
    rewrite (set_field_same _ _ _ Hl). reflexivity.
  - cbn [walk_children parse_each].
    destruct (parseNode c) as [v|e] eqn:Ec; [|reflexivity]. cbn [bind].
    unfold append_child. rewrite (truthy_parseNode c v Ec).
    rewrite (has_elements fields _ Hl). cbn [andb Js.get Js.set].
    rewrite Hl. cbn [Js.items]. fold (spread v).
    rewrite (IH _ (filter has_keys (E ++ spread v)%list)
               (lookup_set_field_same _ _) (filter_twice _ _)).
    destruct (parse_each cs) as [vs|e]; [|reflexivity]. cbn [bind flat_map].
    rewrite set_field_twice, filter_app, filter_twice, <- filter_app.
    rewrite <- app_assoc. reflexivity.
Qed.

(** A block without [elements] is left as it is by its children. *)
Lemma walk_children_leaf (cs : list AnyNode) (block : value) :
  Js.has "elements" block = false ->
  walk_children cs block = _ <- parse_each cs ;; Ok block.
Proof.
  intros Hb. induction cs as [|c cs IH]; [reflexivity|].
  cbn [walk_children parse_each].
  destruct (parseNode c) as [v|e]; [|reflexivity]. cbn [bind].
  unfold append_child. rewrite Hb, andb_false_r, IH.
  destruct (parse_each cs); reflexivity.
Qed.

Lemma container_not_inline_nor_heading (name : string) :
  name_in container_names name = true ->
  name_in inline_names name = false /\ name_in heading_names name = false.
Proof.
  unfold container_names. rewrite !name_in_cons. cbn [name_in existsb].
  intros H.
  repeat (apply orb_prop in H; destruct H as [H|H];
          [apply String.eqb_eq in H; subst name; split; reflexivity|]).
  discriminate H.
Qed.

Lemma container_open_block (name : string) (attribs : list (string * string)) :
  name_in container_names name = true ->
  exists fields,
    open_block name attribs = VObj fields
    /\ lookup "elements" fields = Some (VArr []).
Proof.
  unfold container_names. rewrite !name_in_cons. cbn [name_in existsb].
  intros H.
  repeat (apply orb_prop in H; destruct H as [H|H];
          [apply String.eqb_eq in H; subst name; eexists;
           split; reflexivity|]).
  discriminate H.
Qed.

Lemma parseNode_container (name : string) (attribs : list (string * string))
  (children : list AnyNode) :
  name_in container_names name = true ->
  parseNode (Element Tag name attribs children)
  = vs <- parse_each children ;;
    Ok (Js.set "elements"
          (VArr (filter has_keys (flat_map spread vs)))
          (open_block name attribs)).
Proof.
  intros H. destruct (container_not_inline_nor_heading name H) as [Hi Hh].
  destruct (container_open_block name attribs H) as [fields [Ho Hl]].
  rewrite parseNode_tag, Hi, Hh, Ho.
  rewrite (walk_children_elements children fields [] Hl eq_refl).
  reflexivity.
Qed.

(** X2: for each of the tags [ul], [ol], [li], [pre], [blockquote] and [p]
    the [elements] of the block are the values of the children in document
    order, an array-valued child giving its items and any other child
    itself, with the values that have no key left out; filtering after
    every push comes to filtering once.  The other fields are those the tag
    opened the block with, and the block is there only when no child
    throws. *)
Theorem container_elements_in_order :
  forall name attribs children,
    name_in container_names name = true ->
    parseNode (Element Tag name attribs children)
    = vs <- parse_each children ;;
      Ok (Js.set "elements"
            (VArr (filter has_keys (flat_map spread vs)))
            (open_block name attribs)).
Proof. intros name attribs children H. apply parseNode_container, H. Qed.

Lemma container_elements_in_order_witness :
  parseNode (Element Tag "p" []
               [Text "Hello "; Comment "c"; Element Tag "b" [] [Text "world"]])
  = vs <- parse_each
            [Text "Hello "; Comment "c"; Element Tag "b" [] [Text "world"]] ;;
    Ok (Js.set "elements"
          (VArr (filter has_keys (flat_map spread vs)))
          (open_block "p" [])).
Proof.
  apply (container_elements_in_order "p" []
           [Text "Hello "; Comment "c"; Element Tag "b" [] [Text "world"]]).
  reflexivity.
Defined.

(** ** Children that leave no trace *)

Lemma tidy_open_block (name : string) (attribs : list (string * string)) :
  tidy (open_block name attribs).
Proof.
  unfold tidy, open_block, container, Js.set.
  repeat match goal with
         | |- context [if ?b then _ else _] => destruct b
         end;
    first [left; reflexivity
          |right; eexists; exists []; repeat split; reflexivity].
Qed.

Lemma tidy_append_child (block childObj : value) :
  tidy block -> tidy (append_child block childObj).
Proof.
  intros [Hb|[fields [E [-> [Hl Hf]]]]]; unfold append_child.
  - rewrite Hb, andb_false_r. left. exact Hb.
  - destruct (Js.truthy childObj && Js.has "elements" (VObj fields)).
    + right. cbn [Js.set]. eexists. eexists. split; [reflexivity|]. split.
      * apply lookup_set_field_same.
      * apply filter_twice.
    + right. exists fields, E. repeat split; assumption.
Qed.

Lemma append_child_empty_object (block : value) :
  tidy block -> append_child block Js.empty = block.
Proof.
  intros [Hb|[fields [E [-> [Hl Hf]]]]]; unfold append_child.
  - rewrite Hb, andb_false_r. reflexivity.
  - rewrite (has_elements fields _ Hl). cbn [Js.truthy Js.empty andb].
    cbn [Js.isArray Js.get Js.set]. rewrite Hl. cbn [Js.items].
    rewrite filter_app. cbn [filter has_keys Js.keys_length List.length].
    cbn [Nat.eqb negb]. rewrite app_nil_r, Hf.
    rewrite (set_field_same _ _ _ Hl). reflexivity.
Qed.

Lemma walk_children_skip_empty (c : AnyNode) (cs1 cs2 : list AnyNode) :
  parseNode c = Ok Js.empty ->
  forall block,
    tidy block ->
    walk_children (cs1 ++ c :: cs2) block = walk_children (cs1 ++ cs2) block.
Proof.
  intros Hc. induction cs1 as [|c1 cs1 IH]; intros block Hb.
  - rewrite !app_nil_l. cbn [walk_children]. rewrite Hc. cbn [bind].
    rewrite (append_child_empty_object block Hb). reflexivity.
  - rewrite <- !app_comm_cons. cbn [walk_children].
    destruct (parseNode c1) as [v|e]; [|reflexivity].
    cbn [bind]. apply IH, tidy_append_child, Hb.
Qed.

(** X3: a child whose value is the empty object (a comment, a directive, a
    [script] or [style] element, a tag without a case whose own children
    parse, a heading without text) leaves no trace in a block: the block of
    a tag that is neither an inline tag nor a heading is the same with and
    without that child, at whatever place among the children it stands. *)
Theorem empty_child_leaves_no_trace :
  (forall name attribs c cs1 cs2,
      name_in inline_names name = false ->
      name_in heading_names name = false ->
      parseNode c = Ok Js.empty ->
      parseNode (Element Tag name attribs (cs1 ++ c :: cs2))
      = parseNode (Element Tag name attribs (cs1 ++ cs2)))
  /\ (forall data, parseNode (Comment data) = Ok Js.empty)
  /\ (forall name data, parseNode (Directive name data) = Ok Js.empty)
  /\ (forall children, parseNode (CDATA children) = Ok Js.empty)
  /\ (forall name attribs children,
         parseNode (Element Script name attribs children) = Ok Js.empty
         /\ parseNode (Element Style name attribs children) = Ok Js.empty).
Proof.
  split; [|repeat split].
  intros name attribs c cs1 cs2 Hi Hh Hc.
  rewrite !parseNode_tag, Hi, Hh.
  apply (walk_children_skip_empty c cs1 cs2 Hc), tidy_open_block.
Qed.

Lemma empty_child_leaves_no_trace_witness :
  parseNode (Element Tag "p" [] ([Text "a"] ++ Comment "note" :: [Text "b"]))
  = parseNode (Element Tag "p" [] ([Text "a"] ++ [Text "b"])).
Proof.
  apply (proj1 empty_child_leaves_no_trace "p" [] (Comment "note")
           [Text "a"] [Text "b"]); reflexivity.
Defined.

(** ** Images *)

Lemma parseNode_leaf (name : string) (attribs : list (string * string))
  (children : list AnyNode) :
  name_in inline_names name = false ->
  name_in heading_names name = false ->
  Js.has "elements" (open_block name attribs) = false ->
  parseNode (Element Tag name attribs children)
  = _ <- parse_each children ;; Ok (open_block name attribs).
Proof.
  intros Hi Hh Hb. rewrite parseNode_tag, Hi, Hh.
  apply walk_children_leaf, Hb.
Qed.

Lemma has_set_other (key key' : string) (x v : value) :
  String.eqb key' key = false ->
  Js.has key (Js.set key' x v) = Js.has key v.
Proof.
  intros H. destruct v; try reflexivity. cbn [Js.set Js.has].
  rewrite (lookup_set_field_other key key' x fields H). reflexivity.
Qed.

Lemma get_set_other (key key' : string) (x v : value) :
  String.eqb key' key = false ->
  Js.get key (Js.set key' x v) = Js.get key v.
Proof.
  intros H. destruct v; try reflexivity. cbn [Js.set Js.get].
  rewrite (lookup_set_field_other key key' x fields H). reflexivity.
Qed.

(** X4: an [img] tag becomes an image block made from its attributes
    alone: its children are parsed (so that a throw among them still
    throws) but nothing of them is kept.  [image_url] is the [src]
    attribute, [undefined] when there is none; [alt_text] is always a
    string, the [alt] attribute or the empty string; [title] is present
    exactly when the [title] attribute is a non-empty string, and then
    holds it as plain text. *)
Theorem image_block_from_attributes :
  forall attribs children,
    parseNode (Element Tag "img" attribs children)
    = (_ <- parse_each children ;; Ok (open_block "img" attribs))
    /\ Js.has "elements" (open_block "img" attribs) = false
    /\ Js.get "type" (open_block "img" attribs) = VStr "image"
    /\ Js.get "image_url" (open_block "img" attribs) = Js.attr "src" attribs
    /\ Js.get "alt_text" (open_block "img" attribs)
       = VStr (match lookup "alt" attribs with
               | Some alt => alt
               | None => ""
               end)
    /\ Js.has "title" (open_block "img" attribs)
       = match lookup "title" attribs with
         | Some title => negb (String.eqb title "")
         | None => false
         end
    /\ (forall title,
           lookup "title" attribs = Some title -> title <> "" ->
           Js.get "title" (open_block "img" attribs)
           = VObj [("type", VStr "plain_text"); ("text", VStr title)]).
Proof.
  intros attribs children.
  assert (Hopen : open_block "img" attribs
                  = let block :=
                      VObj [("type", VStr "image");
                            ("image_url", Js.attr "src" attribs);
                            ("alt_text",
                             if Js.truthy (Js.attr "alt" attribs)
                             then Js.attr "alt" attribs else VStr "")] in
                    if Js.truthy (Js.attr "title" attribs)
                    then Js.set "title"
                           (VObj [("type", VStr "plain_text");
                                  ("text", Js.attr "title" attribs)]) block
                    else block) by reflexivity.
  assert (Hel : Js.has "elements" (open_block "img" attribs) = false).
  { rewrite Hopen. cbv zeta.
    destruct (Js.truthy (Js.attr "title" attribs)); reflexivity. }
  split; [apply parseNode_leaf; [reflexivity|reflexivity|exact Hel]|].
  split; [exact Hel|]. rewrite Hopen. cbv zeta. unfold Js.attr.
  destruct (lookup "title" attribs) as [title|];
    destruct (lookup "alt" attribs) as [alt|];
    cbn [Js.truthy];
    try destruct (String.eqb_spec title ""); try destruct (String.eqb_spec alt "");
    subst; cbn [negb];
    repeat split; try reflexivity; try discriminate;
    try (intros t Ht Hn; injection Ht as <-; first [contradiction|reflexivity]).
Qed.

(** ** Lists and their indent *)

Lemma read_digits_uint (d : uint) :
  forall a,
    Js.read_digits 10 (Some (Z.of_nat a)) (NilEmpty.string_of_uint d)
    = Some (Z.of_nat (Nat.of_uint_acc d a)).
Proof.
  induction d; intros a; cbn [NilEmpty.string_of_uint Nat.of_uint_acc];
    [reflexivity|..]; cbn [Js.read_digits];
    match goal with
    | |- context [Js.digit_in 10 ?c] =>
        let v := eval vm_compute in (Js.digit_in 10 c) in
        change (Js.digit_in 10 c) with v
    end; cbv iota; rewrite <- IHd;
    match goal with
    | |- Js.read_digits 10 (Some ?x) _ = Js.read_digits 10 (Some ?y) _ =>
        replace x with y; [reflexivity|rewrite Nat.tail_mul_spec; lia]
    end.
Qed.

Lemma parseInt_first_digit (c : ascii) (s : string) (k : Z) :
  Js.digit_in 10 c = Some k ->
  (c = "0"%char ->
   match s with
   | String "x" _ => False
   | String "X" _ => False
   | _ => True
   end) ->
  Js.parseInt (VStr (String c s))
  = match Js.read_digits 10 (Some k) s with
    | Some n => VNum n
    | None => VNaN
    end.
Proof.
  intros Hk H0.
  assert (Hc : In c ["0"; "1"; "2"; "3"; "4"; "5"; "6"; "7"; "8"; "9"]%char).
  { unfold Js.digit_in, Js.hex_digit in Hk.
    destruct c as [[] [] [] [] [] [] [] []]; try discriminate Hk;
      cbn; tauto. }
  assert (Hnz : forall c' s',
             Char.is_space c' = false ->
             match String c' s' with
             | String "+"%char r => (1%Z, r)
             | String "-"%char r => ((-1)%Z, r)
             | _ => (1%Z, String c' s')
             end = (1%Z, String c' s') ->
             match String c' s' with
             | String "0"%char (String "x"%char r)
             | String "0"%char (String "X"%char r) => (16%Z, r)
             | _ => (10%Z, String c' s')
             end = (10%Z, String c' s') ->
             Js.digit_in 10 c' = Some k ->
             Js.parseInt (VStr (String c' s'))
             = match Js.read_digits 10 (Some k) s' with
               | Some n => VNum n
               | None => VNaN
               end).
  { intros c' s' Hsp Hsign Hradix Hd. unfold Js.parseInt.
    cbn [Str.span]. rewrite Hsp, Hsign, Hradix. cbn [Js.read_digits].
    rewrite Hd. destruct (Js.read_digits 10 (Some k) s'); [|reflexivity].
    rewrite Z.mul_1_l. reflexivity. }
  cbn [In] in Hc.
  destruct Hc as [<-|Hc].
  { apply Hnz; [reflexivity|reflexivity| |exact Hk].
    specialize (H0 eq_refl). destruct s as [|c2 s2]; [reflexivity|].
    destruct c2 as [[] [] [] [] [] [] [] []]; try reflexivity;
      contradiction. }
  repeat (destruct Hc as [<-|Hc];
          [apply Hnz; [reflexivity|reflexivity|reflexivity|exact Hk]|]).
  destruct Hc.
Qed.

Lemma parseInt_uint (d : uint) :
  d <> Nil ->
  Js.parseInt (VStr (NilEmpty.string_of_uint d))
  = VNum (Z.of_nat (Nat.of_uint d)).
Proof.
  intros Hd. unfold Nat.of_uint.
  assert (Hx : forall d',
             match NilEmpty.string_of_uint d' with
             | String "x" _ => False
             | String "X" _ => False
             | _ => True
             end) by (intros d'; destruct d'; exact I).
  destruct d as [|d|d|d|d|d|d|d|d|d|d]; [contradiction|..];
    cbn [NilEmpty.string_of_uint Nat.of_uint_acc];
    match goal with
    | |- Js.parseInt (VStr (String ?c _)) = _ =>
        let v := eval vm_compute in (Js.digit_in 10 c) in
        match v with
        | Some ?k =>
            rewrite (parseInt_first_digit c _ k eq_refl (fun _ => Hx d));
            let n := eval vm_compute in (Z.to_nat k) in
            change k with (Z.of_nat n)
        end
    end;
    rewrite read_digits_uint; reflexivity.
Qed.

Lemma to_uint_not_nil (n : nat) : Nat.to_uint n <> Nil.
Proof.
  intros Hn. pose proof (DecimalNat.Unsigned.of_to n) as E.
  rewrite Hn in E. cbn in E. subst n. discriminate Hn.
Qed.

(** [parseInt] reads back the decimal numeral of a natural number. *)
Lemma parseInt_of_nat (n : nat) :
  Js.parseInt (VStr (Str.of_nat n)) = VNum (Z.of_nat n).
Proof.
  unfold Str.of_nat. rewrite (parseInt_uint _ (to_uint_not_nil n)).
  rewrite DecimalNat.Unsigned.of_to. reflexivity.
Qed.

(** X5: a [ul] or [ol] tag becomes a [rich_text_list] block whose [style]
    is [bullet] for [ul] and [ordered] for [ol], and whose [indent] is
    [parseInt] of the [indent] attribute: not-a-number when the attribute
    is missing, and the number [n] when the attribute is the decimal
    numeral of a natural number [n] up to 2^53, the range in which a
    JavaScript number holds every integer and [parseInt] reads the numeral
    back without rounding. *)
Theorem list_block_style_and_indent :
  (forall n,
      (Z.of_nat n <= 2 ^ 53)%Z ->
      Js.parseInt (VStr (Str.of_nat n)) = VNum (Z.of_nat n))
  /\ (forall name attribs children v,
         In name ["ul"; "ol"] ->
         parseNode (Element Tag name attribs children) = Ok v ->
         Js.get "type" v = VStr "rich_text_list"
         /\ Js.get "style" v
            = VStr (if String.eqb name "ul" then "bullet" else "ordered")
         /\ Js.get "indent" v
            = match lookup "indent" attribs with
              | Some text => Js.parseInt (VStr text)
              | None => VNaN
              end)
  /\ (forall name attribs children v n,
         In name ["ul"; "ol"] ->
         (Z.of_nat n <= 2 ^ 53)%Z ->
         lookup "indent" attribs = Some (Str.of_nat n) ->
         parseNode (Element Tag name attribs children) = Ok v ->
         Js.get "indent" v = VNum (Z.of_nat n)).
Proof.
  assert (Hlist : forall name attribs children v,
             In name ["ul"; "ol"] ->
             parseNode (Element Tag name attribs children) = Ok v ->
             Js.get "type" v = VStr "rich_text_list"
             /\ Js.get "style" v
                = VStr (if String.eqb name "ul" then "bullet" else "ordered")
             /\ Js.get "indent" v
                = match lookup "indent" attribs with
                  | Some text => Js.parseInt (VStr text)
                  | None => VNaN
                  end).
  { intros name attribs children v Hn Hv.
    assert (Hc : name_in container_names name = true)
      by (destruct Hn as [<-|[<-|[]]]; reflexivity).
    rewrite (parseNode_container name attribs children Hc) in Hv.
    destruct (parse_each children) as [vs|]; [|discriminate Hv].
    injection Hv as <-. rewrite !get_set_other by reflexivity.
    assert (Hattr : Js.parseInt (Js.attr "indent" attribs)
                    = match lookup "indent" attribs with
                      | Some text => Js.parseInt (VStr text)
                      | None => VNaN
                      end)
      by (unfold Js.attr; destruct (lookup "indent" attribs); reflexivity).
    rewrite <- Hattr.
    destruct Hn as [<-|[<-|[]]]; repeat split; reflexivity. }
  split; [intros n _; apply parseInt_of_nat|]. split; [exact Hlist|].
  intros name attribs children v n Hn _ Hl Hv.
  destruct (Hlist name attribs children v Hn Hv) as [_ [_ Hi]].
  rewrite Hi, Hl. apply parseInt_of_nat.
Qed.

Lemma list_block_style_and_indent_witness :
  (Js.get "type"
     (VObj [("type", VStr "rich_text_list"); ("style", VStr "ordered");
            ("elements", VArr []); ("indent", VNum 2)])
   = VStr "rich_text_list"
   /\ Js.get "style"
        (VObj [("type", VStr "rich_text_list"); ("style", VStr "ordered");
               ("elements", VArr []); ("indent", VNum 2)])
      = VStr (if String.eqb "ol" "ul" then "bullet" else "ordered")
   /\ Js.get "indent"
        (VObj [("type", VStr "rich_text_list"); ("style", VStr "ordered");
               ("elements", VArr []); ("indent", VNum 2)])
      = match lookup "indent" [("indent", "2")] with
        | Some text => Js.parseInt (VStr text)
        | None => VNaN
        end)
  /\ Js.get "indent"
       (VObj [("type", VStr "rich_text_list"); ("style", VStr "bullet");
              ("elements", VArr []); ("indent", VNum 12)])
     = VNum (Z.of_nat 12)
  /\ Js.parseInt (VStr (Str.of_nat 7)) = VNum (Z.of_nat 7).
Proof.
  split; [|split].
  - apply (proj1 (proj2 list_block_style_and_indent) "ol" [("indent", "2")]
             []); [cbn; tauto|reflexivity].
  - apply (proj2 (proj2 list_block_style_and_indent) "ul" [("indent", "12")]
             [] _ 12);
      [cbn; tauto|vm_compute; discriminate|reflexivity|reflexivity].
  - apply (proj1 list_block_style_and_indent 7). vm_compute. discriminate.
Defined.

(** ** Style objects in the output *)

Lemma forallb_pair_set_field (g : string * value -> bool) (key : string)
  (x : value) (fields : list (string * value)) :
  g (key, x) = true -> forallb g fields = true ->
  forallb g (Js.set_field key x fields) = true.
Proof.
  intros Hx. induction fields as [|[k y] fields IH]; cbn [Js.set_field forallb].
  - intros _. rewrite Hx. reflexivity.
  - intros H. apply andb_prop in H. destruct H as [Hy Hf].
    destruct (String.eqb_spec k key) as [->|]; cbn [forallb].
    + rewrite Hx. exact Hf.
    + rewrite Hy. exact (IH Hf).
Qed.

Lemma flags_on_set_flag (key : string) (style : StyleSet) :
  name_in flag_names key = true -> flags_on style = true ->
  flags_on (set_flag key style) = true.
Proof.
  intros Hk. unfold flags_on.
  induction style as [|[k b] style IH]; cbn [set_flag forallb fst snd].
  - intros _. rewrite Hk. reflexivity.
  - intros H. apply andb_prop in H. destruct H as [Hb Hs].
    destruct (String.eqb k key); cbn [forallb fst snd].
    + apply andb_prop in Hb. destruct Hb as [Hn _]. rewrite Hn, Hs.
      reflexivity.
    + rewrite Hb. exact (IH Hs).
Qed.

Lemma flags_on_update_style (name : string) (style : StyleSet) :
  flags_on style = true -> flags_on (update_style name style) = true.
Proof.
  intros H. unfold update_style.
  repeat match goal with
         | |- context [if ?b then _ else _] => destruct b
         end; try exact H; apply flags_on_set_flag; first [reflexivity|exact H].
Qed.

Lemma flag_name_not_style (k : string) :
  name_in flag_names k = true -> String.eqb k "style" = false.
Proof.
  unfold flag_names. rewrite !name_in_cons. cbn [name_in existsb]. intros H.
  repeat (apply orb_prop in H; destruct H as [H|H];
          [apply String.eqb_eq in H; subst k; reflexivity|]).
  discriminate H.
Qed.

Lemma forallb_flag_true (style : StyleSet) :
  flags_on style = true ->
  forallb flag_true (map (fun kb => (fst kb, VBool (snd kb))) style) = true.
Proof.
  unfold flags_on. induction style as [|[k b] style IH]; [reflexivity|].
  cbn [forallb fst snd map]. intros H. apply andb_prop in H.
  destruct H as [Hk Hs]. apply andb_prop in Hk. destruct Hk as [Hk Hb].
  unfold flag_true at 1. cbn [fst snd]. rewrite Hk, Hb. exact (IH Hs).
Qed.

Lemma style_object_ok (style : StyleSet) :
  flags_on style = true ->
  styles_ok (style_object style) = true
  /\ (style <> [] -> style_value_ok (style_object style) = true).
Proof.
  intros H. split.
  - unfold flags_on in H. unfold style_object. cbn [styles_ok].
    induction style as [|[k b] style IH]; [reflexivity|].
    cbn [forallb fst snd map] in *. apply andb_prop in H.
    destruct H as [Hk Hs]. apply andb_prop in Hk. destruct Hk as [Hk _].
    rewrite (flag_name_not_style k Hk). cbn [andb styles_ok].
    exact (IH Hs).
  - intros Hn. pose proof (forallb_flag_true style H) as Hf.
    unfold style_object. destruct style as [|kb style]; [contradiction|].
    exact Hf.
Qed.

Lemma styles_ok_with_style (style : StyleSet)
  (fields : list (string * value)) :
  flags_on style = true ->
  styles_ok (VObj fields) = true ->
  styles_ok (VObj (with_style style fields)) = true.
Proof.
  intros Hs Hf. destruct (style_object_ok style Hs) as [H1 H2].
  destruct style as [|kb rest]; [exact Hf|].
  assert (Hn : kb :: rest <> []) by discriminate.
  change (forallb (field_ok styles_ok)
            (Js.set_field "style" (style_object (kb :: rest)) fields) = true).
  apply forallb_pair_set_field; [|exact Hf].
  unfold field_ok. rewrite String.eqb_refl, (H2 Hn), H1. reflexivity.
Qed.

Lemma styles_ok_set_plain (key : string) (x : value)
  (fields : list (string * value)) :
  String.eqb key "style" = false -> styles_ok x = true ->
  styles_ok (VObj fields) = true ->
  styles_ok (VObj (Js.set_field key x fields)) = true.
Proof.
  intros Hk Hx Hf.
  change (forallb (field_ok styles_ok) (Js.set_field key x fields) = true).
  apply forallb_pair_set_field; [|exact Hf].
  cbn [field_ok]. rewrite Hk, Hx. reflexivity.
Qed.

Lemma styles_ok_attr (key : string) (attribs : list (string * string)) :
  styles_ok (Js.attr key attribs) = true.
Proof. unfold Js.attr. destruct (lookup key attribs); reflexivity. Qed.

Lemma styles_ok_parseText (node : AnyNode) :
  forall style ts,
    flags_on style = true ->
    parseText node style = Ok ts -> forallb styles_ok ts = true.
Proof.
  induction node as [data|data|name data|children IH|type name attribs children IH]
    using AnyNode_tree_ind; intros style ts Hs H;
    try solve [injection H as <-; reflexivity].
  - rewrite parseText_text in H. injection H as <-. cbn [forallb].
    unfold text_element.
    rewrite (styles_ok_with_style style
               [("type", VStr "text"); ("text", VStr (text_of_data data))]
               Hs eq_refl).
    reflexivity.
  - destruct type; try solve [injection H as <-; reflexivity].
    rewrite parseText_tag in H.
    pose proof (flags_on_update_style name style Hs) as Hs'.
    assert (Hlink : styles_ok (VObj (link_element (update_style name style)
                                       attribs)) = true).
    { unfold link_element. apply styles_ok_with_style; [exact Hs'|].
      cbn [styles_ok forallb String.eqb]. cbn.
      rewrite styles_ok_attr. reflexivity. }
    destruct (String.eqb name "a").
    + destruct children as [|[data| | | |] rest]; try discriminate H;
        injection H as <-; cbn [forallb]; rewrite ?andb_true_r;
        try exact Hlink.
      apply styles_ok_set_plain; [reflexivity|reflexivity|exact Hlink].
    + clear Hlink. revert ts H. revert Hs'.
      generalize (update_style name style). intros st Hst.
      induction IH as [|c cs Hc _ IHcs]; intros ts H.
      * injection H as <-. reflexivity.
      * cbn [text_of_children] in H.
        destruct (parseText c st) as [t1|] eqn:E1; [|discriminate H].
        cbn [bind] in H.
        destruct (text_of_children st cs) as [t2|] eqn:E2; [|discriminate H].
        injection H as <-. rewrite List.forallb_app.
        rewrite (Hc st t1 Hst E1), (IHcs t2 eq_refl). reflexivity.
Qed.

Lemma styles_ok_parseInt (v : value) : styles_ok (Js.parseInt v) = true.
Proof.
  unfold Js.parseInt. destruct v; try reflexivity.
  repeat match goal with
         | |- context [match ?x with _ => _ end] => destruct x
         end; reflexivity.
Qed.

Lemma styles_ok_open_block (name : string)
  (attribs : list (string * string)) :
  styles_ok (open_block name attribs) = true.
Proof.
  unfold open_block, container.
  destruct (String.eqb name "ul" || String.eqb name "ol").
  { cbn [styles_ok forallb]. cbn [String.eqb Ascii.eqb Bool.eqb].
    rewrite styles_ok_parseInt.
    destruct (String.eqb name "ul"); reflexivity. }
  unfold Js.attr.
  repeat match goal with
         | |- context [if ?b then _ else _] => destruct b
         | |- context [match ?x with _ => _ end] => destruct x
         end; reflexivity.
Qed.

Lemma styles_ok_parseHeader (node : AnyNode) :
  styles_ok (parseHeader node) = true.
Proof.
  unfold parseHeader.
  destruct (children_of node) as [[|[data| | | |] rest]|]; try reflexivity.
  destruct (String.eqb data ""); reflexivity.
Qed.

Lemma styles_ok_elements (block : value) :
  styles_ok block = true ->
  forallb styles_ok (Js.items (Js.get "elements" block)) = true.
Proof.
  destruct block as [| | | | | |fields]; try reflexivity.
  cbn [styles_ok Js.get]. intros H.
  induction fields as [|[k y] fields IH]; [reflexivity|].
  cbn [forallb] in H. apply andb_prop in H. destruct H as [Hy Hf].
  cbn [lookup]. destruct (String.eqb k "elements").
  - apply andb_prop in Hy. destruct Hy as [_ Hy].
    destruct y; try reflexivity. exact Hy.
  - exact (IH Hf).
Qed.

Lemma forallb_filter {A : Type} (f g : A -> bool) (l : list A) :
  forallb f l = true -> forallb f (filter g l) = true.
Proof.
  induction l as [|x l IH]; [reflexivity|]. cbn [forallb filter].
  intros H. apply andb_prop in H. destruct H as [Hx Hl].
  destruct (g x); [cbn [forallb]; rewrite Hx|]; exact (IH Hl).
Qed.

Lemma styles_ok_append_child (block childObj : value) :
  styles_ok block = true -> styles_ok childObj = true ->
  styles_ok (append_child block childObj) = true.
Proof.
  intros Hb Hc. unfold append_child.
  destruct (Js.truthy childObj && Js.has "elements" block); [|exact Hb].
  destruct block as [| | | | | |fields]; try exact Hb.
  cbn [Js.set]. apply styles_ok_set_plain; [reflexivity| |exact Hb].
  cbn [styles_ok]. apply forallb_filter. rewrite List.forallb_app.
  rewrite (styles_ok_elements (VObj fields) Hb). cbn [andb].
  destruct childObj as [| | | | |items|cf]; cbn [Js.isArray Js.items forallb];
    rewrite ?andb_true_r; first [exact Hc|reflexivity].
Qed.

Lemma styles_ok_parseNode (node : AnyNode) :
  forall v, parseNode node = Ok v -> styles_ok v = true.
Proof.
  induction node as [data|data|name data|children IH|type name attribs children IH]
    using AnyNode_tree_ind; intros v H;
    try solve [injection H as <-; reflexivity].
  destruct type; try solve [injection H as <-; reflexivity].
  rewrite parseNode_tag in H. destruct (name_in inline_names name).
  - destruct (parseText (Element Tag name attribs children) [])
      as [ts|] eqn:E; [|discriminate H].
    injection H as <-.
    exact (styles_ok_parseText _ [] ts (eq_refl : flags_on [] = true) E).
  - destruct (name_in heading_names name).
    + injection H as <-. apply styles_ok_parseHeader.
    + pose proof (styles_ok_open_block name attribs) as Hb.
      revert v H Hb. generalize (open_block name attribs).
      induction IH as [|c cs Hc _ IHcs]; intros block v H Hb.
      * injection H as <-. exact Hb.
      * cbn [walk_children] in H.
        destruct (parseNode c) as [cv|] eqn:E; [|discriminate H].
        cbn [bind] in H. apply (IHcs _ _ H).
        apply styles_ok_append_child; [exact Hb|exact (Hc cv eq_refl)].
Qed.

(** X6: every style object in what the tree walker builds, at any depth,
    has at least one key, and its keys are among [bold], [italic],
    [strike] and [code], each with the value [true]: a text or a link
    never carries an empty style object or a flag that is [false].  This
    holds for the value of every node, for every block handed to the block
    assembler, and for [parseText] on every style made of [true] flags. *)
Theorem style_objects_hold_true_flags_only :
  (forall node v, parseNode node = Ok v -> styles_ok v = true)
  /\ (forall nodes blocks,
         parseBlocks nodes = Ok blocks -> forallb styles_ok blocks = true)
  /\ (forall node style ts,
         flags_on style = true ->
         parseText node style = Ok ts -> forallb styles_ok ts = true).
Proof.
  split; [exact styles_ok_parseNode|]. split.
  - induction nodes as [|node rest IH]; intros blocks H.
    + injection H as <-. reflexivity.
    + cbn [parseBlocks] in H.
      destruct (parseNode node) as [tmp|] eqn:E; [|discriminate H].
      cbn [bind] in H.
      destruct (parseBlocks rest) as [more|]; [|discriminate H].
      injection H as <-. rewrite List.forallb_app, (IH more eq_refl).
      rewrite andb_true_r. pose proof (styles_ok_parseNode node tmp E) as Ht.
      unfold push_result. destruct tmp as [| | | | |items|fields];
        cbn [Js.isArray Js.items forallb]; rewrite ?andb_true_r;
        try exact Ht; try reflexivity.
      apply forallb_filter. exact Ht.
  - intros node style ts Hs H. exact (styles_ok_parseText node style ts Hs H).
Qed.

Lemma style_objects_hold_true_flags_only_witness :
  styles_ok
    (VArr [VObj [("type", VStr "text"); ("text", VStr "x");
                 ("style", VObj [("bold", VBool true)])]]) = true
  /\ forallb styles_ok
       [VObj [("type", VStr "rich_text_section");
              ("elements",
               VArr [VObj [("type", VStr "text"); ("text", VStr "x");
                           ("style", VObj [("italic", VBool true)])]])]]
     = true
  /\ forallb styles_ok
       [VObj [("type", VStr "text"); ("text", VStr "x");
              ("style", VObj [("code", VBool true); ("bold", VBool true)])]]
     = true.
Proof.
  split; [|split].
  - apply (proj1 style_objects_hold_true_flags_only
             (Element Tag "b" [] [Text "x"])). reflexivity.
  - apply (proj1 (proj2 style_objects_hold_true_flags_only)
             [Element Tag "p" [] [Element Tag "i" [] [Text "x"]]]).
    reflexivity.
  - apply (proj2 (proj2 style_objects_hold_true_flags_only)
             (Element Tag "b" [] [Text "x"]) [("code", true)]);
      reflexivity.
Defined.

(** ** Tags that are not the literal they are compared with *)

(** A tag body without [>] that is followed by [>] starts with the literal
    [q] followed by [>] only when it is [q]. *)
Lemma tag_literal (q body rest : string) :
  Str.lacks ">" q = true -> Str.lacks ">" body = true ->
  Str.strip_prefix (q ++ ">") (body ++ ">" ++ rest) <> None ->
  body = q.
Proof.
  revert body. induction q as [|d q IH]; intros body Hq Hb H.
  - destruct body as [|c body]; [reflexivity|].
    pose proof (lacks_head _ _ _ Hb) as Hc.
    cbn [append Str.strip_prefix] in H.
    destruct (Ascii.eqb_spec ">" c) as [<-|]; contradiction.
  - pose proof (lacks_head _ _ _ Hq) as Hd.
    cbn [Str.lacks Str.forallb] in Hq. apply andb_prop in Hq.
    destruct Hq as [_ Hq]. destruct body as [|c body].
    + cbn [append Str.strip_prefix] in H.
      destruct (Ascii.eqb_spec d ">") as [->|]; contradiction.
    + cbn [Str.lacks Str.forallb] in Hb. apply andb_prop in Hb.
      destruct Hb as [_ Hb]. cbn [append Str.strip_prefix] in H.
      destruct (Ascii.eqb_spec d c) as [->|]; [|contradiction].
      rewrite (IH body Hq Hb H). reflexivity.
Qed.

Lemma not_pre_tag (inner rest : string) :
  Str.lacks ">" inner = true -> String.eqb inner "pre" = false ->
  Str.strip_prefix "<pre>" ("<" ++ inner ++ ">" ++ rest) = None.
Proof.
  intros Hi Hn.
  destruct (Str.strip_prefix "<pre>" ("<" ++ inner ++ ">" ++ rest)) eqn:E;
    [|reflexivity].
  exfalso.
  assert (H : inner = "pre").
  { apply (tag_literal "pre" inner rest eq_refl Hi).
    change (Str.strip_prefix "<pre>" ("<" ++ inner ++ ">" ++ rest))
      with (Str.strip_prefix ("pre" ++ ">") (inner ++ ">" ++ rest)) in E.
    rewrite E. discriminate. }
  subst inner. discriminate Hn.
Qed.

(** ** The first pass on a document of tags *)

Lemma span_snd_cons (f : ascii -> bool) (c : ascii) (s : string) :
  snd (Str.span f (String c s))
  = if f c then snd (Str.span f s) else String c s.
Proof.
  cbn [Str.span]. destruct (f c); [|reflexivity].
  destruct (Str.span f s). reflexivity.
Qed.

Lemma match_pre_after_blanks (st : pre_store) (a R : string) :
  plain_text a = true ->
  Str.strip_prefix "<pre>" (snd (Str.span Char.is_blank R)) = None ->
  forall c a1 a2,
    a = a1 ++ String c a2 -> match_pre st (String c (a2 ++ R)) = None.
Proof.
  intros Ha HR c a1 a2 E. apply match_pre_none. subst a.
  unfold plain_text in Ha. rewrite lacks_app in Ha.
  apply andb_prop in Ha. destruct Ha as [_ Ha]. clear a1.
  revert c Ha. induction a2 as [|d a2 IH]; intros c Ha;
    pose proof (lacks_head _ _ _ Ha) as Hc;
    cbn [Str.lacks Str.forallb] in Ha; apply andb_prop in Ha;
    destruct Ha as [_ Ha]; rewrite span_snd_cons;
    (destruct (Char.is_blank c);
     [|cbn [Str.strip_prefix];
       destruct (Ascii.eqb_spec "<" c) as [<-|]; [contradiction|reflexivity]]).
  - exact HR.
  - exact (IH d Ha).
Qed.

Lemma well_formed_tag_parts (s : tag_segment) :
  well_formed_tag s = true ->
  plain_text (text_before s) = true
  /\ plain_text (inner s) = true
  /\ Str.lacks ">" (inner s) = true
  /\ String.eqb (inner s) "pre" = false
  /\ (is_open (inner s) = true \/ Str.lacks Char.lf (inner s) = true).
Proof.
  unfold well_formed_tag. intros H.
  apply andb_prop in H. destruct H as [H H5].
  apply andb_prop in H. destruct H as [H H4].
  apply andb_prop in H. destruct H as [H H3].
  apply andb_prop in H. destruct H as [H1 H2].
  apply negb_true_iff in H4. apply orb_prop in H5. tauto.
Qed.

Lemma pass1_tags (after : string) (segs : list tag_segment) (st : pre_store) :
  plain_text after = true ->
  forallb well_formed_tag segs = true ->
  gsub match_pre 0 st (tag_document segs after)
  = (tag_document segs after, st).
Proof.
  intros Ha. induction segs as [|s segs IH]; intros Hw.
  - cbn [tag_document]. apply gsub_copy_all. intros c a1 a2 E.
    apply match_pre_plain. subst after. unfold plain_text in *.
    rewrite lacks_app in Ha. apply andb_prop in Ha. apply Ha.
  - cbn [forallb] in Hw. apply andb_prop in Hw. destruct Hw as [Hs Hw].
    destruct (well_formed_tag_parts s Hs) as [Ht [Hi [Hg [Hp _]]]].
    cbn [tag_document].
    pose proof (not_pre_tag (inner s) (tag_document segs after) Hg Hp) as Hn.
    rewrite gsub_copy.
    2:{ apply (match_pre_after_blanks st _ _ Ht). exact Hn. }
    change ("<" ++ inner s ++ ">" ++ tag_document segs after)
      with (String "<" (inner s ++ ">" ++ tag_document segs after)) in *.
    rewrite gsub_no_match by (apply match_pre_none; exact Hn).
    rewrite gsub_copy.
    2:{ apply (match_pre_after_blanks st _ _ Hi). reflexivity. }
    change (">" ++ tag_document segs after)
      with (String ">" (tag_document segs after)).
    rewrite gsub_no_match by (apply match_pre_none; reflexivity).
    rewrite (IH Hw). reflexivity.
Qed.

(** ** The second pass on a document of tags *)

Lemma not_gt_of_lacks (s : string) :
  Str.lacks ">" s = true -> Str.forallb Char.not_gt s = true.
Proof.
  apply forallb_impl. intros c Hc. unfold Char.not_gt, Char.code.
  destruct (Nat.eqb_spec (nat_of_ascii c) 62) as [E|]; [|reflexivity].
  apply (f_equal ascii_of_nat) in E. rewrite ascii_nat_embedding in E.
  subst c. discriminate Hc.
Qed.

Lemma tag_parts (inner : string) :
  tag_name inner ++ tag_attributes inner = inner.
Proof. apply span_append. Qed.

Lemma tag_attributes_lacks (x : ascii) (inner : string) :
  Str.lacks x inner = true -> Str.lacks x (tag_attributes inner) = true.
Proof.
  intros H. rewrite <- (tag_parts inner) in H. rewrite lacks_app in H.
  apply andb_prop in H. apply H.
Qed.

Lemma span_word_tag (inner rest : string) :
  Str.span Char.is_word (inner ++ String ">" rest)
  = (tag_name inner, tag_attributes inner ++ String ">" rest).
Proof. apply span_app_local. reflexivity. Qed.

Lemma length_tag (inner : string) :
  String.length ("<" ++ inner ++ ">")
  = 1 + String.length (tag_name inner)
    + String.length (tag_attributes inner) + 1.
Proof.
  rewrite <- (tag_parts inner) at 1. cbn [append String.length].
  rewrite !length_append. cbn [String.length]. lia.
Qed.

Lemma match_tag_open (attrs : list string) (inner rest : string) :
  is_open inner = true -> Str.lacks ">" inner = true ->
  match_tag attrs ("<" ++ inner ++ ">" ++ rest)
  = Some (attr_placeholder (tag_name inner) (List.length attrs),
          String.length ("<" ++ inner ++ ">"),
          (attrs ++ [tag_attributes inner])%list).
Proof.
  intros Ho Hg. rewrite length_tag.
  change ("<" ++ inner ++ ">" ++ rest)
    with (String "<" (inner ++ String ">" rest)).
  unfold match_tag. rewrite span_word_tag.
  unfold is_open in Ho. apply negb_true_iff in Ho.
  destruct (tag_name inner) as [|c name] eqn:E; [discriminate Ho|].
  rewrite (span_app_stop Char.not_gt (tag_attributes inner) rest ">"
             (not_gt_of_lacks _ (tag_attributes_lacks _ _ Hg)) eq_refl).
  reflexivity.
Qed.

Lemma match_tag_not_open (attrs : list string) (inner rest : string) :
  is_open inner = false ->
  match_tag attrs ("<" ++ inner ++ ">" ++ rest) = None.
Proof.
  intros Ho.
  change ("<" ++ inner ++ ">" ++ rest)
    with (String "<" (inner ++ String ">" rest)).
  unfold match_tag. rewrite span_word_tag.
  unfold is_open in Ho. apply negb_false_iff, String.eqb_eq in Ho.
  rewrite Ho. reflexivity.
Qed.

Lemma plain_tag_body (inner : string) :
  plain_text inner = true -> plain_text (inner ++ ">") = true.
Proof.
  intros H. unfold plain_text in *. rewrite lacks_app, H. reflexivity.
Qed.

Lemma tag_assoc (inner rest : string) :
  "<" ++ inner ++ ">" ++ rest = String "<" ((inner ++ ">") ++ rest).
Proof. cbn [append]. rewrite append_assoc. reflexivity. Qed.

Lemma tag_assoc_whole (inner rest : string) :
  "<" ++ inner ++ ">" ++ rest = ("<" ++ inner ++ ">") ++ rest.
Proof. cbn [append]. rewrite append_assoc. reflexivity. Qed.

Lemma pass2_tags (after : string) (segs : list tag_segment) :
  plain_text after = true ->
  forallb well_formed_tag segs = true ->
  forall attrs,
    gsub match_tag 0 attrs (tag_document segs after)
    = (held_document (List.length attrs) segs after,
       (attrs ++ held_attributes segs)%list).
Proof.
  intros Ha. induction segs as [|s segs IH]; intros Hw attrs.
  - cbn [tag_document held_document held_attributes].
    rewrite app_nil_r. apply gsub_copy_all. intros c a1 a2 E.
    apply match_tag_starts_at_lt. subst after.
    exact (lacks_split _ _ _ _ Ha).
  - cbn [forallb] in Hw. apply andb_prop in Hw. destruct Hw as [Hs Hw].
    destruct (well_formed_tag_parts s Hs) as [Ht [Hi [Hg [Hp _]]]].
    cbn [tag_document held_document held_attributes].
    rewrite (gsub_copy_plain match_tag match_tag_starts_at_lt _ _ _ Ht).
    destruct (is_open (inner s)) eqn:Ho.
    + rewrite tag_assoc_whole.
      rewrite (gsub_segment match_tag ("<" ++ inner s ++ ">") _
                 (attr_placeholder (tag_name (inner s)) (List.length attrs))
                 attrs (attrs ++ [tag_attributes (inner s)])%list
                 ltac:(cbn; discriminate)).
      * rewrite (IH Hw). cbn [fst snd]. rewrite length_app.
        cbn [List.length]. rewrite Nat.add_1_r, <- app_assoc. reflexivity.
      * rewrite <- tag_assoc_whole. apply match_tag_open; assumption.
    + rewrite tag_assoc.
      rewrite (gsub_copy_tag match_tag match_tag_starts_at_lt _ _ _
                 (plain_tag_body _ Hi)).
      * rewrite (IH Hw). cbn [fst snd]. rewrite <- tag_assoc. reflexivity.
      * rewrite <- tag_assoc. apply match_tag_not_open, Ho.
Qed.

(** ** The third pass on a document of tags *)

Lemma tag_name_word (inner : string) :
  Str.forallb Char.is_word (tag_name inner) = true.
Proof.
  unfold tag_name. induction inner as [|c s IH]; [reflexivity|]. cbn [Str.span].
  destruct (Char.is_word c) eqn:E; [|reflexivity].
  destruct (Str.span Char.is_word s). cbn [fst Str.forallb] in *.
  rewrite E, IH. reflexivity.
Qed.

Lemma word_lacks_lf (s : string) :
  Str.forallb Char.is_word s = true -> Str.lacks Char.lf s = true.
Proof.
  apply forallb_impl. intros c Hc.
  destruct (Ascii.eqb_spec c Char.lf) as [->|]; [discriminate Hc|reflexivity].
Qed.

Lemma attr_placeholder_lacks_lf (inner : string) (j : nat) :
  Str.lacks Char.lf (attr_placeholder (tag_name inner) j) = true.
Proof.
  unfold attr_placeholder.
  rewrite !lacks_app, (word_lacks_lf _ (tag_name_word inner)),
    (digits_lack_lf _ (of_nat_digits j)).
  reflexivity.
Qed.

Lemma attr_placeholder_head (name : string) (j : nat) (r : string) :
  attr_placeholder name j ++ r
  = String "<" (name ++ " data-tag-attr=" ++ Str.dquote ++ Str.of_nat j
                ++ Str.dquote ++ ">" ++ r).
Proof. unfold attr_placeholder. rewrite !append_assoc. reflexivity. Qed.

Lemma pass3_tags (after : string) (segs : list tag_segment) :
  forallb well_formed_tag segs = true ->
  forall j,
    replace_all match_newlines (held_document j segs after)
    = held_document j (map collapse_text segs) (collapse_newlines after).
Proof.
  induction segs as [|s segs IH]; intros Hw j; [reflexivity|].
  cbn [forallb] in Hw. apply andb_prop in Hw. destruct Hw as [Hs Hw].
  destruct (well_formed_tag_parts s Hs) as [_ [_ [_ [_ Hlf]]]].
  cbn [map held_document collapse_text inner text_before].
  destruct (is_open (inner s)) eqn:Ho.
  - rewrite attr_placeholder_head.
    rewrite (collapse_newlines_before _ _ "<" eq_refl).
    rewrite <- attr_placeholder_head.
    rewrite (replace_all_copy_lacks match_newlines Char.lf _ _
               match_newlines_starts_at_lf
               (attr_placeholder_lacks_lf (inner s) j)).
    rewrite (IH Hw). reflexivity.
  - destruct Hlf as [Hlf|Hlf]; [discriminate Hlf|].
    change ("<" ++ inner s ++ ">" ++ held_document j segs after)
      with (String "<" (inner s ++ ">" ++ held_document j segs after)).
    rewrite (collapse_newlines_before _ _ "<" eq_refl).
    change (String "<" (inner s ++ ">" ++ held_document j segs after))
      with ("<" ++ inner s ++ ">" ++ held_document j segs after).
    rewrite tag_assoc_whole.
    rewrite (replace_all_copy_lacks match_newlines Char.lf _ _
               match_newlines_starts_at_lf).
    + rewrite (IH Hw), <- tag_assoc_whole. reflexivity.
    + cbn [append Str.lacks Str.forallb]. fold (Str.lacks Char.lf (inner s ++ ">")).
      rewrite lacks_app, Hlf. reflexivity.
Qed.

(** ** The fourth pass on a document of tags *)

Lemma match_placeholder_open (attrs : list string) (name : string) (j : nat)
  (r : string) :
  name <> "" -> Str.forallb Char.is_word name = true ->
  match_placeholder attrs (attr_placeholder name j ++ r)
  = Some ("<" ++ name ++ nth j attrs "undefined" ++ ">",
          String.length (attr_placeholder name j)).
Proof.
  intros Hn Hw. rewrite attr_placeholder_head.
  unfold match_placeholder.
  change (name ++ " data-tag-attr=" ++ Str.dquote ++ Str.of_nat j
          ++ Str.dquote ++ ">" ++ r)
    with (name ++ String " "
            ("data-tag-attr=" ++ Str.dquote ++ Str.of_nat j
             ++ String (ascii_of_nat 34) (">" ++ r))).
  rewrite (span_app_stop Char.is_word name _ " " Hw eq_refl).
  destruct name as [|c name]; [contradiction|].
  change (String " " ("data-tag-attr=" ++ Str.dquote ++ Str.of_nat j
                      ++ String (ascii_of_nat 34) (">" ++ r)))
    with ((" data-tag-attr=" ++ Str.dquote)
          ++ Str.of_nat j ++ String (ascii_of_nat 34) (">" ++ r)).
  rewrite strip_prefix_app.
  rewrite span_digits_of_nat by reflexivity.
  pose proof (of_nat_not_empty j) as Hj.
  unfold attribute_at. rewrite to_nat_of_nat.
  destruct (Str.of_nat j) as [|d ds] eqn:E; [contradiction|].
  change (String (ascii_of_nat 34) (">" ++ r))
    with ((Str.dquote ++ ">") ++ r).
  rewrite strip_prefix_app. unfold attr_placeholder. rewrite E.
  f_equal. f_equal. rewrite !length_append.
  cbn [append String.length Str.dquote]. lia.
Qed.

Lemma match_placeholder_not_open (attrs : list string) (inner rest : string) :
  is_open inner = false ->
  match_placeholder attrs ("<" ++ inner ++ ">" ++ rest) = None.
Proof.
  intros Ho.
  change ("<" ++ inner ++ ">" ++ rest)
    with (String "<" (inner ++ String ">" rest)).
  unfold match_placeholder. rewrite span_word_tag.
  unfold is_open in Ho. apply negb_false_iff, String.eqb_eq in Ho.
  rewrite Ho. reflexivity.
Qed.

Lemma pass4_tags (attrs : list string) (after : string)
  (segs : list tag_segment) :
  plain_text after = true ->
  forallb (fun s => plain_text (text_before s) && plain_text (inner s)) segs
  = true ->
  forall j,
    (forall p a,
        nth_error (held_attributes segs) p = Some a ->
        nth (j + p) attrs "undefined" = a) ->
    replace_all (match_placeholder attrs) (held_document j segs after)
    = tag_document segs after.
Proof.
  intros Ha. induction segs as [|s segs IH]; intros Hw j Hattrs.
  - exact (replace_all_id _ "<" after
             (match_placeholder_starts_at_lt attrs) Ha).
  - cbn [forallb] in Hw. apply andb_prop in Hw. destruct Hw as [Hs Hw].
    apply andb_prop in Hs. destruct Hs as [Ht Hi].
    cbn [held_document tag_document held_attributes] in *.
    destruct (is_open (inner s)) eqn:Ho.
    + rewrite (replace_all_copy_lacks _ "<" _ _
                 (match_placeholder_starts_at_lt attrs) Ht).
      assert (Hn : tag_name (inner s) <> "").
      { unfold is_open in Ho. apply negb_true_iff in Ho.
        intros E. rewrite E in Ho. discriminate Ho. }
      rewrite (replace_all_segment _ (attr_placeholder (tag_name (inner s)) j)
                 _ _ ltac:(cbn; discriminate)
                 (match_placeholder_open attrs _ j _ Hn
                    (tag_name_word (inner s)))).
      pose proof (Hattrs 0 (tag_attributes (inner s)) eq_refl) as H0.
      rewrite Nat.add_0_r in H0. rewrite H0.
      rewrite (IH Hw).
      * rewrite <- (tag_parts (inner s)) at 3. rewrite !append_assoc.
        reflexivity.
      * intros p a Hp. replace (S j + p) with (j + S p) by lia.
        apply Hattrs. exact Hp.
    + rewrite (replace_all_copy_lacks _ "<" _ _
                 (match_placeholder_starts_at_lt attrs) Ht).
      rewrite tag_assoc.
      rewrite (replace_all_copy_tag _ _ _
                 (match_placeholder_starts_at_lt attrs)
                 (plain_tag_body _ Hi)).
      * rewrite (IH Hw j Hattrs), <- tag_assoc. reflexivity.
      * rewrite <- tag_assoc. apply match_placeholder_not_open, Ho.
Qed.

(** ** The fifth pass on a document of tags *)

Lemma match_pre_placeholder_none (pre : pre_store) (b : bool) (s : string) :
  Str.strip_prefix "<pre>" s = None -> match_pre_placeholder pre b s = None.
Proof. intros H. unfold match_pre_placeholder. rewrite H. reflexivity. Qed.

Lemma pass5_tags (pre : pre_store) (b : bool) (after : string)
  (segs : list tag_segment) :
  plain_text after = true ->
  forallb well_formed_tag segs = true ->
  gsub (match_pre_placeholder pre) 0 b (tag_document segs after)
  = (tag_document segs after, b).
Proof.
  intros Ha. induction segs as [|s segs IH]; intros Hw.
  - cbn [tag_document]. apply gsub_copy_all. intros c a1 a2 E.
    apply match_pre_placeholder_starts_at_lt. subst after.
    exact (lacks_split _ _ _ _ Ha).
  - cbn [forallb] in Hw. apply andb_prop in Hw. destruct Hw as [Hs Hw].
    destruct (well_formed_tag_parts s Hs) as [Ht [Hi [Hg [Hp _]]]].
    cbn [tag_document].
    rewrite (gsub_copy_plain _ (match_pre_placeholder_starts_at_lt pre)
               _ _ _ Ht).
    pose proof (not_pre_tag (inner s) (tag_document segs after) Hg Hp) as Hn.
    rewrite tag_assoc.
    rewrite (gsub_copy_tag _ (match_pre_placeholder_starts_at_lt pre) _ _ _
               (plain_tag_body _ Hi)).
    + rewrite (IH Hw). reflexivity.
    + rewrite <- tag_assoc. apply match_pre_placeholder_none, Hn.
Qed.

(** ** The normalizer on a document of tags *)

Lemma held_attributes_collapse (segs : list tag_segment) :
  held_attributes (map collapse_text segs) = held_attributes segs.
Proof.
  induction segs as [|s segs IH]; [reflexivity|].
  cbn [map held_attributes collapse_text inner]. rewrite IH. reflexivity.
Qed.

Lemma well_formed_collapse (segs : list tag_segment) :
  forallb well_formed_tag segs = true ->
  forallb well_formed_tag (map collapse_text segs) = true.
Proof.
  induction segs as [|s segs IH]; [reflexivity|].
  cbn [forallb map]. intros H. apply andb_prop in H. destruct H as [Hs H].
  rewrite (IH H), andb_true_r.
  destruct (well_formed_tag_parts s Hs) as [Ht _].
  unfold well_formed_tag in *. cbn [collapse_text text_before inner].
  rewrite (collapse_newlines_plain _ Ht). rewrite Ht in Hs. exact Hs.
Qed.

Lemma well_formed_tag_plain (segs : list tag_segment) :
  forallb well_formed_tag segs = true ->
  forallb (fun s => plain_text (text_before s) && plain_text (inner s)) segs
  = true.
Proof.
  induction segs as [|s segs IH]; [reflexivity|].
  cbn [forallb]. intros H. apply andb_prop in H. destruct H as [Hs H].
  destruct (well_formed_tag_parts s Hs) as [Ht [Hi _]].
  rewrite Ht, Hi, (IH H). reflexivity.
Qed.

(** The first five passes on a document of tags: every tag comes back as
    written, and the third pass has run over the text between the tags. *)
Lemma compressHTML_tags (segs : list tag_segment) (after : string) :
  forallb well_formed_tag segs = true ->
  plain_text after = true ->
  compressHTML (tag_document segs after)
  = Ok (inline_passes
          (tag_document (map collapse_text segs) (collapse_newlines after))).
Proof.
  intros Hw Ha. unfold compressHTML.
  rewrite (pass1_tags after segs no_pre Ha Hw).
  rewrite (pass2_tags after segs Ha Hw []).
  cbn [List.length app]. rewrite (pass3_tags after segs Hw 0).
  pose proof (well_formed_collapse segs Hw) as Hw'.
  pose proof (collapse_newlines_plain after Ha) as Ha'.
  rewrite (pass4_tags _ _ _ Ha' (well_formed_tag_plain _ Hw') 0).
  2:{ intros p a Hp. rewrite held_attributes_collapse in Hp.
      cbn [Nat.add]. apply nth_error_nth, Hp. }
  rewrite (pass5_tags _ false _ _ Ha' Hw'). reflexivity.
Qed.

(** X7: on a document of plain text and tags other than the literal
    [<pre>], where a tag holds no [<] and no [>] and a tag that does not
    start with a word character holds no newline, [compressHTML] does not
    throw; it gives every tag back as written, the newlines inside the
    attribute text included, takes every newline (with the newlines and
    spaces that follow it) out of the text between the tags, and runs its
    passes over [<br>], [span], [div] and [<p>] on the result. *)
Theorem tags_kept_newlines_between_removed (segs : list tag_segment)
  (after : string) :
  forallb well_formed_tag segs = true ->
  plain_text after = true ->
  compressHTML (tag_document segs after)
  = Ok (inline_passes
          (tag_document (map collapse_text segs) (collapse_newlines after)))
  /\ Str.lacks Char.lf (collapse_newlines after) = true
  /\ (forall s, In s (map collapse_text segs) ->
                Str.lacks Char.lf (text_before s) = true).
Proof.
  intros Hw Ha. split; [|split].
  - exact (compressHTML_tags segs after Hw Ha).
  - apply (collapse_newlines_no_lf after 0).
  - intros s Hs. apply in_map_iff in Hs. destruct Hs as [s0 [<- _]].
    apply (collapse_newlines_no_lf (text_before s0) 0).
Qed.

Lemma tags_kept_newlines_between_removed_witness :
  let segs :=
    [mkTag ("one" ++ String Char.lf "two")
           ("a title=x" ++ String Char.lf "y");
     mkTag "text" "/a"] in
  let after := String Char.lf "end" in
  forallb well_formed_tag segs = true
  /\ plain_text after = true
  /\ compressHTML (tag_document segs after)
     = Ok ("onetwo<a title=x" ++ String Char.lf "y>text</a>end").
Proof.
  intros segs after.
  split; [reflexivity|]. split; [reflexivity|].
  rewrite (proj1 (tags_kept_newlines_between_removed segs after
                    eq_refl eq_refl)).
  reflexivity.
Defined.

(** ** The last passes on a document of tags *)

Lemma strip_prefix_body (p body rest : string) :
  Str.lacks ">" p = true ->
  Str.strip_prefix p (body ++ String ">" rest)
  = match Str.strip_prefix p body with
    | Some r => Some (r ++ String ">" rest)
    | None => None
    end.
Proof.
  revert body. induction p as [|d p IH]; intros body Hp; [reflexivity|].
  pose proof (lacks_head _ _ _ Hp) as Hd.
  cbn [Str.lacks Str.forallb] in Hp. apply andb_prop in Hp.
  destruct Hp as [_ Hp]. destruct body as [|c body].
  - cbn [append Str.strip_prefix].
    destruct (Ascii.eqb_spec d ">") as [->|]; [contradiction|reflexivity].
  - cbn [append Str.strip_prefix].
    destruct (Ascii.eqb d c); [exact (IH body Hp)|reflexivity].
Qed.

Lemma strip_prefix_lacks (x : ascii) (p s r : string) :
  Str.strip_prefix p s = Some r -> Str.lacks x s = true ->
  Str.lacks x r = true.
Proof.
  intros E H. rewrite (strip_prefix_some _ _ _ E), lacks_app in H.
  apply andb_prop in H. apply H.
Qed.

Lemma match_strip_tag_unfold (name r : string) :
  match_strip_tag name (String "<" r)
  = match Str.strip_prefix name (after_slash r) with
    | None => None
    | Some r2 =>
        match Str.span Char.not_gt r2 with
        | (attrs, String _ _) =>
            Some ("", 1 + (if has_prefix "/" r then 1 else 0)
                      + String.length name + String.length attrs + 1)
        | (_, "") => None
        end
    end.
Proof.
  unfold match_strip_tag. destruct r as [|c t]; [reflexivity|].
  destruct c as [[] [] [] [] [] [] [] []]; reflexivity.
Qed.

Lemma after_slash_body (inner rest : string) :
  after_slash (inner ++ String ">" rest)
  = after_slash inner ++ String ">" rest.
Proof.
  destruct inner as [|c t]; [reflexivity|].
  destruct c as [[] [] [] [] [] [] [] []]; reflexivity.
Qed.

Lemma has_slash_body (inner rest : string) :
  has_prefix "/" (inner ++ String ">" rest) = has_prefix "/" inner.
Proof.
  destruct inner as [|c t]; [reflexivity|].
  destruct c as [[] [] [] [] [] [] [] []]; reflexivity.
Qed.

Lemma length_after_slash (inner : string) :
  String.length inner
  = (if has_prefix "/" inner then 1 else 0) + String.length (after_slash inner).
Proof.
  destruct inner as [|c t]; [reflexivity|].
  destruct c as [[] [] [] [] [] [] [] []]; reflexivity.
Qed.

Lemma after_slash_lacks (x : ascii) (inner : string) :
  Str.lacks x inner = true -> Str.lacks x (after_slash inner) = true.
Proof.
  destruct inner as [|c t]; [reflexivity|]. intros H.
  assert (Ht : Str.lacks x t = true).
  { cbn [Str.lacks Str.forallb] in H. apply andb_prop in H. apply H. }
  destruct c as [[] [] [] [] [] [] [] []]; first [exact H | exact Ht].
Qed.

(** The [span] and [div] passes at a tag: the whole tag goes when its text
    starts, after an optional [/], with the name. *)
Lemma match_strip_tag_tag (name inner rest : string) :
  Str.lacks ">" name = true -> Str.lacks ">" inner = true ->
  match_strip_tag name ("<" ++ inner ++ ">" ++ rest)
  = if is_wrapper name inner
    then Some ("", String.length ("<" ++ inner ++ ">"))
    else None.
Proof.
  intros Hn Hi.
  change ("<" ++ inner ++ ">" ++ rest)
    with (String "<" (inner ++ String ">" rest)).
  rewrite match_strip_tag_unfold, after_slash_body, has_slash_body.
  rewrite (strip_prefix_body name _ rest Hn).
  unfold is_wrapper, has_prefix.
  destruct (Str.strip_prefix name (after_slash inner)) as [r|] eqn:E;
    [|reflexivity].
  pose proof (strip_prefix_lacks ">" _ _ _ E (after_slash_lacks _ _ Hi))
    as Hr.
  rewrite (span_app_stop Char.not_gt r rest ">" (not_gt_of_lacks r Hr)
             eq_refl).
  f_equal. f_equal. cbn [append String.length]. rewrite length_append.
  rewrite (length_after_slash inner), (strip_prefix_some _ _ _ E).
  rewrite length_append. cbn [String.length].
  fold (has_prefix "/" inner).
  destruct (has_prefix "/" inner); lia.
Qed.

Lemma is_br_prefix (inner : string) :
  is_br inner = true -> exists r, Str.strip_prefix "br" inner = Some r.
Proof.
  unfold is_br. cbn [existsb]. intros H.
  repeat (apply orb_prop in H; destruct H as [H|H]);
    try discriminate H; apply String.eqb_eq in H; subst inner;
    eexists; reflexivity.
Qed.

(** The [<br>] pass at a tag: the four spellings of a line break match as
    a whole, and nothing else. *)
Lemma match_br_tag (inner rest : string) :
  Str.lacks ">" inner = true ->
  match_br ("<" ++ inner ++ ">" ++ rest)
  = if is_br inner
    then Some (Str.nl, String.length ("<" ++ inner ++ ">"))
    else None.
Proof.
  intros Hi. unfold match_br.
  change (Str.strip_prefix "<br" ("<" ++ inner ++ ">" ++ rest))
    with (Str.strip_prefix "br" (inner ++ String ">" rest)).
  rewrite (strip_prefix_body "br" inner rest eq_refl).
  destruct (Str.strip_prefix "br" inner) as [r|] eqn:E.
  - pose proof (strip_prefix_lacks ">" _ _ _ E Hi) as Hr.
    rewrite (strip_prefix_some _ _ _ E). clear E Hi.
    destruct r as [|c r]; [reflexivity|].
    destruct c as [[] [] [] [] [] [] [] []]; try reflexivity;
      try solve [cbn in Hr; discriminate Hr];
      (destruct r as [|d r]; [reflexivity|]);
      destruct d as [[] [] [] [] [] [] [] []]; try reflexivity;
      try solve [cbn in Hr; discriminate Hr];
      (destruct r as [|e r]; [reflexivity|]);
      destruct e as [[] [] [] [] [] [] [] []]; try reflexivity;
      try solve [cbn in Hr; discriminate Hr].
  - destruct (is_br inner) eqn:B; [|reflexivity].
    destruct (is_br_prefix inner B) as [r Hr]. rewrite Hr in E.
    discriminate E.
Qed.

Lemma match_p_tag (inner rest : string) :
  Str.lacks ">" inner = true -> String.eqb inner "p" = false ->
  match_p ("<" ++ inner ++ ">" ++ rest) = None.
Proof.
  intros Hi Hn. unfold match_p.
  destruct (Str.strip_prefix "<p>" ("<" ++ inner ++ ">" ++ rest)) eqn:E;
    [|reflexivity].
  exfalso.
  assert (H : inner = "p").
  { apply (tag_literal "p" inner rest eq_refl Hi).
    change (Str.strip_prefix "<p>" ("<" ++ inner ++ ">" ++ rest))
      with (Str.strip_prefix ("p" ++ ">") (inner ++ ">" ++ rest)) in E.
    rewrite E. discriminate. }
  subst inner. discriminate Hn.
Qed.

(** A pass that can only start at [<] goes through a rendered document tag
    by tag. *)
Lemma replace_all_render (m : string -> option (string * nat))
  (f g : string -> string) (after : string) (segs : list tag_segment) :
  (forall c r, c <> "<"%char -> m (String c r) = None) ->
  plain_text after = true ->
  (forall s, In s segs ->
             plain_text (text_before s) = true
             /\ forall rest, replace_all m (f (inner s) ++ rest)
                             = g (inner s) ++ replace_all m rest) ->
  replace_all m (render f segs after) = render g segs after.
Proof.
  intros Hm Ha. induction segs as [|s segs IH]; intros H.
  - exact (replace_all_id m "<" after Hm Ha).
  - destruct (H s (or_introl eq_refl)) as [Ht Hs]. cbn [render].
    rewrite (replace_all_copy_lacks m "<" _ _ Hm Ht), Hs, IH;
      [reflexivity|].
    intros s' Hin. apply H. right. exact Hin.
Qed.

Lemma replace_all_tag_piece (m : string -> option (string * nat))
  (inner rest : string) :
  (forall c r, c <> "<"%char -> m (String c r) = None) ->
  plain_text inner = true ->
  replace_all m (("<" ++ inner ++ ">") ++ rest)
  = match m ("<" ++ inner ++ ">" ++ rest) with
    | Some (out, n) =>
        if Nat.eqb n (String.length ("<" ++ inner ++ ">"))
        then out ++ replace_all m rest
        else replace_all m (("<" ++ inner ++ ">") ++ rest)
    | None => ("<" ++ inner ++ ">") ++ replace_all m rest
    end.
Proof.
  intros Hm Hi.
  destruct (m ("<" ++ inner ++ ">" ++ rest)) as [[out n]|] eqn:E.
  - destruct (Nat.eqb_spec n (String.length ("<" ++ inner ++ ">")))
      as [->|]; [|reflexivity].
    apply replace_all_segment; [cbn; discriminate|].
    rewrite <- tag_assoc_whole. exact E.
  - rewrite <- tag_assoc_whole, tag_assoc.
    rewrite (replace_all_copy_tag m _ _ Hm (plain_tag_body _ Hi)).
    + cbn [append]. rewrite append_assoc. reflexivity.
    + rewrite <- tag_assoc. exact E.
Qed.

Lemma replace_all_nl (m : string -> option (string * nat)) (rest : string) :
  (forall c r, c <> "<"%char -> m (String c r) = None) ->
  replace_all m (Str.nl ++ rest) = Str.nl ++ replace_all m rest.
Proof.
  intros Hm. exact (replace_all_copy_lacks m "<" Str.nl rest Hm eq_refl).
Qed.

Lemma br_piece (inner rest : string) :
  plain_text inner = true -> Str.lacks ">" inner = true ->
  replace_all match_br (shown_by false [] inner ++ rest)
  = shown_by true [] inner ++ replace_all match_br rest.
Proof.
  intros Hp Hi. unfold shown_by. cbn [andb existsb].
  rewrite (replace_all_tag_piece _ _ _ match_br_starts_at_lt Hp).
  rewrite (match_br_tag inner rest Hi).
  destruct (is_br inner); [rewrite Nat.eqb_refl|]; reflexivity.
Qed.

Lemma strip_piece (name : string) (names : list string)
  (inner rest : string) :
  Str.lacks ">" name = true ->
  plain_text inner = true -> Str.lacks ">" inner = true ->
  replace_all (match_strip_tag name) (shown_by true names inner ++ rest)
  = shown_by true (names ++ [name]) inner
    ++ replace_all (match_strip_tag name) rest.
Proof.
  intros Hn Hp Hi. unfold shown_by. cbn [andb].
  rewrite existsb_app. cbn [existsb]. rewrite orb_false_r.
  destruct (is_br inner);
    [apply replace_all_nl, match_strip_tag_starts_at_lt|].
  destruct (existsb (fun name0 => is_wrapper name0 inner) names);
    [reflexivity|].
  cbn [orb].
  rewrite (replace_all_tag_piece _ _ _
             (match_strip_tag_starts_at_lt name) Hp).
  rewrite (match_strip_tag_tag name inner rest Hn Hi).
  destruct (is_wrapper name inner); [rewrite Nat.eqb_refl|]; reflexivity.
Qed.

Lemma p_piece (inner rest : string) :
  plain_text inner = true -> Str.lacks ">" inner = true ->
  String.eqb inner "p" = false ->
  replace_all match_p (shown inner ++ rest)
  = shown inner ++ replace_all match_p rest.
Proof.
  intros Hp Hi Hn. unfold shown, shown_by. cbn [andb].
  destruct (is_br inner); [apply replace_all_nl, match_p_starts_at_lt|].
  destruct (existsb (fun name => is_wrapper name inner) ["span"; "div"]);
    [reflexivity|].
  rewrite (replace_all_tag_piece _ _ _ match_p_starts_at_lt Hp).
  rewrite (match_p_tag inner rest Hi Hn). reflexivity.
Qed.

Lemma tag_document_render (segs : list tag_segment) (after : string) :
  tag_document segs after = render (shown_by false []) segs after.
Proof.
  induction segs as [|s segs IH]; [reflexivity|].
  cbn [tag_document render]. rewrite IH.
  change (shown_by false [] (inner s)) with ("<" ++ inner s ++ ">").
  rewrite <- tag_assoc_whole. reflexivity.
Qed.

Lemma flow_tag_parts (segs : list tag_segment) (s : tag_segment) :
  forallb flow_tag segs = true -> In s segs ->
  plain_text (text_before s) = true /\ plain_text (inner s) = true
  /\ Str.lacks ">" (inner s) = true /\ String.eqb (inner s) "p" = false.
Proof.
  intros H Hin. rewrite forallb_forall in H. specialize (H s Hin).
  unfold flow_tag in H. apply andb_prop in H. destruct H as [Hw Hn].
  apply negb_true_iff in Hn.
  destruct (well_formed_tag_parts s Hw) as [Ht [Hi [Hg _]]]. tauto.
Qed.

(** The passes over [<br>], [span], [div] and [<p>] on a document of tags
    other than [<p>]. *)
Lemma inline_passes_tags (segs : list tag_segment) (after : string) :
  forallb flow_tag segs = true -> plain_text after = true ->
  inline_passes (tag_document segs after) = shown_document segs after.
Proof.
  intros Hw Ha. unfold inline_passes, shown_document, shown.
  rewrite tag_document_render.
  rewrite (replace_all_render match_br (shown_by false [])
             (shown_by true []) after segs match_br_starts_at_lt Ha).
  2:{ intros s Hin. destruct (flow_tag_parts segs s Hw Hin)
        as [Ht [Hi [Hg _]]].
      split; [exact Ht|]. intros rest. apply br_piece; assumption. }
  rewrite (replace_all_render (match_strip_tag "span") (shown_by true [])
             (shown_by true ["span"]) after segs
             (match_strip_tag_starts_at_lt "span") Ha).
  2:{ intros s Hin. destruct (flow_tag_parts segs s Hw Hin)
        as [Ht [Hi [Hg _]]].
      split; [exact Ht|]. intros rest.
      apply (strip_piece "span" []); [reflexivity|assumption..]. }
  rewrite (replace_all_render (match_strip_tag "div") (shown_by true ["span"])
             (shown_by true ["span"; "div"]) after segs
             (match_strip_tag_starts_at_lt "div") Ha).
  2:{ intros s Hin. destruct (flow_tag_parts segs s Hw Hin)
        as [Ht [Hi [Hg _]]].
      split; [exact Ht|]. intros rest.
      apply (strip_piece "div" ["span"]); [reflexivity|assumption..]. }
  apply (replace_all_render match_p shown shown after segs
           match_p_starts_at_lt Ha).
  intros s Hin. destruct (flow_tag_parts segs s Hw Hin)
    as [Ht [Hi [Hg Hn]]].
  split; [exact Ht|]. intros rest. apply p_piece; assumption.
Qed.

Lemma flow_collapse (segs : list tag_segment) :
  forallb flow_tag segs = true ->
  forallb flow_tag (map collapse_text segs) = true
  /\ forallb well_formed_tag segs = true.
Proof.
  induction segs as [|s segs IH]; [split; reflexivity|].
  cbn [forallb map]. intros H. apply andb_prop in H. destruct H as [Hs H].
  destruct (IH H) as [IH1 IH2]. rewrite IH1, IH2, !andb_true_r.
  unfold flow_tag in *. apply andb_prop in Hs. destruct Hs as [Hw Hn].
  pose proof (well_formed_collapse [s]) as Hc. cbn [forallb map] in Hc.
  rewrite !andb_true_r in Hc. rewrite (Hc Hw), Hw.
  cbn [collapse_text inner]. rewrite Hn. split; reflexivity.
Qed.

(** X8: on a document of plain text and tags other than [<pre>] and [<p>]
    (a tag holds no [<] and no [>], and a tag that does not start with a
    word character holds no newline), [compressHTML] gives the text
    between the tags without its newlines and, of the tags: a newline for
    each of the four spellings of [<br>]; nothing for a tag whose text
    starts, after an optional [/], with [span] or [div], whatever follows
    the name; and every other tag as written. *)
Theorem normalizer_on_flow_tags (segs : list tag_segment) (after : string) :
  forallb flow_tag segs = true ->
  plain_text after = true ->
  compressHTML (tag_document segs after)
  = Ok (shown_document (map collapse_text segs) (collapse_newlines after)).
Proof.
  intros Hw Ha. destruct (flow_collapse segs Hw) as [Hf Hwf].
  rewrite (compressHTML_tags segs after Hwf Ha).
  rewrite (inline_passes_tags _ _ Hf (collapse_newlines_plain after Ha)).
  reflexivity.
Qed.

Lemma normalizer_on_flow_tags_witness :
  let segs :=
    [mkTag ("a" ++ String Char.lf " b") "spanner x=1";
     mkTag "c" "br /";
     mkTag "d" "/divide";
     mkTag "e" "b";
     mkTag "f" "/b"] in
  forallb flow_tag segs = true
  /\ plain_text "g" = true
  /\ compressHTML (tag_document segs "g")
     = Ok ("abc" ++ String Char.lf "de<b>f</b>g").
Proof.
  intros segs.
  split; [reflexivity|]. split; [reflexivity|].
  rewrite (normalizer_on_flow_tags segs "g" eq_refl eq_refl).
  reflexivity.
Defined.

(** ** The shapes of the output *)

Lemma typed_unfold (fields : list (string * value)) :
  typed (VObj fields)
  = shaped (VObj fields) && forallb (items_ok typed) fields.
Proof. reflexivity. Qed.

Lemma items_ok_set_field (key : string) (x : value)
  (fields : list (string * value)) :
  items_ok typed (key, x) = true ->
  forallb (items_ok typed) fields = true ->
  forallb (items_ok typed) (Js.set_field key x fields) = true.
Proof.
  intros Hx. induction fields as [|[k y] fields IH]; intros H.
  - cbn [Js.set_field forallb]. rewrite Hx. reflexivity.
  - cbn [forallb] in H. apply andb_prop in H. destruct H as [Hy Hf].
    cbn [Js.set_field]. destruct (String.eqb k key) eqn:E; cbn [forallb].
    + apply String.eqb_eq in E. subst k. rewrite Hx, Hf. reflexivity.
    + rewrite Hy, (IH Hf). reflexivity.
Qed.

Lemma typed_text_element (text : string) (style : StyleSet) :
  typed (text_element text style) && is_run (text_element text style) = true.
Proof. destruct style as [|[k b] style]; reflexivity. Qed.

Lemma typed_link_element (style : StyleSet)
  (attribs : list (string * string)) :
  typed (VObj (link_element style attribs))
  && is_run (VObj (link_element style attribs)) = true.
Proof.
  unfold link_element, Js.attr.
  destruct style as [|[k b] style]; destruct (lookup "href" attribs);
    reflexivity.
Qed.

Lemma typed_link_with_text (style : StyleSet)
  (attribs : list (string * string)) (data : string) :
  typed (VObj (Js.set_field "text" (VStr data) (link_element style attribs)))
  && is_run (VObj (Js.set_field "text" (VStr data)
                     (link_element style attribs))) = true.
Proof.
  unfold link_element, Js.attr.
  destruct style as [|[k b] style]; destruct (lookup "href" attribs);
    reflexivity.
Qed.

Lemma typed_parseText (node : AnyNode) :
  forall style ts,
    parseText node style = Ok ts ->
    forallb (fun e => typed e && is_run e) ts = true.
Proof.
  induction node as [data|data|name data|children IH|type name attribs children IH]
    using AnyNode_tree_ind; intros style ts H;
    try solve [injection H as <-; reflexivity].
  - rewrite parseText_text in H. injection H as <-. cbn [forallb].
    rewrite typed_text_element. reflexivity.
  - destruct type; try solve [injection H as <-; reflexivity].
    rewrite parseText_tag in H.
    destruct (String.eqb name "a").
    + destruct children as [|[data| | | |] rest]; try discriminate H;
        injection H as <-; cbn [forallb];
        rewrite ?typed_link_with_text, ?typed_link_element; reflexivity.
    + revert ts H. generalize (update_style name style). intros st.
      induction IH as [|c cs Hc _ IHcs]; intros ts H.
      * injection H as <-. reflexivity.
      * cbn [text_of_children] in H.
        destruct (parseText c st) as [t1|] eqn:E1; [|discriminate H].
        cbn [bind] in H.
        destruct (text_of_children st cs) as [t2|] eqn:E2; [|discriminate H].
        injection H as <-. rewrite List.forallb_app.
        rewrite (Hc st t1 E1), (IHcs t2 eq_refl). reflexivity.
Qed.

Lemma is_number_parseInt (v : value) : is_number (Js.parseInt v) = true.
Proof.
  unfold Js.parseInt. destruct v; try reflexivity.
  repeat match goal with
         | |- context [match ?x with _ => _ end] => destruct x
         end; reflexivity.
Qed.

Lemma block_ok_open_block (name : string)
  (attribs : list (string * string)) :
  block_ok (open_block name attribs) = true.
Proof.
  unfold open_block, container.
  destruct (String.eqb name "ul" || String.eqb name "ol").
  { pose proof (is_number_parseInt (Js.attr "indent" attribs)) as Hn.
    destruct (Js.parseInt (Js.attr "indent" attribs)); try discriminate Hn;
      destruct (String.eqb name "ul"); reflexivity. }
  destruct (String.eqb name "li"); [reflexivity|].
  destruct (String.eqb name "pre"); [reflexivity|].
  destruct (String.eqb name "blockquote"); [reflexivity|].
  destruct (String.eqb name "img").
  { unfold Js.attr.
    destruct (lookup "src" attribs) as [src|];
      destruct (lookup "alt" attribs) as [[|a alt]|];
      destruct (lookup "title" attribs) as [[|t title]|]; reflexivity. }
  destruct (String.eqb name "p"); reflexivity.
Qed.

Lemma block_ok_parseHeader (node : AnyNode) :
  block_ok (parseHeader node) = true.
Proof.
  unfold parseHeader.
  destruct (children_of node) as [[|[data| | | |] rest]|]; try reflexivity.
  destruct data as [|c data]; reflexivity.
Qed.

Lemma typed_elements (block : value) :
  typed block = true ->
  forallb typed (Js.items (Js.get "elements" block)) = true.
Proof.
  destruct block as [| | | | | |fields]; try reflexivity.
  rewrite typed_unfold. intros H. apply andb_prop in H.
  destruct H as [_ H]. cbn [Js.get].
  induction fields as [|[k y] fields IH]; [reflexivity|].
  cbn [forallb] in H. apply andb_prop in H. destruct H as [Hy Hf].
  cbn [lookup]. destruct (String.eqb k "elements") eqn:E.
  - destruct y; try reflexivity. cbn [items_ok] in Hy. rewrite E in Hy.
    exact Hy.
  - exact (IH Hf).
Qed.

Lemma get_set_same (key : string) (x : value)
  (fields : list (string * value)) :
  Js.get key (Js.set key x (VObj fields)) = x.
Proof. cbn [Js.set Js.get]. rewrite lookup_set_field_same. reflexivity. Qed.

Lemma shaped_set_elements (fields : list (string * value))
  (items : list value) :
  shaped (VObj fields) = true ->
  shaped (Js.set "elements" (VArr items) (VObj fields)) = true.
Proof.
  unfold shaped.
  rewrite (get_set_other "type" "elements") by reflexivity.
  destruct (Js.get "type" (VObj fields)) as [| | | |type| |];
    try discriminate.
  unfold shape_of.
  rewrite !(get_set_other "text" "elements") by reflexivity.
  rewrite !(get_set_other "url" "elements") by reflexivity.
  rewrite !(get_set_other "image_url" "elements") by reflexivity.
  rewrite !(get_set_other "alt_text" "elements") by reflexivity.
  rewrite !(get_set_other "title" "elements") by reflexivity.
  rewrite !(has_set_other "title" "elements") by reflexivity.
  rewrite !(get_set_other "style" "elements") by reflexivity.
  rewrite !(get_set_other "indent" "elements") by reflexivity.
  rewrite !get_set_same. cbn [Js.isArray].
  destruct (Js.isArray (Js.get "elements" (VObj fields)));
    repeat match goal with
           | |- context [String.eqb type ?s] => destruct (String.eqb type s)
           end; cbn [andb orb]; intros H; first [exact H|discriminate H].
Qed.

Lemma typed_set_elements (fields : list (string * value))
  (items : list value) :
  typed (VObj fields) = true -> forallb typed items = true ->
  typed (Js.set "elements" (VArr items) (VObj fields)) = true.
Proof.
  intros H Hi. rewrite typed_unfold in H. apply andb_prop in H.
  destruct H as [Hs Hf].
  pose proof (shaped_set_elements fields items Hs) as Hs'.
  cbn [Js.set] in *. rewrite typed_unfold, Hs'.
  apply items_ok_set_field; [exact Hi|exact Hf].
Qed.

Lemma typed_has_keys (v : value) : typed v = true -> has_keys v = true.
Proof.
  destruct v as [| | | | | |[|f fields]]; try discriminate; reflexivity.
Qed.

Lemma forallb_weaken {A : Type} (f g : A -> bool) (l : list A) :
  (forall x, f x = true -> g x = true) ->
  forallb f l = true -> forallb g l = true.
Proof.
  intros H. induction l as [|x l IH]; [reflexivity|]. cbn [forallb].
  intros Hl. apply andb_prop in Hl. destruct Hl as [Hx Hl].
  rewrite (H x Hx), (IH Hl). reflexivity.
Qed.

Lemma runs_typed (items : list value) :
  forallb (fun e => typed e && is_run e) items = true ->
  forallb typed items = true.
Proof.
  apply forallb_weaken. intros x H. apply andb_prop in H. apply H.
Qed.

Lemma typed_spread (childObj : value) :
  value_ok childObj = true ->
  forallb typed (filter has_keys (spread childObj)) = true.
Proof.
  intros H. unfold spread.
  destruct childObj as [| | | | |items|[|f fields]];
    try discriminate H; cbn [Js.isArray Js.items].
  - apply forallb_filter, runs_typed, H.
  - reflexivity.
  - cbn [value_ok block_ok Js.is_empty_object orb] in H.
    cbn [filter]. rewrite (typed_has_keys _ H). cbn [forallb].
    rewrite H. reflexivity.
Qed.

Lemma block_ok_append_child (block childObj : value) :
  block_ok block = true -> value_ok childObj = true ->
  block_ok (append_child block childObj) = true.
Proof.
  intros Hb Hc. unfold append_child.
  destruct (Js.truthy childObj && Js.has "elements" block) eqn:E;
    [|exact Hb].
  apply andb_prop in E. destruct E as [_ E].
  destruct block as [| | | | | |[|f fields]]; try discriminate E.
  cbn [block_ok Js.is_empty_object orb] in Hb.
  unfold block_ok. rewrite typed_set_elements;
    [apply orb_true_r|exact Hb|].
  unfold spread in *. rewrite filter_app, List.forallb_app.
  rewrite (forallb_filter typed has_keys _ (typed_elements _ Hb)).
  exact (typed_spread childObj Hc).
Qed.

Lemma block_value_ok (v : value) : block_ok v = true -> value_ok v = true.
Proof. destruct v; try discriminate; intros H; exact H. Qed.

Lemma value_ok_parseNode (node : AnyNode) :
  forall v, parseNode node = Ok v -> value_ok v = true.
Proof.
  induction node as [data|data|name data|children IH|type name attribs children IH]
    using AnyNode_tree_ind; intros v H;
    try solve [injection H as <-; reflexivity].
  destruct type; try solve [injection H as <-; reflexivity].
  rewrite parseNode_tag in H. destruct (name_in inline_names name).
  - destruct (parseText (Element Tag name attribs children) [])
      as [ts|] eqn:E; [|discriminate H].
    injection H as <-. exact (typed_parseText _ [] ts E).
  - destruct (name_in heading_names name).
    + injection H as <-. apply block_value_ok, block_ok_parseHeader.
    + apply block_value_ok.
      pose proof (block_ok_open_block name attribs) as Hb.
      revert v H Hb. generalize (open_block name attribs).
      induction IH as [|c cs Hc _ IHcs]; intros block v H Hb.
      * injection H as <-. exact Hb.
      * cbn [walk_children] in H.
        destruct (parseNode c) as [cv|] eqn:E; [|discriminate H].
        cbn [bind] in H. apply (IHcs _ _ H).
        apply block_ok_append_child; [exact Hb|exact (Hc cv eq_refl)].
Qed.

Lemma block_ok_push_result (tmp : value) :
  value_ok tmp = true -> forallb block_ok (push_result tmp) = true.
Proof.
  intros H. unfold push_result.
  destruct tmp as [| | | | |items|fields]; try discriminate H;
    cbn [Js.isArray Js.items].
  - apply forallb_filter.
    apply (forallb_weaken (fun e => typed e && is_run e)); [|exact H].
    intros x Hx. apply andb_prop in Hx. destruct Hx as [Hx _].
    unfold block_ok. rewrite Hx. apply orb_true_r.
  - cbn [forallb]. cbn [value_ok] in H. rewrite H. reflexivity.
Qed.

Lemma block_ok_parseBlocks (nodes : list AnyNode) :
  forall blocks,
    parseBlocks nodes = Ok blocks -> forallb block_ok blocks = true.
Proof.
  induction nodes as [|node rest IH]; intros blocks H.
  - injection H as <-. reflexivity.
  - cbn [parseBlocks] in H.
    destruct (parseNode node) as [tmp|] eqn:E; [|discriminate H].
    cbn [bind] in H.
    destruct (parseBlocks rest) as [more|]; [|discriminate H].
    injection H as <-. rewrite List.forallb_app, (IH more eq_refl).
    rewrite (block_ok_push_result tmp (value_ok_parseNode node tmp E)).
    reflexivity.
Qed.

(** X9: every object the tree walker builds carries a [type] it knows and
    the fields of that type, at any depth.  [parseText] gives [text]
    elements with a string [text] and [link] elements whose [url] and
    [text] are a string or missing; [parseNode] gives a list of such
    elements, the empty object, or a block: a header or an image title
    holds a non-empty plain text, an image has a string [alt_text], a list
    has an [elements] array, the style [bullet] or [ordered] and a number
    (not-a-number included) as [indent], a section, a preformatted block
    and a quote have an [elements] array, and every item of an [elements]
    array is again such an object.  Every block handed to the block
    assembler is the empty object or such an object. *)
Theorem output_is_typed :
  (forall node style ts,
      parseText node style = Ok ts ->
      forallb (fun e => typed e && is_run e) ts = true)
  /\ (forall node v, parseNode node = Ok v -> value_ok v = true)
  /\ (forall nodes blocks,
         parseBlocks nodes = Ok blocks -> forallb block_ok blocks = true).
Proof.
  split; [exact typed_parseText|]. split.
  - exact value_ok_parseNode.
  - exact block_ok_parseBlocks.
Qed.

Lemma output_is_typed_witness :
  forallb (fun e => typed e && is_run e)
    [VObj [("type", VStr "link"); ("url", VUndefined);
           ("style", VObj [("bold", VBool true)]); ("text", VStr "x")]] = true
  /\ value_ok
       (VObj [("type", VStr "rich_text_list"); ("style", VStr "bullet");
              ("elements",
               VArr [VObj [("type", VStr "rich_text_section");
                           ("elements",
                            VArr [VObj [("type", VStr "text");
                                        ("text", VStr "x")]])]]);
              ("indent", VNaN)]) = true
  /\ forallb block_ok
       [VObj [("type", VStr "image"); ("image_url", VStr "u");
              ("alt_text", VStr "")];
        VObj []] = true.
Proof.
  split; [|split].
  - apply (proj1 output_is_typed
             (Element Tag "a" [] [Text "x"]) [("bold", true)]).
    reflexivity.
  - apply (proj1 (proj2 output_is_typed)
             (Element Tag "ul" [] [Element Tag "li" [] [Text "x"]])).
    reflexivity.
  - apply (proj2 (proj2 output_is_typed)
             [Element Tag "img" [("src", "u")] []; Element Tag "h2" [] []]).
    reflexivity.
Defined.

(** ** The passes over line breaks, [span] and [div] on any tags *)

Lemma markup_ok_parts (segs : list tag_segment) (s : tag_segment) :
  forallb markup_ok segs = true -> In s segs ->
  plain_text (text_before s) = true /\ plain_text (inner s) = true
  /\ Str.lacks ">" (inner s) = true.
Proof.
  intros H Hin. rewrite forallb_forall in H. specialize (H s Hin).
  unfold markup_ok in H. apply andb_prop in H. destruct H as [H H3].
  apply andb_prop in H. tauto.
Qed.

Lemma three_passes_tags (segs : list tag_segment) (after : string) :
  forallb markup_ok segs = true -> plain_text after = true ->
  replace_all (match_strip_tag "div")
    (replace_all (match_strip_tag "span")
       (replace_all match_br (tag_document segs after)))
  = shown_document segs after.
Proof.
  intros Hw Ha. unfold shown_document, shown.
  rewrite tag_document_render.
  rewrite (replace_all_render match_br (shown_by false [])
             (shown_by true []) after segs match_br_starts_at_lt Ha).
  2:{ intros s Hin. destruct (markup_ok_parts segs s Hw Hin)
        as [Ht [Hi Hg]].
      split; [exact Ht|]. intros rest. apply br_piece; assumption. }
  rewrite (replace_all_render (match_strip_tag "span") (shown_by true [])
             (shown_by true ["span"]) after segs
             (match_strip_tag_starts_at_lt "span") Ha).
  2:{ intros s Hin. destruct (markup_ok_parts segs s Hw Hin)
        as [Ht [Hi Hg]].
      split; [exact Ht|]. intros rest.
      apply (strip_piece "span" []); [reflexivity|assumption..]. }
  apply (replace_all_render (match_strip_tag "div") (shown_by true ["span"])
           (shown_by true ["span"; "div"]) after segs
           (match_strip_tag_starts_at_lt "div") Ha).
  intros s Hin. destruct (markup_ok_parts segs s Hw Hin) as [Ht [Hi Hg]].
  split; [exact Ht|]. intros rest.
  apply (strip_piece "div" ["span"]); [reflexivity|assumption..].
Qed.

Lemma tag_document_glue (t : string) (segs : list tag_segment)
  (after : string) :
  tag_document (fst (glue t segs after)) (snd (glue t segs after))
  = t ++ tag_document segs after.
Proof.
  destruct segs as [|k segs]; [reflexivity|].
  cbn [glue fst snd tag_document text_before inner].
  rewrite append_assoc. reflexivity.
Qed.

Lemma settle_shown (segs : list tag_segment) (after : string) :
  tag_document (fst (settle segs after)) (snd (settle segs after))
  = shown_document segs after.
Proof.
  induction segs as [|s segs IH]; [reflexivity|].
  cbn [settle]. destruct (settle segs after) as [ks a].
  cbn [fst snd] in IH. unfold shown_document in *. cbn [render].
  rewrite <- IH. unfold shown, shown_by, is_unwrapped. cbn [andb].
  destruct (is_br (inner s)).
  - rewrite tag_document_glue, append_assoc. reflexivity.
  - destruct (existsb (fun name => is_wrapper name (inner s))
                ["span"; "div"]).
    + rewrite tag_document_glue. reflexivity.
    + cbn [fst snd tag_document]. rewrite <- tag_assoc_whole. reflexivity.
Qed.

(** ** The callback of the paragraph pass over the tags of a content *)

(** A tag other than [<q>] does not start with the literal [<q>]. *)
Lemma not_literal_tag (q inner rest : string) :
  Str.lacks ">" q = true -> Str.lacks ">" inner = true ->
  String.eqb inner q = false ->
  Str.strip_prefix ("<" ++ q ++ ">") ("<" ++ inner ++ ">" ++ rest) = None.
Proof.
  intros Hq Hi Hn.
  destruct (Str.strip_prefix ("<" ++ q ++ ">") ("<" ++ inner ++ ">" ++ rest))
    eqn:E; [|reflexivity].
  exfalso.
  assert (H : inner = q).
  { apply (tag_literal q inner rest Hq Hi).
    change (Str.strip_prefix ("<" ++ q ++ ">") ("<" ++ inner ++ ">" ++ rest))
      with (Str.strip_prefix (q ++ ">") (inner ++ ">" ++ rest)) in E.
    rewrite E. discriminate. }
  subst inner. rewrite String.eqb_refl in Hn. discriminate Hn.
Qed.

Lemma opens_spaced_not_lt (r : string) :
  match r with
  | String x _ => x <> "<"%char
  | "" => True
  end ->
  opens_spaced_tag r = false.
Proof.
  destruct r as [|x r]; [reflexivity|]. intros Hx.
  unfold opens_spaced_tag, spaced_tags, starts_with. cbn [existsb].
  cbn [Str.strip_prefix].
  destruct (Ascii.eqb_spec "<" x) as [<-|]; [contradiction|reflexivity].
Qed.

Lemma space_inline_tags_plain (t : string) :
  plain_text t = true -> space_inline_tags t = t.
Proof.
  induction t as [|x t IH]; [reflexivity|]. intros H.
  unfold plain_text in H. cbn [Str.lacks Str.forallb] in H.
  apply andb_prop in H. destruct H as [_ H].
  rewrite space_inline_tags_keep.
  - rewrite (IH H). reflexivity.
  - right. apply opens_spaced_not_lt. destruct t as [|y t]; [exact I|].
    exact (lacks_head _ _ _ H).
Qed.

Lemma is_spaced_cases (inner : string) :
  is_spaced inner = true -> inner = "b" \/ inner = "i" \/ inner = "code".
Proof.
  unfold is_spaced. cbn [existsb]. intros H.
  repeat (apply orb_prop in H; destruct H as [H|H]);
    try discriminate H; apply String.eqb_eq in H; tauto.
Qed.

(** The pattern of the callback at a character that stands before a tag. *)
Lemma match_inline_open_tag (c : ascii) (inner rest : string) :
  Str.lacks ">" inner = true ->
  match_inline_open (String c ("<" ++ inner ++ ">" ++ rest))
  = if negb (Char.is_space c) && is_spaced inner
    then Some (String c (" " ++ "<" ++ inner ++ ">"),
               S (String.length ("<" ++ inner ++ ">")))
    else None.
Proof.
  intros Hi. destruct (is_spaced inner) eqn:Hs.
  - unfold match_inline_open.
    destruct (Char.is_space c); [reflexivity|].
    destruct (is_spaced_cases inner Hs) as [->|[->| ->]]; reflexivity.
  - rewrite andb_false_r. apply match_inline_open_spec. right.
    unfold is_spaced in Hs. cbn [existsb] in Hs.
    apply orb_false_elim in Hs. destruct Hs as [Hb Hs].
    apply orb_false_elim in Hs. destruct Hs as [Hi' Hs].
    apply orb_false_elim in Hs. destruct Hs as [Hc _].
    unfold opens_spaced_tag, spaced_tags, starts_with. cbn [existsb].
    pose proof (not_literal_tag "b" inner rest eq_refl Hi Hb) as E1.
    pose proof (not_literal_tag "i" inner rest eq_refl Hi Hi') as E2.
    pose proof (not_literal_tag "code" inner rest eq_refl Hi Hc) as E3.
    change ("<" ++ "b" ++ ">") with "<b>" in E1.
    change ("<" ++ "i" ++ ">") with "<i>" in E2.
    change ("<" ++ "code" ++ ">") with "<code>" in E3.
    rewrite E1, E2, E3. reflexivity.
Qed.

(** The characters of a tag up to its [>] are copied. *)
Lemma space_inline_tags_in_tag (inner rest : string) :
  plain_text inner = true ->
  space_inline_tags ("<" ++ inner ++ ">" ++ rest)
  = ("<" ++ inner) ++ space_inline_tags (String ">" rest).
Proof.
  intros Hi. unfold space_inline_tags.
  replace ("<" ++ inner ++ ">" ++ rest)
    with (("<" ++ inner) ++ String ">" rest) by reflexivity.
  apply replace_all_copy. intros x a1 a2 E.
  apply match_inline_open_spec. right. apply opens_spaced_not_lt.
  destruct a2 as [|y a2]; [cbn [append]; discriminate|].
  cbn [append]. destruct a1 as [|z a1].
  - cbn [append] in E. injection E as _ E. rewrite E in Hi.
    exact (lacks_head _ _ _ Hi).
  - cbn [append] in E. injection E as _ E. rewrite E in Hi.
    change (a1 ++ String x (String y a2))
      with (a1 ++ String x ("" ++ String y a2)) in Hi.
    unfold plain_text in Hi. rewrite lacks_app in Hi.
    apply andb_prop in Hi. destruct Hi as [_ Hi].
    cbn [Str.lacks Str.forallb append] in Hi.
    apply andb_prop in Hi. destruct Hi as [_ Hi].
    exact (lacks_head "<" y a2 Hi).
Qed.

Lemma can_space_cons (carry : bool) (x : ascii) (t : string) :
  can_space carry (String x t) = can_space (negb (Char.is_space x)) t.
Proof. destruct t; reflexivity. Qed.

Lemma space_tags_cons_text (carry : bool) (x : ascii) (t inr : string)
  (rest : list tag_segment) (a : string) :
  tag_document (space_tags carry (mkTag (String x t) inr :: rest)) a
  = String x
      (tag_document
         (space_tags (negb (Char.is_space x)) (mkTag t inr :: rest)) a).
Proof.
  cbn [space_tags text_before inner]. rewrite can_space_cons.
  destruct (is_spaced inr && can_space (negb (Char.is_space x)) t);
    reflexivity.
Qed.

Lemma space_inline_tags_document (segs : list tag_segment) (a : string) :
  forallb markup_ok segs = true -> plain_text a = true ->
  (forall c,
      space_inline_tags (String c (tag_document segs a))
      = String c
          (tag_document (space_tags (negb (Char.is_space c)) segs) a))
  /\ space_inline_tags (tag_document segs a)
     = tag_document (space_tags false segs) a.
Proof.
  intros Hw Ha. induction segs as [|[t inr] rest IH].
  - cbn [tag_document space_tags]. split.
    + intros c. rewrite space_inline_tags_keep.
      * rewrite (space_inline_tags_plain a Ha). reflexivity.
      * right. apply opens_spaced_not_lt. destruct a as [|y a]; [exact I|].
        exact (lacks_head _ _ _ Ha).
    + exact (space_inline_tags_plain a Ha).
  - cbn [forallb] in Hw. apply andb_prop in Hw. destruct Hw as [Hs Hw].
    destruct (IH Hw) as [IH1 IH0]. clear IH.
    unfold markup_ok in Hs. cbn [text_before inner] in Hs.
    apply andb_prop in Hs. destruct Hs as [Hs Hg].
    apply andb_prop in Hs. destruct Hs as [Ht Hi].
    assert (Hgt : space_inline_tags ("<" ++ inr ++ ">" ++ tag_document rest a)
                  = "<" ++ inr ++ ">"
                    ++ tag_document (space_tags true rest) a).
    { rewrite (space_inline_tags_in_tag inr _ Hi), (IH1 ">"%char).
      reflexivity. }
    assert (T : forall t', plain_text t' = true -> forall c,
                space_inline_tags
                  (String c (tag_document (mkTag t' inr :: rest) a))
                = String c
                    (tag_document
                       (space_tags (negb (Char.is_space c))
                          (mkTag t' inr :: rest)) a)).
    { induction t' as [|x t' IHt]; intros Ht' c.
      - cbn [tag_document text_before inner append space_tags can_space].
        pose proof (match_inline_open_tag c inr (tag_document rest a) Hg)
          as Hm.
        rewrite andb_comm.
        destruct (negb (Char.is_space c) && is_spaced inr) eqn:Eb.
        + unfold space_inline_tags.
          change (String "<" (inr ++ String ">" (tag_document rest a)))
            with ("<" ++ inr ++ ">" ++ tag_document rest a).
          rewrite tag_assoc_whole in Hm |- *.
          rewrite (replace_all_match match_inline_open
                     ("<" ++ inr ++ ">") (tag_document rest a)
                     (String c (" " ++ "<" ++ inr ++ ">")) c Hm).
          fold (space_inline_tags (tag_document rest a)). rewrite IH0.
          cbn [tag_document text_before inner append].
          rewrite append_assoc. reflexivity.
        + rewrite space_inline_tags_keep.
          * change (String "<" (inr ++ String ">" (tag_document rest a)))
              with ("<" ++ inr ++ ">" ++ tag_document rest a).
            rewrite Hgt. reflexivity.
          * apply match_inline_open_spec. exact Hm.
      - pose proof (lacks_head _ _ _ Ht') as Hx.
        unfold plain_text in Ht'. cbn [Str.lacks Str.forallb] in Ht'.
        apply andb_prop in Ht'. destruct Ht' as [_ Ht'].
        rewrite space_tags_cons_text.
        change (tag_document (mkTag (String x t') inr :: rest) a)
          with (String x (tag_document (mkTag t' inr :: rest) a)).
        rewrite space_inline_tags_keep.
        + rewrite (IHt Ht' x). reflexivity.
        + right. apply opens_spaced_not_lt. exact Hx. }
    split; [exact (T t Ht)|].
    destruct t as [|x t].
    + cbn [tag_document text_before inner append space_tags can_space].
      rewrite andb_false_r.
      change (String "<" (inr ++ String ">" (tag_document rest a)))
        with ("<" ++ inr ++ ">" ++ tag_document rest a).
      rewrite Hgt. reflexivity.
    + rewrite space_tags_cons_text.
      change (tag_document (mkTag (String x t) inr :: rest) a)
        with (String x (tag_document (mkTag t inr :: rest) a)).
      unfold plain_text in Ht. cbn [Str.lacks Str.forallb] in Ht.
      apply andb_prop in Ht. destruct Ht as [_ Ht].
      exact (T t Ht x).
Qed.

(** ** The paragraph pass over the tags of a document *)

Lemma tag_document_app (r1 : list tag_segment) (k : tag_segment)
  (r2 : list tag_segment) (a : string) :
  tag_document (r1 ++ k :: r2) a
  = tag_document r1 (text_before k)
    ++ "<" ++ inner k ++ ">" ++ tag_document r2 a.
Proof.
  induction r1 as [|s r1 IH]; [reflexivity|].
  rewrite <- app_comm_cons. cbn [tag_document]. rewrite IH.
  rewrite !append_assoc. cbn [append]. rewrite ?append_assoc. reflexivity.
Qed.

Lemma first_close (segs : list tag_segment) :
  existsb closes_paragraph segs = true ->
  exists r1 k r2,
    segs = (r1 ++ k :: r2)%list /\ closes_paragraph k = true
    /\ existsb closes_paragraph r1 = false.
Proof.
  induction segs as [|s segs IH]; [discriminate|]. cbn [existsb].
  destruct (closes_paragraph s) eqn:E.
  - intros _. exists [], s, segs. split; [reflexivity|]. split; [exact E|].
    reflexivity.
  - cbn [orb]. intros H. destruct (IH H) as [r1 [k [r2 [-> [Hk Hr]]]]].
    exists (s :: r1), k, r2. repeat split; [exact Hk|].
    cbn [existsb]. rewrite E, Hr. reflexivity.
Qed.

Lemma lacks_sub_after_plain (q t rest : string) :
  plain_text t = true ->
  Str.lacks_sub (String "<" q) (t ++ rest) = Str.lacks_sub (String "<" q) rest.
Proof.
  induction t as [|c t IH]; [reflexivity|]. intros H.
  pose proof (lacks_head _ _ _ H) as Hc.
  unfold plain_text in H. cbn [Str.lacks Str.forallb] in H.
  apply andb_prop in H. destruct H as [_ H].
  cbn [append Str.lacks_sub Str.strip_prefix].
  destruct (Ascii.eqb_spec "<" c) as [<-|]; [contradiction|].
  exact (IH H).
Qed.

Lemma lacks_close_document (segs : list tag_segment) (a : string) :
  forallb markup_ok segs = true -> plain_text a = true ->
  existsb closes_paragraph segs = false ->
  Str.lacks_sub "</p>" (tag_document segs a) = true.
Proof.
  intros Hw Ha. induction segs as [|s segs IH]; intros Hc.
  - cbn [tag_document]. rewrite <- (append_nil_r a).
    rewrite (lacks_sub_after_plain "/p>" a "" Ha). reflexivity.
  - cbn [forallb] in Hw. apply andb_prop in Hw. destruct Hw as [Hs Hw].
    cbn [existsb] in Hc. apply orb_false_elim in Hc. destruct Hc as [Hk Hc].
    unfold markup_ok in Hs. apply andb_prop in Hs. destruct Hs as [Hs Hg].
    apply andb_prop in Hs. destruct Hs as [Ht Hi].
    cbn [tag_document].
    rewrite (lacks_sub_after_plain "/p>" _ _ Ht).
    change ("<" ++ inner s ++ ">" ++ tag_document segs a)
      with (String "<" (inner s ++ ">" ++ tag_document segs a)).
    cbn [Str.lacks_sub].
    pose proof (not_literal_tag "/p" (inner s) (tag_document segs a)
                  eq_refl Hg Hk) as E.
    change (Str.strip_prefix "</p>"
              (String "<" (inner s ++ ">" ++ tag_document segs a)) = None)
      in E.
    rewrite E.
    replace (inner s ++ ">" ++ tag_document segs a)
      with ((inner s ++ ">") ++ tag_document segs a)
      by (rewrite append_assoc; reflexivity).
    rewrite (lacks_sub_after_plain "/p>" _ _ (plain_tag_body _ Hi)).
    exact (IH Hw Hc).
Qed.

Lemma split_first_lacks (pat s : string) :
  Str.lacks_sub pat s = true -> Str.split_first pat s = None.
Proof.
  induction s as [|c s IH]; cbn [Str.lacks_sub Str.split_first];
    destruct (Str.strip_prefix pat _); try discriminate; [reflexivity|].
  intros H. rewrite (IH H). reflexivity.
Qed.

Lemma match_p_paragraph (content rest : string) :
  Str.lacks_sub "</p>" content = true ->
  match_p ("<p>" ++ content ++ "</p>" ++ rest)
  = Some ("<p>" ++ space_inline_tags content ++ "</p>",
          String.length ("<p>" ++ content ++ "</p>")).
Proof.
  intros H. unfold match_p.
  change ("<p>" ++ content ++ "</p>" ++ rest)
    with ("<p>" ++ (content ++ "</p>" ++ rest)).
  rewrite strip_prefix_app.
  rewrite (split_first_content "<" "/p>" content rest eq_refl H).
  f_equal. f_equal. cbn [append String.length]. rewrite length_append.
  cbn [String.length]. lia.
Qed.

Lemma match_p_open (rest : string) :
  Str.lacks_sub "</p>" rest = true -> match_p ("<p>" ++ rest) = None.
Proof.
  intros H. unfold match_p. rewrite strip_prefix_app.
  rewrite (split_first_lacks _ _ H). reflexivity.
Qed.

Lemma paragraphs_inside (carry : bool) (r1 : list tag_segment)
  (k : tag_segment) (r2 : list tag_segment) :
  existsb closes_paragraph r1 = false -> closes_paragraph k = true ->
  paragraphs (Some carry) (r1 ++ k :: r2)
  = (space_tags carry r1 ++ k :: paragraphs None r2)%list.
Proof.
  intros Hr Hk. revert carry. induction r1 as [|s r1 IH]; intros carry.
  - rewrite !app_nil_l. cbn [paragraphs space_tags]. rewrite Hk.
    reflexivity.
  - cbn [existsb] in Hr. apply orb_false_elim in Hr. destruct Hr as [Hs Hr].
    rewrite <- app_comm_cons. cbn [paragraphs space_tags]. rewrite Hs.
    destruct (is_spaced (inner s) && can_space carry (text_before s));
      rewrite (IH Hr); reflexivity.
Qed.

Lemma paragraphs_document (n : nat) :
  forall segs a,
    List.length segs <= n ->
    forallb markup_ok segs = true -> plain_text a = true ->
    replace_all match_p (tag_document segs a)
    = tag_document (paragraphs None segs) a.
Proof.
  induction n as [|n IH]; intros segs a Hn Hw Ha.
  - destruct segs; [|cbn in Hn; lia].
    exact (replace_all_id match_p "<" a match_p_starts_at_lt Ha).
  - destruct segs as [|[t inr] segs].
    { exact (replace_all_id match_p "<" a match_p_starts_at_lt Ha). }
    cbn [List.length] in Hn.
    cbn [forallb] in Hw. apply andb_prop in Hw. destruct Hw as [Hs Hw].
    unfold markup_ok in Hs. cbn [text_before inner] in Hs.
    apply andb_prop in Hs. destruct Hs as [Hs Hg].
    apply andb_prop in Hs. destruct Hs as [Ht Hi].
    cbn [tag_document paragraphs text_before inner].
    rewrite (replace_all_copy_lacks match_p "<" _ _ match_p_starts_at_lt Ht).
    destruct (String.eqb inr "p") eqn:Ep.
    + apply String.eqb_eq in Ep. subst inr.
      destruct (existsb closes_paragraph segs) eqn:Ec.
      * destruct (first_close segs Ec) as [r1 [k [r2 [-> [Hk Hr]]]]].
        cbn [andb]. rewrite (paragraphs_inside false r1 k r2 Hr Hk).
        rewrite List.forallb_app in Hw. apply andb_prop in Hw.
        destruct Hw as [Hw1 Hw2]. cbn [forallb] in Hw2.
        apply andb_prop in Hw2. destruct Hw2 as [Hwk Hw2].
        unfold markup_ok in Hwk. apply andb_prop in Hwk.
        destruct Hwk as [Hwk _]. apply andb_prop in Hwk.
        destruct Hwk as [Htk _].
        rewrite !tag_document_app.
        unfold closes_paragraph in Hk. apply String.eqb_eq in Hk.
        rewrite Hk.
        pose proof (lacks_close_document r1 (text_before k) Hw1 Htk Hr)
          as Hl.
        set (content := tag_document r1 (text_before k)) in *.
        replace ("<" ++ "p" ++ ">" ++ content ++ "<" ++ "/p" ++ ">"
                 ++ tag_document r2 a)
          with (("<p>" ++ content ++ "</p>") ++ tag_document r2 a)
          by (cbn [append]; rewrite append_assoc; reflexivity).
        rewrite (replace_all_segment match_p ("<p>" ++ content ++ "</p>")
                   (tag_document r2 a)
                   ("<p>" ++ space_inline_tags content ++ "</p>")
                   ltac:(cbn; discriminate)).
        -- rewrite (IH r2 a); [|rewrite length_app in Hn; cbn in Hn; lia
                                |exact Hw2|exact Ha].
           unfold content.
           rewrite (proj2 (space_inline_tags_document r1 (text_before k)
                             Hw1 Htk)).
           cbn [append]. rewrite !append_assoc. reflexivity.
        -- replace (("<p>" ++ content ++ "</p>") ++ tag_document r2 a)
             with ("<p>" ++ content ++ "</p>" ++ tag_document r2 a)
             by (cbn [append]; rewrite append_assoc; reflexivity).
           apply match_p_paragraph, Hl.
      * cbn [andb].
        rewrite tag_assoc_whole.
        rewrite (replace_all_tag_piece match_p "p" _ match_p_starts_at_lt
                   eq_refl).
        change ("<" ++ "p" ++ ">" ++ tag_document segs a)
          with ("<p>" ++ tag_document segs a).
        rewrite (match_p_open _ (lacks_close_document segs a Hw Ha Ec)).
        rewrite (IH segs a ltac:(lia) Hw Ha).
        rewrite <- tag_assoc_whole. reflexivity.
    + cbn [andb]. rewrite tag_assoc_whole.
      rewrite (replace_all_tag_piece match_p inr _ match_p_starts_at_lt Hi).
      rewrite (match_p_tag inr _ Hg Ep).
      rewrite (IH segs a ltac:(lia) Hw Ha).
      rewrite <- tag_assoc_whole. reflexivity.
Qed.

(** ** The normal form of a document of tags *)

Lemma plain_append (a b : string) :
  plain_text a = true -> plain_text b = true -> plain_text (a ++ b) = true.
Proof.
  intros Ha Hb. unfold plain_text in *. rewrite lacks_app, Ha, Hb.
  reflexivity.
Qed.

Lemma glue_lacks (x : ascii) (t : string) (ks : list tag_segment)
  (a : string) :
  Str.lacks x t = true ->
  forallb (fun s => Str.lacks x (text_before s)) ks = true ->
  Str.lacks x a = true ->
  forallb (fun s => Str.lacks x (text_before s)) (fst (glue t ks a)) = true
  /\ Str.lacks x (snd (glue t ks a)) = true.
Proof.
  intros Ht Hk Ha. destruct ks as [|k ks]; cbn [glue fst snd forallb].
  - rewrite lacks_app, Ht, Ha. split; reflexivity.
  - cbn [forallb] in Hk. apply andb_prop in Hk. destruct Hk as [Hk Hks].
    cbn [text_before]. rewrite lacks_app, Ht, Hk, Hks, Ha.
    split; reflexivity.
Qed.

(** The texts of the tags that are left hold no [x], when the texts of the
    document hold none and no line break brings one in. *)
Lemma settle_lacks (x : ascii) (segs : list tag_segment) (a : string) :
  Str.lacks x Str.nl = true
  \/ forallb (fun s => negb (is_br (inner s))) segs = true ->
  forallb (fun s => Str.lacks x (text_before s)) segs = true ->
  Str.lacks x a = true ->
  forallb (fun s => Str.lacks x (text_before s)) (fst (settle segs a)) = true
  /\ Str.lacks x (snd (settle segs a)) = true.
Proof.
  intros Hx Hw Ha. induction segs as [|s segs IH]; [split; [reflexivity|exact Ha]|].
  cbn [forallb] in Hw. apply andb_prop in Hw. destruct Hw as [Hs Hw].
  assert (Hx' : Str.lacks x Str.nl = true
                \/ forallb (fun s => negb (is_br (inner s))) segs = true).
  { destruct Hx as [Hx|Hx]; [left; exact Hx|right].
    cbn [forallb] in Hx. apply andb_prop in Hx. apply Hx. }
  destruct (IH Hx' Hw) as [IH1 IH2]. cbn [settle].
  destruct (settle segs a) as [ks a']. cbn [fst snd] in IH1, IH2.
  destruct (is_br (inner s)) eqn:Eb.
  - apply glue_lacks; [|exact IH1|exact IH2].
    rewrite lacks_app, Hs. destruct Hx as [Hx|Hx]; [exact Hx|].
    cbn [forallb] in Hx. rewrite Eb in Hx. discriminate Hx.
  - destruct (is_unwrapped (inner s)).
    + apply glue_lacks; assumption.
    + cbn [fst snd forallb]. rewrite Hs, IH1, IH2. split; reflexivity.
Qed.

Lemma glue_inner (Q : string -> bool) (t : string) (ks : list tag_segment)
  (a : string) :
  forallb (fun s => Q (inner s)) (fst (glue t ks a))
  = forallb (fun s => Q (inner s)) ks.
Proof. destruct ks; reflexivity. Qed.

(** The tags that are left are tags of the document, line breaks and
    [span] and [div] tags apart. *)
Lemma settle_inner (Q : string -> bool) (segs : list tag_segment)
  (a : string) :
  forallb (fun s => Q (inner s)) segs = true ->
  forallb (fun s => Q (inner s) && negb (is_br (inner s))
                    && negb (is_unwrapped (inner s)))
    (fst (settle segs a)) = true.
Proof.
  induction segs as [|s segs IH]; [reflexivity|]. intros Hw.
  cbn [forallb] in Hw. apply andb_prop in Hw. destruct Hw as [Hs Hw].
  specialize (IH Hw). cbn [settle].
  destruct (settle segs a) as [ks a']. cbn [fst] in IH.
  destruct (is_br (inner s)) eqn:Eb;
    [rewrite (glue_inner (fun i => Q i && negb (is_br i)
                                   && negb (is_unwrapped i))); exact IH|].
  destruct (is_unwrapped (inner s)) eqn:Eu;
    [rewrite (glue_inner (fun i => Q i && negb (is_br i)
                                   && negb (is_unwrapped i))); exact IH|].
  cbn [fst forallb]. rewrite Hs, Eb, Eu, IH. reflexivity.
Qed.

Lemma forallb_both {A : Type} (f g : A -> bool) (l : list A) :
  forallb f l = true -> forallb g l = true ->
  forallb (fun x => f x && g x) l = true.
Proof.
  induction l as [|x l IH]; [reflexivity|]. cbn [forallb]. intros Hf Hg.
  apply andb_prop in Hf. apply andb_prop in Hg.
  destruct Hf as [Hf Hfl]. destruct Hg as [Hg Hgl].
  rewrite Hf, Hg, (IH Hfl Hgl). reflexivity.
Qed.

Lemma settle_markup_ok (segs : list tag_segment) (a : string) :
  forallb markup_ok segs = true -> plain_text a = true ->
  forallb markup_ok (fst (settle segs a)) = true
  /\ plain_text (snd (settle segs a)) = true.
Proof.
  intros Hw Ha.
  destruct (settle_lacks "<" segs a (or_introl eq_refl)) as [H1 H2].
  - apply (forallb_weaken markup_ok); [|exact Hw]. intros s Hs.
    unfold markup_ok in Hs. apply andb_prop in Hs. destruct Hs as [Hs _].
    apply andb_prop in Hs. apply Hs.
  - exact Ha.
  - split; [|exact H2].
    pose proof (settle_inner (fun i => plain_text i && Str.lacks ">" i)
                  segs a) as Hi.
    cbn beta in Hi.
    assert (Hq : forallb (fun s => plain_text (inner s)
                                   && Str.lacks ">" (inner s)) segs = true).
    { apply (forallb_weaken markup_ok); [|exact Hw]. intros s Hs.
      unfold markup_ok in Hs. apply andb_prop in Hs. destruct Hs as [Hs Hg].
      apply andb_prop in Hs. destruct Hs as [_ Hp]. rewrite Hp, Hg.
      reflexivity. }
    specialize (Hi Hq).
    pose proof (forallb_both _ _ _ H1 Hi) as Hb.
    apply (forallb_weaken _ markup_ok) in Hb; [exact Hb|].
    intros s Hs. cbn beta in Hs. unfold markup_ok, plain_text.
    apply andb_prop in Hs. destruct Hs as [Ht Hs].
    apply andb_prop in Hs. destruct Hs as [Hs _].
    apply andb_prop in Hs. destruct Hs as [Hs _].
    rewrite Ht. exact Hs.
Qed.


(** The last four passes on a document of tags. *)
Lemma inline_passes_normal (segs : list tag_segment) (a : string) :
  forallb markup_ok segs = true -> plain_text a = true ->
  inline_passes (tag_document segs a)
  = tag_document (paragraphs None (fst (settle segs a)))
      (snd (settle segs a)).
Proof.
  intros Hw Ha. unfold inline_passes.
  rewrite (three_passes_tags segs a Hw Ha), <- settle_shown.
  destruct (settle_markup_ok segs a Hw Ha) as [H1 H2].
  exact (paragraphs_document _ _ _ (le_n _) H1 H2).
Qed.


(** ** Normalizing a normal form *)





















(** ** The first five passes on a document of blocks and tags *)

Lemma well_formed_tidy (ps : list piece) :
  forallb well_formed_piece ps = true -> forallb tidy_piece ps = true.
Proof.
  apply forallb_weaken. intros [s|s] H; cbn [well_formed_piece tidy_piece] in *.
  - unfold well_formed_segment in H.
    repeat (apply andb_prop in H; destruct H as [H _]). exact H.
  - destruct (well_formed_tag_parts s H) as [Ht [Hi [Hg [Hp _]]]].
    rewrite Ht, Hi, Hg, Hp. reflexivity.
Qed.

Lemma tidy_markup_parts (s : tag_segment) :
  tidy_piece (Markup s) = true ->
  plain_text (text_before s) = true /\ plain_text (inner s) = true
  /\ Str.lacks ">" (inner s) = true /\ String.eqb (inner s) "pre" = false.
Proof.
  cbn [tidy_piece]. intros H.
  apply andb_prop in H. destruct H as [H H4].
  apply andb_prop in H. destruct H as [H H3].
  apply andb_prop in H. destruct H as [H1 H2].
  apply negb_true_iff in H4. tauto.
Qed.

Lemma pass1_mixed (after : string) (ps : list piece) :
  plain_text after = true ->
  forallb well_formed_piece ps = true ->
  forall st,
    gsub match_pre 0 st (mixed_document ps after)
    = (numbered_mixed (List.length (preTags st)) ps after,
       mkPreStore (preTags st ++ stripped_contents (blocks_of ps))%list
                  (preLeadingSpaces st ++ map indent (blocks_of ps))%list).
Proof.
  intros Ha. induction ps as [|[s|s] ps IH]; intros Hw st.
  - cbn [mixed_document numbered_mixed blocks_of stripped_contents map].
    rewrite !app_nil_r. destruct st as [tags leads].
    cbn [preTags preLeadingSpaces].
    apply gsub_copy_all. intros c a1 a2 E. apply match_pre_plain.
    subst after. unfold plain_text in *. rewrite lacks_app in Ha.
    apply andb_prop in Ha. apply Ha.
  - cbn [forallb well_formed_piece] in Hw. apply andb_prop in Hw.
    destruct Hw as [Hs Hw]. unfold well_formed_segment in Hs.
    apply andb_prop in Hs. destruct Hs as [Hs Hcontent].
    apply andb_prop in Hs. destruct Hs as [Hs Hindent].
    apply andb_prop in Hs. destruct Hs as [Hplain Hends].
    cbn [mixed_document numbered_mixed blocks_of].
    rewrite gsub_copy.
    2:{ intros c a1 a2 E. apply match_pre_none.
        change (String c (a2 ++ indent s ++ "<pre>" ++ content s ++ "</pre>"
                          ++ mixed_document ps after))
          with (String c a2 ++ (indent s ++ "<pre>" ++ content s ++ "</pre>"
                                ++ mixed_document ps after)).
        apply strip_prefix_pre_after_blanks; [discriminate| |].
        - rewrite E in Hplain. unfold plain_text in *.
          rewrite lacks_app in Hplain. apply andb_prop in Hplain.
          apply Hplain.
        - rewrite E in Hends. exact (ends_unblank_suffix _ _ _ Hends). }
    replace (indent s ++ "<pre>" ++ content s ++ "</pre>"
             ++ mixed_document ps after)
      with ((indent s ++ "<pre>" ++ content s ++ "</pre>")
            ++ mixed_document ps after)
      by (rewrite !append_assoc; reflexivity).
    rewrite (gsub_segment match_pre _ _
               ("<pre>" ++ Str.of_nat (List.length (preTags st)) ++ "</pre>")
               st
               (mkPreStore (preTags st ++ [strip_leading_newline (content s)])
                  (preLeadingSpaces st ++ [indent s]))%list).
    + rewrite IH by exact Hw. cbn [fst snd preTags preLeadingSpaces].
      rewrite length_app. cbn [List.length]. rewrite Nat.add_1_r.
      rewrite !append_assoc. cbn [stripped_contents map].
      rewrite <- !app_assoc. reflexivity.
    + destruct (indent s); discriminate.
    + replace ((indent s ++ "<pre>" ++ content s ++ "</pre>")
               ++ mixed_document ps after)
        with (indent s ++ "<pre>" ++ content s ++ "</pre>"
              ++ mixed_document ps after)
        by (rewrite !append_assoc; reflexivity).
      apply match_pre_block; assumption.
  - cbn [forallb well_formed_piece] in Hw. apply andb_prop in Hw.
    destruct Hw as [Hs Hw].
    destruct (well_formed_tag_parts s Hs) as [Ht [Hi [Hg [Hp _]]]].
    cbn [mixed_document numbered_mixed blocks_of].
    pose proof (not_pre_tag (inner s) (mixed_document ps after) Hg Hp) as Hn.
    rewrite gsub_copy.
    2:{ apply (match_pre_after_blanks st _ _ Ht). exact Hn. }
    change ("<" ++ inner s ++ ">" ++ mixed_document ps after)
      with (String "<" (inner s ++ ">" ++ mixed_document ps after)) in *.
    rewrite gsub_no_match by (apply match_pre_none; exact Hn).
    rewrite gsub_copy.
    2:{ apply (match_pre_after_blanks st _ _ Hi). reflexivity. }
    change (">" ++ mixed_document ps after)
      with (String ">" (mixed_document ps after)).
    rewrite gsub_no_match by (apply match_pre_none; reflexivity).
    rewrite (IH Hw). reflexivity.
Qed.

Lemma pass2_mixed (after : string) (ps : list piece) :
  plain_text after = true ->
  forallb tidy_piece ps = true ->
  forall k attrs,
    gsub match_tag 0 attrs (numbered_mixed k ps after)
    = (tagged_mixed k (List.length attrs) ps after,
       (attrs ++ held_mixed ps)%list).
Proof.
  intros Ha. induction ps as [|[s|s] ps IH]; intros Hw k attrs.
  - cbn [numbered_mixed tagged_mixed held_mixed].
    rewrite app_nil_r. apply gsub_copy_all. intros c a1 a2 E.
    apply match_tag_starts_at_lt. subst after.
    exact (lacks_split _ _ _ _ Ha).
  - cbn [forallb tidy_piece] in Hw. apply andb_prop in Hw.
    destruct Hw as [Hs Hw].
    cbn [numbered_mixed tagged_mixed held_mixed].
    rewrite (gsub_copy_plain match_tag match_tag_starts_at_lt _ _ _ Hs).
    rewrite (gsub_segment match_tag "<pre>" _ _ _ _ ltac:(discriminate)
               (match_tag_pre attrs _)).
    rewrite (gsub_copy_plain match_tag match_tag_starts_at_lt _ _ _
               (digits_plain _ (of_nat_digits k))).
    change ("</pre>" ++ numbered_mixed (S k) ps after)
      with (String "<" ("/pre>" ++ numbered_mixed (S k) ps after)).
    rewrite (gsub_copy_tag match_tag match_tag_starts_at_lt "/pre>" _ _
               eq_refl (match_tag_close _ _)).
    rewrite (IH Hw). cbn [fst snd]. rewrite length_app. cbn [List.length].
    rewrite Nat.add_1_r. rewrite <- app_assoc.
    unfold block_placeholder, tag_placeholder. rewrite !append_assoc.
    reflexivity.
  - cbn [forallb] in Hw. apply andb_prop in Hw. destruct Hw as [Hs Hw].
    destruct (tidy_markup_parts s Hs) as [Ht [Hi [Hg Hp]]].
    cbn [numbered_mixed tagged_mixed held_mixed].
    rewrite (gsub_copy_plain match_tag match_tag_starts_at_lt _ _ _ Ht).
    destruct (is_open (inner s)) eqn:Ho.
    + rewrite tag_assoc_whole.
      rewrite (gsub_segment match_tag ("<" ++ inner s ++ ">") _
                 (attr_placeholder (tag_name (inner s)) (List.length attrs))
                 attrs (attrs ++ [tag_attributes (inner s)])%list
                 ltac:(cbn; discriminate)).
      * rewrite (IH Hw). cbn [fst snd]. rewrite length_app.
        cbn [List.length]. rewrite Nat.add_1_r, <- app_assoc. reflexivity.
      * rewrite <- tag_assoc_whole. apply match_tag_open; assumption.
    + rewrite tag_assoc.
      rewrite (gsub_copy_tag match_tag match_tag_starts_at_lt _ _ _
                 (plain_tag_body _ Hi)).
      * rewrite (IH Hw). cbn [fst snd]. rewrite <- tag_assoc. reflexivity.
      * rewrite <- tag_assoc. apply match_tag_not_open, Ho.
Qed.

Lemma pass3_mixed (after : string) (ps : list piece) :
  forallb well_formed_piece ps = true ->
  forall k j,
    replace_all match_newlines (tagged_mixed k j ps after)
    = tagged_mixed k j (map collapse_piece ps) (collapse_newlines after).
Proof.
  induction ps as [|[s|s] ps IH]; intros Hw k j; [reflexivity| |].
  - cbn [forallb] in Hw. apply andb_prop in Hw. destruct Hw as [_ Hw].
    cbn [map collapse_piece tagged_mixed collapse_before before].
    rewrite block_placeholder_head.
    rewrite (collapse_newlines_before _ _ "<" eq_refl).
    rewrite <- block_placeholder_head.
    rewrite (replace_all_copy_lacks match_newlines Char.lf _ _
               match_newlines_starts_at_lf (block_placeholder_lacks_lf j k)).
    rewrite (IH Hw). reflexivity.
  - cbn [forallb well_formed_piece] in Hw. apply andb_prop in Hw.
    destruct Hw as [Hs Hw].
    destruct (well_formed_tag_parts s Hs) as [_ [_ [_ [_ Hlf]]]].
    cbn [map collapse_piece tagged_mixed collapse_text inner text_before].
    destruct (is_open (inner s)) eqn:Ho.
    + rewrite attr_placeholder_head.
      rewrite (collapse_newlines_before _ _ "<" eq_refl).
      rewrite <- attr_placeholder_head.
      rewrite (replace_all_copy_lacks match_newlines Char.lf _ _
                 match_newlines_starts_at_lf
                 (attr_placeholder_lacks_lf (inner s) j)).
      rewrite (IH Hw). reflexivity.
    + destruct Hlf as [Hlf|Hlf]; [discriminate Hlf|].
      change ("<" ++ inner s ++ ">" ++ tagged_mixed k j ps after)
        with (String "<" (inner s ++ ">" ++ tagged_mixed k j ps after)).
      rewrite (collapse_newlines_before _ _ "<" eq_refl).
      change (String "<" (inner s ++ ">" ++ tagged_mixed k j ps after))
        with ("<" ++ inner s ++ ">" ++ tagged_mixed k j ps after).
      rewrite tag_assoc_whole.
      rewrite (replace_all_copy_lacks match_newlines Char.lf _ _
                 match_newlines_starts_at_lf).
      * rewrite (IH Hw), <- tag_assoc_whole. reflexivity.
      * cbn [append Str.lacks Str.forallb].
        fold (Str.lacks Char.lf (inner s ++ ">")).
        rewrite lacks_app, Hlf. reflexivity.
Qed.

Lemma pass4_mixed (attrs : list string) (after : string) (ps : list piece) :
  plain_text after = true ->
  forallb tidy_piece ps = true ->
  forall k j,
    (forall p a,
        nth_error (held_mixed ps) p = Some a ->
        nth (j + p) attrs "undefined" = a) ->
    replace_all (match_placeholder attrs) (tagged_mixed k j ps after)
    = numbered_mixed k ps after.
Proof.
  intros Ha. induction ps as [|[s|s] ps IH]; intros Hw k j Hattrs.
  - exact (replace_all_id _ "<" after
             (match_placeholder_starts_at_lt attrs) Ha).
  - cbn [forallb tidy_piece] in Hw. apply andb_prop in Hw.
    destruct Hw as [Hs Hw].
    cbn [tagged_mixed numbered_mixed held_mixed] in *.
    rewrite (replace_all_copy_lacks _ "<" _ _
               (match_placeholder_starts_at_lt attrs) Hs).
    unfold block_placeholder. rewrite !append_assoc.
    rewrite (replace_all_segment _ (tag_placeholder j) _ _
               ltac:(discriminate) (match_placeholder_block attrs j _)).
    pose proof (Hattrs 0 "" eq_refl) as H0. rewrite Nat.add_0_r in H0.
    rewrite H0.
    rewrite (replace_all_copy_lacks _ "<" _ _
               (match_placeholder_starts_at_lt attrs)
               (digits_plain _ (of_nat_digits k))).
    change ("</pre>" ++ tagged_mixed (S k) (S j) ps after)
      with (String "<" ("/pre>" ++ tagged_mixed (S k) (S j) ps after)).
    rewrite (replace_all_copy_tag _ "/pre>" _
               (match_placeholder_starts_at_lt attrs) eq_refl
               (match_placeholder_close attrs _)).
    rewrite (IH Hw).
    + reflexivity.
    + intros p a Hp. replace (S j + p) with (j + S p) by lia.
      apply Hattrs. exact Hp.
  - cbn [forallb] in Hw. apply andb_prop in Hw. destruct Hw as [Hs Hw].
    destruct (tidy_markup_parts s Hs) as [Ht [Hi [Hg Hp]]].
    cbn [tagged_mixed numbered_mixed held_mixed] in *.
    destruct (is_open (inner s)) eqn:Ho.
    + rewrite (replace_all_copy_lacks _ "<" _ _
                 (match_placeholder_starts_at_lt attrs) Ht).
      assert (Hn : tag_name (inner s) <> "").
      { unfold is_open in Ho. apply negb_true_iff in Ho.
        intros E. rewrite E in Ho. discriminate Ho. }
      rewrite (replace_all_segment _ (attr_placeholder (tag_name (inner s)) j)
                 _ _ ltac:(cbn; discriminate)
                 (match_placeholder_open attrs _ j _ Hn
                    (tag_name_word (inner s)))).
      pose proof (Hattrs 0 (tag_attributes (inner s)) eq_refl) as H0.
      rewrite Nat.add_0_r in H0. rewrite H0.
      rewrite (IH Hw).
      * rewrite <- (tag_parts (inner s)) at 3. rewrite !append_assoc.
        reflexivity.
      * intros p a Hpa. replace (S j + p) with (j + S p) by lia.
        apply Hattrs. exact Hpa.
    + rewrite (replace_all_copy_lacks _ "<" _ _
                 (match_placeholder_starts_at_lt attrs) Ht).
      rewrite tag_assoc.
      rewrite (replace_all_copy_tag _ _ _
                 (match_placeholder_starts_at_lt attrs)
                 (plain_tag_body _ Hi)).
      * rewrite (IH Hw k j Hattrs), <- tag_assoc. reflexivity.
      * rewrite <- tag_assoc. apply match_placeholder_not_open, Ho.
Qed.

Lemma pass5_mixed (pre : pre_store) (after : string) (ps : list piece) :
  plain_text after = true ->
  forallb tidy_piece ps = true ->
  forall k b,
    (forall p s,
        nth_error (blocks_of ps) p = Some s ->
        nth_error (preTags pre) (k + p)
        = Some (strip_leading_newline (content s))
        /\ nth_error (preLeadingSpaces pre) (k + p) = Some (indent s)) ->
    gsub (match_pre_placeholder pre) 0 b (numbered_mixed k ps after)
    = (filled_mixed ps after, b).
Proof.
  intros Ha. induction ps as [|[s|s] ps IH]; intros Hw k b Hpre.
  - cbn [numbered_mixed filled_mixed]. apply gsub_copy_all.
    intros c a1 a2 E. apply match_pre_placeholder_starts_at_lt.
    subst after. exact (lacks_split _ _ _ _ Ha).
  - cbn [forallb tidy_piece] in Hw. apply andb_prop in Hw.
    destruct Hw as [Hs Hw].
    cbn [numbered_mixed filled_mixed blocks_of] in *.
    rewrite (gsub_copy_plain _ (match_pre_placeholder_starts_at_lt pre)
               _ _ _ Hs).
    destruct (Hpre 0 s eq_refl) as [Ht Hl]. rewrite Nat.add_0_r in Ht, Hl.
    replace ("<pre>" ++ Str.of_nat k ++ "</pre>"
             ++ numbered_mixed (S k) ps after)
      with (("<pre>" ++ Str.of_nat k ++ "</pre>")
            ++ numbered_mixed (S k) ps after)
      by (rewrite !append_assoc; reflexivity).
    rewrite (gsub_segment _ ("<pre>" ++ Str.of_nat k ++ "</pre>") _
               ("<pre>" ++ adjust_content (indent s)
                             (strip_leading_newline (content s)) ++ "</pre>")
               b b ltac:(cbn; discriminate)).
    + rewrite IH.
      * cbn [fst snd]. unfold restored_content. rewrite !append_assoc.
        reflexivity.
      * exact Hw.
      * intros p s' Hp. replace (S k + p) with (k + S p) by lia.
        apply Hpre. exact Hp.
    + replace (("<pre>" ++ Str.of_nat k ++ "</pre>")
               ++ numbered_mixed (S k) ps after)
        with ("<pre>" ++ Str.of_nat k ++ "</pre>"
              ++ numbered_mixed (S k) ps after)
        by (rewrite !append_assoc; reflexivity).
      apply match_pre_placeholder_block; assumption.
  - cbn [forallb] in Hw. apply andb_prop in Hw. destruct Hw as [Hs Hw].
    destruct (tidy_markup_parts s Hs) as [Ht [Hi [Hg Hp]]].
    cbn [numbered_mixed filled_mixed blocks_of] in *.
    rewrite (gsub_copy_plain _ (match_pre_placeholder_starts_at_lt pre)
               _ _ _ Ht).
    pose proof (not_pre_tag (inner s) (numbered_mixed k ps after) Hg Hp)
      as Hn.
    rewrite tag_assoc.
    rewrite (gsub_copy_tag _ (match_pre_placeholder_starts_at_lt pre) _ _ _
               (plain_tag_body _ Hi)).
    + rewrite (IH Hw k b Hpre). cbn [fst snd]. rewrite <- tag_assoc.
      reflexivity.
    + rewrite <- tag_assoc. apply match_pre_placeholder_none, Hn.
Qed.

Lemma tidy_collapse (ps : list piece) :
  forallb tidy_piece ps = true ->
  forallb tidy_piece (map collapse_piece ps) = true.
Proof.
  induction ps as [|[s|s] ps IH]; [reflexivity| |]; cbn [forallb map];
    intros H; apply andb_prop in H; destruct H as [Hs H];
    rewrite (IH H), andb_true_r.
  - cbn [collapse_piece tidy_piece collapse_before before] in *.
    apply collapse_newlines_plain, Hs.
  - destruct (tidy_markup_parts s Hs) as [Ht [Hi [Hg Hp]]].
    cbn [collapse_piece tidy_piece collapse_text text_before inner].
    rewrite (collapse_newlines_plain _ Ht), Hi, Hg, Hp. reflexivity.
Qed.

Lemma held_mixed_collapse (ps : list piece) :
  held_mixed (map collapse_piece ps) = held_mixed ps.
Proof.
  induction ps as [|[s|s] ps IH]; [reflexivity| |];
    cbn [map collapse_piece held_mixed collapse_text inner];
    rewrite IH; reflexivity.
Qed.

Lemma blocks_of_collapse (ps : list piece) :
  blocks_of (map collapse_piece ps) = map collapse_before (blocks_of ps).
Proof.
  induction ps as [|[s|s] ps IH]; [reflexivity| |];
    cbn [map collapse_piece blocks_of]; rewrite IH; reflexivity.
Qed.

(** The normalizer on a document of plain text, [<pre>] blocks and other
    tags: every block comes back with its content restored and every tag
    as written, the text between them loses its newlines, and the passes
    over [<br>], [span], [div] and [<p>] run over the result. *)
Lemma compressHTML_mixed (ps : list piece) (after : string) :
  forallb well_formed_piece ps = true ->
  plain_text after = true ->
  compressHTML (mixed_document ps after)
  = Ok (inline_passes (restored_mixed ps after)).
Proof.
  intros Hw Ha. unfold compressHTML.
  pose proof (well_formed_tidy ps Hw) as Ht.
  rewrite (pass1_mixed after ps Ha Hw no_pre).
  cbn [no_pre preTags preLeadingSpaces List.length app].
  rewrite (pass2_mixed after ps Ha Ht 0 []).
  cbn [List.length app]. rewrite (pass3_mixed after ps Hw 0 0).
  pose proof (tidy_collapse ps Ht) as Ht'.
  pose proof (collapse_newlines_plain after Ha) as Ha'.
  rewrite (pass4_mixed _ _ _ Ha' Ht' 0 0).
  2:{ intros p a Hp. rewrite held_mixed_collapse in Hp.
      cbn [Nat.add]. apply nth_error_nth, Hp. }
  rewrite (pass5_mixed _ _ _ Ha' Ht' 0 false).
  2:{ intros p s Hs. cbn [Nat.add preTags preLeadingSpaces].
      rewrite blocks_of_collapse, nth_error_map in Hs.
      unfold stripped_contents. rewrite !app_nil_l, !nth_error_map.
      destruct (nth_error (blocks_of ps) p) as [s0|]; [|discriminate Hs].
      injection Hs as <-. split; reflexivity. }
  reflexivity.
Qed.

(** ** Blocks whose content holds no tag *)

Lemma filled_tokens (ps : list piece) (after : string) :
  filled_mixed ps after = tag_document (tokens ps) after.
Proof.
  induction ps as [|[s|s] ps IH]; [reflexivity| |];
    cbn [filled_mixed tokens tag_document text_before inner]; rewrite IH;
    reflexivity.
Qed.

Lemma tokens_markup_ok (ps : list piece) :
  forallb tidy_piece ps = true ->
  forallb (fun s => plain_text (content s)) (blocks_of ps) = true ->
  forallb markup_ok (tokens ps) = true.
Proof.
  induction ps as [|[s|s] ps IH]; [reflexivity| |]; cbn [forallb blocks_of];
    intros Ht Hc; apply andb_prop in Ht; destruct Ht as [Hs Ht].
  - apply andb_prop in Hc. destruct Hc as [Hcs Hc].
    cbn [tokens forallb]. rewrite (IH Ht Hc), andb_true_r.
    unfold markup_ok. cbn [text_before inner tidy_piece] in *.
    rewrite Hs, (restored_content_plain s Hcs). reflexivity.
  - cbn [tokens forallb]. rewrite (IH Ht Hc), andb_true_r.
    destruct (tidy_markup_parts s Hs) as [H1 [H2 [H3 _]]].
    unfold markup_ok. rewrite H1, H2, H3. reflexivity.
Qed.

Lemma collapse_blocks_plain (ps : list piece) :
  forallb (fun s => plain_text (content s)) (blocks_of ps) = true ->
  forallb (fun s => plain_text (content s))
    (blocks_of (map collapse_piece ps)) = true.
Proof.
  rewrite blocks_of_collapse. generalize (blocks_of ps). intros l.
  induction l as [|s l IH]; [reflexivity|]. cbn [forallb map].
  intros H. apply andb_prop in H. destruct H as [Hs H].
  rewrite (IH H), andb_true_r. exact Hs.
Qed.

(** The normalizer on a document of blocks and tags whose blocks hold no
    [<]. *)
Lemma compressHTML_normal_mixed (ps : list piece) (after : string) :
  forallb well_formed_piece ps = true ->
  plain_text after = true ->
  forallb (fun s => plain_text (content s)) (blocks_of ps) = true ->
  compressHTML (mixed_document ps after) = Ok (normal_mixed ps after).
Proof.
  intros Hw Ha Hc. rewrite (compressHTML_mixed ps after Hw Ha).
  unfold restored_mixed. rewrite filled_tokens.
  rewrite (inline_passes_normal _ _
             (tokens_markup_ok _ (tidy_collapse ps (well_formed_tidy ps Hw))
                (collapse_blocks_plain ps Hc))
             (collapse_newlines_plain after Ha)).
  unfold normal_mixed, normal_pieces.
  destruct (settle (tokens (map collapse_piece ps))
              (collapse_newlines after)).
  reflexivity.
Qed.

Lemma glue_empty (ks : list tag_segment) (a : string) :
  glue "" ks a = (ks, a).
Proof. destruct ks as [|[t i] ks]; reflexivity. Qed.

Lemma glue_glue (t1 t2 : string) (ks : list tag_segment) (a : string) :
  glue t1 (fst (glue t2 ks a)) (snd (glue t2 ks a)) = glue (t1 ++ t2) ks a.
Proof.
  destruct ks as [|k ks]; cbn [glue fst snd text_before inner];
    rewrite append_assoc; reflexivity.
Qed.

Lemma weave_prefix (prefix : string) (between : list string)
  (blocks : list pre_segment) (after : string) :
  List.length between = List.length blocks ->
  exists between' after',
    List.length between' = List.length blocks
    /\ prefix ++ weave between blocks after = weave between' blocks after'.
Proof.
  intros Hl. destruct blocks as [|s blocks].
  - destruct between; [|discriminate Hl].
    exists [], (prefix ++ after). split; reflexivity.
  - destruct between as [|t between]; [discriminate Hl|].
    exists ((prefix ++ t) :: between), after. split; [exact Hl|].
    cbn [weave]. rewrite append_assoc. reflexivity.
Qed.

Lemma paragraphs_cons (st : option bool) (s : tag_segment)
  (ks : list tag_segment) :
  exists t st',
    paragraphs st (s :: ks) = mkTag t (inner s) :: paragraphs st' ks.
Proof.
  destruct s as [t i]. cbn [paragraphs inner text_before].
  destruct st as [carry|].
  - destruct (closes_paragraph (mkTag t i)); [eexists; eexists; reflexivity|].
    destruct (is_spaced i && can_space carry t);
      eexists; eexists; reflexivity.
  - eexists; eexists; reflexivity.
Qed.

(** Through the last four passes every block keeps its place and, between
    [<pre>] and [</pre>], its restored content. *)
Lemma settled_weave (ps : list piece) (a : string) :
  forall st t,
    exists between after',
      List.length between = List.length (blocks_of ps)
      /\ tag_document
           (paragraphs st
              (fst (glue t (fst (settle (tokens ps) a))
                      (snd (settle (tokens ps) a)))))
           (snd (glue t (fst (settle (tokens ps) a))
                   (snd (settle (tokens ps) a))))
         = weave between (blocks_of ps) after'.
Proof.
  induction ps as [|[s|s] ps IH]; intros st t.
  - exists [], (t ++ a). split; reflexivity.
  - cbn [tokens blocks_of settle].
    destruct (settle (tokens ps) a) as [ks a'] eqn:E. cbn [fst snd] in IH.
    change (is_br (inner (mkTag (restored_content s) "/pre"))) with false.
    change (is_unwrapped (inner (mkTag (restored_content s) "/pre")))
      with false.
    change (is_br (inner (mkTag (before s) "pre"))) with false.
    change (is_unwrapped (inner (mkTag (before s) "pre"))) with false.
    cbn [glue fst snd text_before inner].
    assert (Hp : exists st',
               paragraphs st
                 (mkTag (t ++ before s) "pre"
                  :: mkTag (restored_content s) "/pre" :: ks)
               = mkTag (t ++ before s) "pre"
                 :: mkTag (restored_content s) "/pre" :: paragraphs st' ks).
    { destruct st as [carry|]; eexists; reflexivity. }
    destruct Hp as [st' ->].
    destruct (IH st' "") as [between [after' [Hl Hd]]].
    rewrite glue_empty in Hd. cbn [fst snd] in Hd.
    exists ((t ++ before s) :: between), after'.
    split; [cbn [List.length]; rewrite Hl; reflexivity|].
    cbn [tag_document text_before inner weave]. rewrite Hd. reflexivity.
  - cbn [tokens blocks_of settle].
    destruct (settle (tokens ps) a) as [ks a'] eqn:E. cbn [fst snd] in IH.
    destruct (is_br (inner s)).
    + rewrite glue_glue. apply IH.
    + destruct (is_unwrapped (inner s)).
      * rewrite glue_glue. apply IH.
      * cbn [glue fst snd].
        destruct (paragraphs_cons st
                    (mkTag (t ++ text_before s) (inner s)) ks)
          as [t' [st' ->]].
        destruct (IH st' "") as [between [after' [Hl Hd]]].
        rewrite glue_empty in Hd. cbn [fst snd] in Hd.
        cbn [tag_document text_before inner]. rewrite Hd.
        replace (t' ++ "<" ++ inner s ++ ">"
                 ++ weave between (blocks_of ps) after')
          with ((t' ++ "<" ++ inner s ++ ">")
                ++ weave between (blocks_of ps) after')
          by (rewrite !append_assoc; reflexivity).
        exact (weave_prefix _ between (blocks_of ps) after' Hl).
Qed.

Lemma weave_collapse (between : list string) (blocks : list pre_segment)
  (after : string) :
  weave between (map collapse_before blocks) after
  = weave between blocks after.
Proof.
  revert between. induction blocks as [|s blocks IH]; intros [|t between];
    try reflexivity.
  cbn [map weave]. rewrite IH. reflexivity.
Qed.

Lemma normal_mixed_weave (ps : list piece) (after : string) :
  exists between after',
    List.length between = List.length (blocks_of ps)
    /\ normal_mixed ps after = weave between (blocks_of ps) after'.
Proof.
  destruct (settled_weave (map collapse_piece ps) (collapse_newlines after)
              None "") as [between [after' [Hl Hd]]].
  rewrite glue_empty in Hd. cbn [fst snd] in Hd.
  rewrite blocks_of_collapse in Hl, Hd. rewrite length_map in Hl.
  rewrite weave_collapse in Hd.
  exists between, after'. split; [exact Hl|].
  unfold normal_mixed, normal_pieces.
  destruct (settle (tokens (map collapse_piece ps))
              (collapse_newlines after)).
  exact Hd.
Qed.

(** ** Preformatted blocks *)

(** C6 (as amended): in a document made of plain text, [<pre>] blocks
    (each preceded by its run of spaces and tabs) and any other tags, every
    block comes out of the first five passes of the normalizer as [<pre>],
    its content without one leading newline and without the indentation of
    its own [<pre>] tag at the start of each line, and [</pre>]; the tags
    around it come back as written and the text loses its newlines; the
    passes over [<br>], [span], [div] and [<p>] then run over the whole
    result, the contents of the blocks included.  When no content holds a
    [<], the output is the normal form of the tags around the blocks, in
    which every block stands in its place, in order, with its content
    restored as described and not changed otherwise.  On a content given by
    its lines, the indentation is taken from each line that starts with it,
    and the other lines stay. *)
Theorem pre_blocks_restored :
  (forall ps after,
      forallb well_formed_piece ps = true ->
      plain_text after = true ->
      compressHTML (mixed_document ps after)
      = Ok (inline_passes (restored_mixed ps after)))
  /\ (forall ps after,
         forallb well_formed_piece ps = true ->
         plain_text after = true ->
         forallb (fun s => plain_text (content s)) (blocks_of ps) = true ->
         compressHTML (mixed_document ps after) = Ok (normal_mixed ps after)
         /\ exists between after',
              List.length between = List.length (blocks_of ps)
              /\ normal_mixed ps after
                 = weave between (blocks_of ps) after')
  /\ (forall segs after,
         forallb well_formed_segment segs = true ->
         forallb (fun s => plain_text (content s)) segs = true ->
         plain_text after = true ->
         compressHTML (source_document segs after)
         = Ok (restored_document segs after))
  /\ (forall lead lines,
         Str.forallb Char.is_blank lead = true ->
         forallb one_line lines = true ->
         adjust_content lead (join_lines lines)
         = join_lines (map (unindent lead) lines))
  /\ (forall text, strip_leading_newline (String Char.lf text) = text)
  /\ (forall c text,
         c <> Char.lf ->
         strip_leading_newline (String c text) = String c text).
Proof.
  split; [|split; [|split; [|split; [|split]]]].
  - apply compressHTML_mixed.
  - intros ps after Hw Ha Hc.
    split; [exact (compressHTML_normal_mixed ps after Hw Ha Hc)|].
    apply normal_mixed_weave.
  - intros segs after Hw Hc Ha.
    rewrite (compressHTML_document segs after Hw Ha).
    rewrite (inline_passes_restored after segs Hw Hc Ha). reflexivity.
  - apply adjust_content_lines.
  - intros text. reflexivity.
  - intros c text H. cbn [strip_leading_newline].
    destruct (Ascii.eqb_spec c Char.lf); [contradiction|reflexivity].
Qed.

Lemma pre_blocks_restored_witness :
  let ps :=
    [Markup (mkTag "" "h1"); Markup (mkTag "T" "/h1");
     Block (mkSegment Str.nl "  "
              (Str.nl ++ "    code" ++ Str.nl ++ "  two"));
     Markup (mkTag Str.nl "p"); Markup (mkTag "x" "b");
     Markup (mkTag "after" "/b"); Markup (mkTag "" "/p")] in
  let qs :=
    [Markup (mkTag "" "p");
     Block (mkSegment "" "" "a<br>b"); Markup (mkTag "" "/p")] in
  (forallb well_formed_piece qs = true
   /\ mixed_document qs "" = "<p><pre>a<br>b</pre></p>"
   /\ compressHTML (mixed_document qs "")
      = Ok (inline_passes (restored_mixed qs "")))
  /\ (forallb well_formed_piece ps = true
      /\ forallb (fun s => plain_text (content s)) (blocks_of ps) = true
      /\ mixed_document ps ""
         = "<h1>T</h1>" ++ Str.nl ++ "  <pre>" ++ Str.nl ++ "    code"
           ++ Str.nl ++ "  two</pre>" ++ Str.nl ++ "<p>x<b>after</b></p>"
      /\ normal_mixed ps ""
         = "<h1>T</h1><pre>  code" ++ Str.nl
           ++ "two</pre><p>x <b>after</b></p>"
      /\ compressHTML (mixed_document ps "") = Ok (normal_mixed ps "")
      /\ exists between after',
           List.length between = List.length (blocks_of ps)
           /\ normal_mixed ps "" = weave between (blocks_of ps) after')
  /\ compressHTML
       (source_document
          [mkSegment "x" "  " (Str.nl ++ "    code" ++ Str.nl ++ "  two");
           mkSegment (Str.nl ++ "y") " " " q"] "z")
     = Ok (restored_document
             [mkSegment "x" "  " (Str.nl ++ "    code" ++ Str.nl ++ "  two");
              mkSegment (Str.nl ++ "y") " " " q"] "z")
  /\ adjust_content "  " (join_lines ["    code"; " one"; "  two"])
     = join_lines (map (unindent "  ") ["    code"; " one"; "  two"])
  /\ strip_leading_newline (String "a" "b") = String "a" "b".
Proof.
  intros ps qs.
  split; [|split; [|split; [|split]]].
  - split; [reflexivity|]. split; [reflexivity|].
    apply (proj1 pre_blocks_restored qs ""); reflexivity.
  - split; [reflexivity|]. split; [reflexivity|]. split; [reflexivity|].
    split; [reflexivity|].
    apply (proj1 (proj2 pre_blocks_restored) ps ""); reflexivity.
  - apply (proj1 (proj2 (proj2 pre_blocks_restored))); reflexivity.
  - apply (proj1 (proj2 (proj2 (proj2 pre_blocks_restored)))); reflexivity.
  - apply (proj2 (proj2 (proj2 (proj2 (proj2 pre_blocks_restored))))).
    discriminate.
Defined.

(** C6 (counterexample): the content [a<br>b] of a block without leading
    newline and without indentation is not kept: its [<br>] becomes a
    newline; and the [span] tags inside a block are removed. *)
Lemma pre_content_is_rewritten :
  compressHTML "<pre>a<br>b</pre>" = Ok ("<pre>a" ++ Str.nl ++ "b</pre>")
  /\ adjust_content "" (strip_leading_newline "a<br>b") = "a<br>b"
  /\ "a<br>b" <> "a" ++ Str.nl ++ "b"
  /\ compressHTML "<pre><span>x</span></pre>" = Ok "<pre>x</pre>".
Proof.
  split; [|split; [|split]]; try (vm_compute; reflexivity).
  discriminate.
Qed.

(** ** The walk on a call stack of limited size *)

Lemma parseText_within_tag (L frames : nat) (name : string)
  (attribs : list (string * string)) (children : list AnyNode)
  (style : StyleSet) :
  parseText_within L (S frames) (Element Tag name attribs children) style =
  if String.eqb name "a" then
    match children with
    | [] => Throws TypeError
    | Text data :: _ =>
        Returns [VObj (Js.set_field "text" (VStr data)
                         (link_element (update_style name style) attribs))]
    | _ :: _ => Returns [VObj (link_element (update_style name style) attribs)]
    end
  else text_of_children_within L frames (update_style name style) children.
Proof.
  cbn [parseText_within]. destruct (String.eqb name "a"); [reflexivity|].
  induction children as [|c cs IH]; [reflexivity|].
  cbn [text_of_children_within]. rewrite <- IH. reflexivity.
Qed.

Lemma parseNode_within_tag (L frames : nat) (name : string)
  (attribs : list (string * string)) (children : list AnyNode) :
  parseNode_within L (S frames) (Element Tag name attribs children) =
  if name_in inline_names name then
    and_then (parseText_within L frames (Element Tag name attribs children) [])
      (fun ts => Returns (VArr ts))
  else if name_in heading_names name then
    Returns (parseHeader (Element Tag name attribs children))
  else walk_children_within L frames children (open_block name attribs).
Proof.
  cbn [parseNode_within].
  destruct (name_in inline_names name); [reflexivity|].
  destruct (name_in heading_names name); [reflexivity|].
  generalize (open_block name attribs).
  induction children as [|c cs IH]; intros block; [reflexivity|].
  cbn [walk_children_within].
  destruct (parseNode_within L frames c) as [v| |]; try reflexivity.
  cbn [and_then]. destruct (append_child_within L block v); try reflexivity.
  cbn [and_then]. apply IH.
Qed.

(** *** A run ends as the walk without limits, or the stack is used up *)

Lemma text_within_refines (L : nat) :
  forall frames node style,
    parseText_within L frames node style = Overflows
    \/ parseText_within L frames node style
       = outcome_of (parseText node style).
Proof.
  induction frames as [|f IH]; intros node style; [left; reflexivity|].
  destruct node as [data|data|name data|children|type name attribs children];
    try (right; reflexivity).
  destruct type; try (right; reflexivity).
  rewrite parseText_within_tag, parseText_tag.
  destruct (String.eqb name "a").
  - right. destruct children as [|[data| | | |] rest]; reflexivity.
  - generalize (update_style name style). intros st.
    induction children as [|c cs IHc]; [right; reflexivity|].
    cbn [text_of_children_within text_of_children].
    destruct (IH c st) as [-> | ->]; [left; reflexivity|].
    destruct (parseText c st) as [ts|e]; cbn [outcome_of and_then bind];
      [|right; reflexivity].
    destruct (spread_fits L ts); [|left; reflexivity].
    destruct IHc as [-> | ->]; [left; reflexivity|].
    right. destruct (text_of_children st cs); reflexivity.
Qed.

Lemma append_child_within_refines (L : nat) (block childObj : value) :
  append_child_within L block childObj = Overflows
  \/ append_child_within L block childObj
     = Returns (append_child block childObj).
Proof.
  unfold append_child_within.
  destruct (Js.truthy childObj && Js.has "elements" block
            && negb (spread_fits L (if Js.isArray childObj
                                    then Js.items childObj
                                    else [childObj])));
    [left|right]; reflexivity.
Qed.

Lemma node_within_refines (L : nat) :
  forall frames node,
    parseNode_within L frames node = Overflows
    \/ parseNode_within L frames node = outcome_of (parseNode node).
Proof.
  induction frames as [|f IH]; intros node; [left; reflexivity|].
  destruct node as [data|data|name data|children|type name attribs children];
    try (right; reflexivity).
  - cbn [parseNode_within parseNode].
    destruct (text_within_refines L f (Text data) []) as [-> | ->];
      [left; reflexivity|right].
    destruct (parseText (Text data) []); reflexivity.
  - destruct type; try (right; reflexivity).
    rewrite parseNode_within_tag, parseNode_tag.
    destruct (name_in inline_names name).
    + destruct (text_within_refines L f (Element Tag name attribs children)
                  []) as [-> | ->]; [left; reflexivity|right].
      destruct (parseText (Element Tag name attribs children) []);
        reflexivity.
    + destruct (name_in heading_names name); [right; reflexivity|].
      generalize (open_block name attribs).
      induction children as [|c cs IHc]; intros block; [right; reflexivity|].
      cbn [walk_children_within walk_children].
      destruct (IH c) as [-> | ->]; [left; reflexivity|].
      destruct (parseNode c) as [v|e]; cbn [outcome_of and_then bind];
        [|right; reflexivity].
      destruct (append_child_within_refines L block v) as [-> | ->];
        [left; reflexivity|].
      cbn [and_then]. apply IHc.
Qed.

Lemma blocks_within_refines (L frames : nat) (nodes : list AnyNode) :
  parseBlocks_within L frames nodes = Overflows
  \/ parseBlocks_within L frames nodes = outcome_of (parseBlocks nodes).
Proof.
  induction nodes as [|node rest IH]; [right; reflexivity|].
  cbn [parseBlocks_within parseBlocks].
  destruct (node_within_refines L frames node) as [-> | ->];
    [left; reflexivity|].
  destruct (parseNode node) as [tmp|e]; cbn [outcome_of and_then bind];
    [|right; reflexivity].
  destruct (Js.isArray tmp && negb (spread_fits L (push_result tmp)));
    [left; reflexivity|].
  destruct IH as [-> | ->]; [left; reflexivity|].
  right. destruct (parseBlocks rest); reflexivity.
Qed.

(** *** A stack with room for the tree is not used up *)

Lemma height_children (type : ElementType) (name : string)
  (attribs : list (string * string)) (children : list AnyNode) :
  height (Element type name attribs children) = S (highest children).
Proof. reflexivity. Qed.

Lemma size_children (type : ElementType) (name : string)
  (attribs : list (string * string)) (children : list AnyNode) :
  size (Element type name attribs children) = S (total children).
Proof. reflexivity. Qed.

Lemma size_positive (node : AnyNode) : 1 <= size node.
Proof. destruct node; cbn [size]; lia. Qed.

Lemma length_text_of_children (st : StyleSet) (cs : list AnyNode) :
  Forall (fun c => forall style ts,
              parseText c style = Ok ts -> List.length ts <= size c) cs ->
  forall ts, text_of_children st cs = Ok ts -> List.length ts <= total cs.
Proof.
  induction 1 as [|c cs Hc _ IH]; intros ts H.
  - injection H as <-. cbn. lia.
  - cbn [text_of_children] in H.
    destruct (parseText c st) as [t1|] eqn:E1; [|discriminate H].
    cbn [bind] in H.
    destruct (text_of_children st cs) as [t2|]; [|discriminate H].
    injection H as <-. rewrite length_app. cbn [total fold_right].
    specialize (Hc st t1 E1). specialize (IH t2 eq_refl).
    unfold total in IH. lia.
Qed.

Lemma length_parseText (node : AnyNode) :
  forall style ts,
    parseText node style = Ok ts -> List.length ts <= size node.
Proof.
  induction node as [data|data|name data|children IH|type name attribs children IH]
    using AnyNode_tree_ind; intros style ts H;
    try solve [injection H as <-; cbn; lia].
  destruct type; try solve [injection H as <-; cbn; lia].
  rewrite parseText_tag in H. rewrite size_children.
  destruct (String.eqb name "a").
  - destruct children as [|[data| | | |] rest]; try discriminate H;
      injection H as <-; cbn [List.length]; lia.
  - pose proof (length_text_of_children _ _ IH ts H). lia.
Qed.

Lemma text_within_room (L : nat) :
  forall frames node style,
    height node <= frames -> size node <= L ->
    parseText_within L frames node style
    = outcome_of (parseText node style).
Proof.
  induction frames as [|f IH]; intros node style Hh Hs.
  - destruct node; cbn [height] in Hh; lia.
  - destruct node as [data|data|name data|children|type name attribs children];
      try reflexivity.
    destruct type; try reflexivity.
    rewrite parseText_within_tag, parseText_tag.
    rewrite height_children in Hh. rewrite size_children in Hs.
    destruct (String.eqb name "a").
    + destruct children as [|[data| | | |] rest]; reflexivity.
    + generalize (update_style name style). intros st.
      assert (Hh' : highest children <= f) by lia.
      assert (Hs' : total children <= L) by lia.
      clear Hh Hs. induction children as [|c cs IHc]; [reflexivity|].
      cbn [highest total fold_right] in Hh', Hs'.
      cbn [text_of_children_within text_of_children].
      rewrite (IH c st) by lia.
      destruct (parseText c st) as [ts|e] eqn:E;
        cbn [outcome_of and_then bind]; [|reflexivity].
      pose proof (length_parseText c st ts E) as Hl.
      unfold spread_fits.
      destruct (Nat.leb_spec (List.length ts) L) as [_|Hgt]; [|lia].
      rewrite IHc by (unfold highest, total; lia).
      destruct (text_of_children st cs); reflexivity.
Qed.

Lemma length_parseNode_items (node : AnyNode) (v : value) :
  parseNode node = Ok v -> List.length (Js.items v) <= size node.
Proof.
  destruct node as [data|data|name data|children|type name attribs children];
    intros H; try solve [injection H as <-; cbn; lia].
  destruct type; try solve [injection H as <-; cbn; lia].
  rewrite parseNode_tag in H. destruct (name_in inline_names name).
  - destruct (parseText (Element Tag name attribs children) []) as [ts|]
      eqn:E; [|discriminate H].
    injection H as <-. exact (length_parseText _ _ _ E).
  - assert (Hobj : forall cs block w,
               Js.isArray block = false ->
               walk_children cs block = Ok w -> Js.isArray w = false).
    { induction cs as [|c cs IHc]; intros block w Hb Hw.
      - injection Hw as <-. exact Hb.
      - cbn [walk_children] in Hw.
        destruct (parseNode c) as [cv|]; [|discriminate Hw].
        cbn [bind] in Hw. refine (IHc _ _ _ Hw).
        unfold append_child.
        destruct (Js.truthy cv && Js.has "elements" block); [|exact Hb].
        destruct block; try discriminate Hb; reflexivity. }
    assert (Hv : Js.isArray v = false).
    { destruct (name_in heading_names name).
      - injection H as <-. unfold parseHeader. cbn [children_of].
        destruct children as [|[d| | | |] rest]; try reflexivity.
        destruct (String.eqb d ""); reflexivity.
      - refine (Hobj _ _ _ _ H). unfold open_block, container.
        repeat match goal with
               | |- context [if ?b then _ else _] => destruct b
               end; reflexivity. }
    destruct v; try discriminate Hv; cbn; lia.
Qed.

Lemma append_child_within_room (L : nat) (block childObj : value) :
  List.length (Js.items childObj) <= L -> 1 <= L ->
  append_child_within L block childObj
  = Returns (append_child block childObj).
Proof.
  intros Hi H1. unfold append_child_within, spread_fits.
  destruct (Js.isArray childObj);
    [destruct (Nat.leb_spec (List.length (Js.items childObj)) L) as [_|Hgt]
    |destruct (Nat.leb_spec (List.length [childObj]) L) as [_|Hgt]];
    try (cbn [List.length] in Hgt; lia);
    rewrite andb_false_r; reflexivity.
Qed.

Lemma node_within_room (L : nat) :
  forall frames node,
    height node < frames -> size node <= L ->
    parseNode_within L frames node = outcome_of (parseNode node).
Proof.
  induction frames as [|f IH]; intros node Hh Hs; [lia|].
  destruct node as [data|data|name data|children|type name attribs children];
    try reflexivity.
  - cbn [parseNode_within parseNode].
    rewrite (text_within_room L f (Text data) []) by (cbn in *; lia).
    destruct (parseText (Text data) []); reflexivity.
  - destruct type; try reflexivity.
    rewrite parseNode_within_tag, parseNode_tag.
    destruct (name_in inline_names name).
    + rewrite (text_within_room L f (Element Tag name attribs children) [])
        by lia.
      destruct (parseText (Element Tag name attribs children) []);
        reflexivity.
    + destruct (name_in heading_names name); [reflexivity|].
      rewrite height_children in Hh. rewrite size_children in Hs.
      assert (Hh' : highest children < f) by lia.
      assert (Hs' : total children < L) by lia.
      clear Hh Hs. generalize (open_block name attribs).
      induction children as [|c cs IHc]; intros block; [reflexivity|].
      cbn [highest total fold_right] in Hh', Hs'.
      pose proof (size_positive c) as Hc1.
      cbn [walk_children_within walk_children].
      rewrite (IH c) by lia.
      destruct (parseNode c) as [v|e] eqn:E;
        cbn [outcome_of and_then bind]; [|reflexivity].
      pose proof (length_parseNode_items c v E) as Hl.
      rewrite (append_child_within_room L block v) by lia.
      cbn [and_then]. apply IHc; unfold highest, total; lia.
Qed.

Lemma length_filter_le {A : Type} (f : A -> bool) (l : list A) :
  List.length (filter f l) <= List.length l.
Proof.
  induction l as [|x l IH]; [cbn; lia|]. cbn [filter].
  destruct (f x); cbn [List.length]; lia.
Qed.

Lemma blocks_within_room (L frames : nat) (nodes : list AnyNode) :
  Forall (fun node => height node < frames /\ size node <= L) nodes ->
  parseBlocks_within L frames nodes = outcome_of (parseBlocks nodes).
Proof.
  induction 1 as [|node rest [Hh Hs] _ IH]; [reflexivity|].
  cbn [parseBlocks_within parseBlocks].
  rewrite (node_within_room L frames node Hh Hs).
  destruct (parseNode node) as [tmp|e] eqn:E;
    cbn [outcome_of and_then bind]; [|reflexivity].
  pose proof (length_parseNode_items node tmp E) as Hl.
  assert (Hfit : Js.isArray tmp && negb (spread_fits L (push_result tmp))
                 = false).
  { destruct (Js.isArray tmp) eqn:Ea; [|reflexivity]. cbn [andb].
    unfold push_result, spread_fits. rewrite Ea.
    pose proof (length_filter_le keep_text (Js.items tmp)) as Hf.
    destruct (Nat.leb_spec (List.length (filter keep_text (Js.items tmp))) L)
      as [_|Hgt]; [reflexivity|lia]. }
  rewrite Hfit, IH. destruct (parseBlocks rest); reflexivity.
Qed.

Lemma outcome_of_throws {A : Type} (r : result A) :
  outcome_of r = Throws TypeError <-> r = Throw TypeError.
Proof.
  destruct r as [a|e]; cbn [outcome_of]; split; intros H;
    try discriminate H; [injection H as ->|injection H as ->]; reflexivity.
Qed.

(** X1: on a call stack of limited size, [parseText], [parseNode] and the
    walk over the children of the body end as they do without the limit or
    use up the stack; whatever the limits, they throw a [TypeError] only
    when the tree holds an anchor without children on the way of the walk
    ([parseText] goes through every tag that is not an anchor, [parseNode]
    through every tag that is not a heading, handing the inline tags to
    [parseText]).  When the stack has a frame for every level of the tree
    and [push] takes as many arguments as the tree has nodes, the stack is
    not used up, and the walk throws exactly when it comes to such an
    anchor. *)
Theorem walk_throws_exactly_at_empty_anchor :
  (forall L frames node style,
      parseText_within L frames node style = Overflows
      \/ parseText_within L frames node style
         = outcome_of (parseText node style))
  /\ (forall L frames node,
         parseNode_within L frames node = Overflows
         \/ parseNode_within L frames node = outcome_of (parseNode node))
  /\ (forall L frames nodes,
         parseBlocks_within L frames nodes = Overflows
         \/ parseBlocks_within L frames nodes
            = outcome_of (parseBlocks nodes))
  /\ (forall L frames node style,
         parseText_within L frames node style = Throws TypeError ->
         text_reaches_empty_anchor node = true)
  /\ (forall L frames node,
         parseNode_within L frames node = Throws TypeError ->
         walk_reaches_empty_anchor node = true)
  /\ (forall L frames nodes,
         parseBlocks_within L frames nodes = Throws TypeError ->
         existsb walk_reaches_empty_anchor nodes = true)
  /\ (forall L frames node style,
         height node <= frames -> size node <= L ->
         parseText_within L frames node style
         = (if text_reaches_empty_anchor node then Throws TypeError
            else outcome_of (parseText node style))
         /\ (text_reaches_empty_anchor node = false ->
             exists ts, parseText_within L frames node style = Returns ts))
  /\ (forall L frames node,
         height node < frames -> size node <= L ->
         parseNode_within L frames node
         = (if walk_reaches_empty_anchor node then Throws TypeError
            else outcome_of (parseNode node))
         /\ (walk_reaches_empty_anchor node = false ->
             exists v, parseNode_within L frames node = Returns v))
  /\ (forall L frames nodes,
         Forall (fun node => height node < frames /\ size node <= L) nodes ->
         parseBlocks_within L frames nodes
         = (if existsb walk_reaches_empty_anchor nodes then Throws TypeError
            else outcome_of (parseBlocks nodes))
         /\ (existsb walk_reaches_empty_anchor nodes = false ->
             exists blocks,
               parseBlocks_within L frames nodes = Returns blocks)).
Proof.
  assert (Hk : forall (A : Type) (r : result A) (b : bool),
             is_ok r = negb b ->
             outcome_of r = (if b then Throws TypeError else outcome_of r)
             /\ (b = false -> exists a, outcome_of r = Returns a)).
  { intros A r b H. destruct b; cbn [negb] in H.
    - split; [|discriminate]. apply outcome_of_throws, throw_iff_not_ok, H.
    - split; [reflexivity|]. intros _.
      destruct r as [a|e]; [exists a; reflexivity|discriminate H]. }
  assert (Ht : forall (A : Type) (o : outcome A) (r : result A) (b : bool),
             o = Overflows \/ o = outcome_of r ->
             is_ok r = negb b -> o = Throws TypeError -> b = true).
  { intros A o r b [-> | ->] H E; [discriminate E|].
    apply outcome_of_throws, throw_iff_not_ok in E. rewrite E in H.
    destruct b; [reflexivity|discriminate H]. }
  repeat split.
  - apply text_within_refines.
  - apply node_within_refines.
  - apply blocks_within_refines.
  - intros L frames node style.
    exact (Ht _ _ _ _ (text_within_refines L frames node style)
             (is_ok_parseText node style)).
  - intros L frames node.
    exact (Ht _ _ _ _ (node_within_refines L frames node)
             (is_ok_parseNode node)).
  - intros L frames nodes.
    exact (Ht _ _ _ _ (blocks_within_refines L frames nodes)
             (is_ok_parseBlocks nodes)).
  - rewrite (text_within_room L frames node style H H0).
    apply (Hk _ _ _ (is_ok_parseText node style)).
  - rewrite (text_within_room L frames node style H H0).
    apply (Hk _ _ _ (is_ok_parseText node style)).
  - rewrite (node_within_room L frames node H H0).
    apply (Hk _ _ _ (is_ok_parseNode node)).
  - rewrite (node_within_room L frames node H H0).
    apply (Hk _ _ _ (is_ok_parseNode node)).
  - rewrite (blocks_within_room L frames nodes H).
    apply (Hk _ _ _ (is_ok_parseBlocks nodes)).
  - rewrite (blocks_within_room L frames nodes H).
    apply (Hk _ _ _ (is_ok_parseBlocks nodes)).
Qed.

Lemma walk_throws_exactly_at_empty_anchor_witness :
  parseBlocks_within 10 5
    [Element Tag "p" [] [Element Tag "b" [] [Text "x"];
                         Element Tag "a" [] []]]
  = Throws TypeError
  /\ parseText_within 10 2 (Element Tag "b" [] [Text "x"]) []
     = Returns [VObj [("type", VStr "text"); ("text", VStr "x");
                      ("style", VObj [("bold", VBool true)])]]
  /\ walk_reaches_empty_anchor (Element Tag "a" [] []) = true
  /\ parseNode_within 10 1 (Element Tag "b" [] [Text "x"]) = Overflows.
Proof.
  split; [|split; [|split]].
  - apply (proj2 (proj2 (proj2 (proj2 (proj2 (proj2 (proj2 (proj2
             walk_throws_exactly_at_empty_anchor))))))) 10 5).
    constructor; [split; cbn; lia|constructor].
  - apply (proj1 (proj2 (proj2 (proj2 (proj2 (proj2 (proj2
             walk_throws_exactly_at_empty_anchor)))))) 10 2
             (Element Tag "b" [] [Text "x"]) []); cbn; lia.
  - apply (proj1 (proj2 (proj2 (proj2 (proj2
             walk_throws_exactly_at_empty_anchor)))) 10 3).
    reflexivity.
  - destruct (proj1 (proj2 walk_throws_exactly_at_empty_anchor) 10 1
                (Element Tag "b" [] [Text "x"])) as [H|H]; [exact H|].
    discriminate H.
Defined.
